(** * qimg: boxed two-tone image quantisation and its binary container

    A shallow embedding of [src/qimg.mjs] and the properties of its five
    transformations: [boxify], [pack], [unpack], [serialiseFromPacked] and
    [deserialiseIntoPacked].

    The program is JavaScript, so every number is a binary64 value and every
    read of a missing array element is [undefined].  Two number types are
    used below.

    - [value] holds what the record fields of the program hold: an integer,
      [NaN] or [undefined].  Every field of the program is an integer unless
      a division by zero or a read past the end of an array took place:
      the integers the program meets are far below 2^53, where binary64
      arithmetic on integers is exact, and the only non-integral numbers it
      computes are luminances.  The two zeros of binary64 are one integer
      here; the program never tells them apart.
    - luminances are primitive binary64 floats ([PrimFloat.float]), with the
      operations of IEEE 754 that JavaScript uses. *)

From Stdlib Require Import ZArith Lia Uint63 Floats String.
From stdpp Require Import base list.

Open Scope Z_scope.

(** ** JavaScript values *)

Inductive value : Type :=
  | JUndefined
  | JNaN
  | JNum (z : Z).

#[global] Instance value_eq_dec : EqDecision value.
Proof. solve_decision. Defined.

#[global] Instance value_inhabited : Inhabited value := populate JUndefined.

(** How a function ends: it returns, or it ends the process with
    [process.exit()] after a message on [console.error], or [new Array(n)]
    throws a [RangeError] for a length [n] that is not an integer of
    [0 .. 2^32 - 1]. *)
Inductive completion (A : Type) : Type :=
  | Normal (a : A)
  | ProcessExit (message : string)
  | RangeError.
Arguments Normal {A} a.
Arguments ProcessExit {A} message.
Arguments RangeError {A}.

(** The first line each [process.exit()] of the program is announced with. *)
Definition too_large_message : string :=
  "one of the following values is too large to be serialised:".
Definition incorrect_filetype_message : string :=
  "incorrect filetype, expecting .qimg file".
Definition no_box_size_message : string :=
  "no box size parameter provided".

Module JS.

(** [a + b], [a - b], [a * b] on numbers; [undefined] converts to [NaN]. *)
Definition arith (op : Z -> Z -> Z) (a b : value) : value :=
  match a, b with
  | JNum x, JNum y => JNum (op x y)
  | _, _ => JNaN
  end.
Definition add := arith Z.add.
Definition sub := arith Z.sub.
Definition mul := arith Z.mul.

(** [a % b]: the remainder has the sign of the dividend; [a % 0] is [NaN]. *)
Definition rem (a b : value) : value :=
  match a, b with
  | JNum x, JNum y => if y =? 0 then JNaN else JNum (Z.rem x y)
  | _, _ => JNaN
  end.

(** [a / b] where [b] divides [a], the only divisions of integers the
    program makes outside [pack] (lemma [rem_div_exact] below); [0 / 0]
    and [NaN / 0] are [NaN]. *)
Definition div (a b : value) : value :=
  match a, b with
  | JNum x, JNum y => if y =? 0 then JNaN else JNum (Z.quot x y)
  | _, _ => JNaN
  end.

(** [a < b] and [a > b]: false as soon as one side is [NaN]. *)
Definition lt (a b : value) : bool :=
  match a, b with
  | JNum x, JNum y => x <? y
  | _, _ => false
  end.
Definition gt (a b : value) : bool := lt b a.

(** [!a] for a number or [undefined]. *)
Definition not (a : value) : bool :=
  match a with
  | JNum z => z =? 0
  | _ => true
  end.

(** [a == b] for [a] a number or [undefined] and [b] a number. *)
Definition eq (a b : value) : bool :=
  match a, b with
  | JNum x, JNum y => x =? y
  | _, _ => false
  end.

(** ToInt32, the conversion applied to the operands of [&], [|], [<<], [>>];
    the shifts are by a count [k] of [0 .. 31]. *)
Definition wrap32 (z : Z) : Z := (z + 2^31) mod 2^32 - 2^31.
Definition ToInt32 (a : value) : Z :=
  match a with
  | JNum z => wrap32 z
  | _ => 0
  end.
Definition shl (a : value) (k : Z) : value := JNum (wrap32 (Z.shiftl (ToInt32 a) k)).
Definition shr (a : value) (k : Z) : value := JNum (Z.shiftr (ToInt32 a) k).
Definition and (a b : value) : value := JNum (Z.land (ToInt32 a) (ToInt32 b)).
Definition or (a b : value) : value := JNum (Z.lor (ToInt32 a) (ToInt32 b)).

(** ToUint8, the conversion [Uint8Array.from] applies to every element. *)
Definition ToUint8 (a : value) : Z :=
  match a with
  | JNum z => z mod 256
  | _ => 0
  end.

(** ToIntegerOrInfinity, applied to the arguments of [slice]. *)
Definition ToInteger (a : value) : Z :=
  match a with
  | JNum z => z
  | _ => 0
  end.

(** [a[i]]: [undefined] outside the array. *)
Definition get {A} (inj : A -> value) (a : list A) (i : value) : value :=
  match i with
  | JNum z => if z <? 0 then JUndefined
              else from_option inj JUndefined (a !! Z.to_nat z)
  | _ => JUndefined
  end.

(** [a.slice(start, end)] and [a.slice(start)] for [start], [end] that are
    not negative, as they are throughout the program. *)
Definition slice {A} (a : list A) (start stop : value) : list A :=
  take (Z.to_nat (ToInteger stop) - Z.to_nat (ToInteger start))%nat
       (drop (Z.to_nat (ToInteger start)) a).
Definition slice_from {A} (a : list A) (start : value) : list A :=
  drop (Z.to_nat (ToInteger start)) a.

(** [a[i] = v] on an [Array]: a write at or past [a.length] extends the
    array, the elements in between reading [undefined]; a key that is not
    an array index ([NaN], [undefined], a negative number) adds a named
    property and leaves the elements alone.  (From 2^32 - 1 on an integer
    is a named property as well; it reads back like an element, and the
    model keeps it as one.) *)
Definition set (a : list value) (i : value) (v : value) : list value :=
  match i with
  | JNum z =>
      if z <? 0 then a
      else if z <? Z.of_nat (length a) then <[Z.to_nat z := v]> a
      else a ++ replicate (Z.to_nat z - length a) JUndefined ++ [v]
  | _ => a
  end.

(** The values [0 <= i < n] of a loop [for (let i = 0; i < n; i++)]: none
    when [n] is not a number. *)
Definition upto (n : value) : list value :=
  match n with
  | JNum z => JNum <$> seqZ 0 z
  | _ => []
  end.

End JS.

(** ** Data model *)

Module Color.
Record t : Type := make { r : value; g : value; b : value }.
End Color.

Module Size.
Record t : Type := make { width : value; height : value }.
End Size.

(** [{ width, height, data }]: a decoded bitmap, four channels per pixel. *)
Module Image.
Record t : Type := make { width : value; height : value; data : list value }.
End Image.

Module Pixel.
Record t : Type := make { x : value; y : value; color : Color.t }.
End Pixel.

Module Box.
Record t : Type := make { x : value; y : value; data : list Pixel.t }.
End Box.

Module BoxedImage.
Record t : Type := make { size : Size.t; boxSize : value; data : list Box.t }.
End BoxedImage.

Module PackedPixel.
Record t : Type := make { x : value; y : value; index : value }.
End PackedPixel.

Module PackedBox.
Record t : Type :=
  make { x : value; y : value; light : Color.t; dark : Color.t;
         data : list PackedPixel.t }.
End PackedBox.

Module PackedImage.
Record t : Type := make { size : Size.t; boxSize : value; data : list PackedBox.t }.
End PackedImage.

(** ** The container format *)

Definition MAGIC : list Z := [99; 115; 113; 47; 113; 105; 109; 103].

(** The bytes one iteration of the loop over [data] pushes. *)
Definition push_box (bytes : list value) (box : PackedBox.t) : list value :=
  let bytes := bytes ++ [PackedBox.x box] in
  let bytes := bytes ++ [PackedBox.y box] in
  let bytes := bytes ++ [Color.r (PackedBox.light box)] in
  let bytes := bytes ++ [Color.g (PackedBox.light box)] in
  let bytes := bytes ++ [Color.b (PackedBox.light box)] in
  let bytes := bytes ++ [Color.r (PackedBox.dark box)] in
  let bytes := bytes ++ [Color.g (PackedBox.dark box)] in
  let bytes := bytes ++ [Color.b (PackedBox.dark box)] in
  fold_left (fun bytes pixel => bytes ++ [PackedPixel.index pixel])
            (PackedBox.data box) bytes.

(** The serializer, with [bytes] a list of any length: what the code returns
    where its output fits an array of the engine.  The serializer with the
    capacity of the arrays, which throws where [bytes.push] does, is
    [Bounded.serialiseFromPacked] below. *)
Definition serialiseFromPacked (p : PackedImage.t) : completion (list Z) :=
  let size := PackedImage.size p in
  let boxSize := PackedImage.boxSize p in
  let data := PackedImage.data p in
  let bytes := [] in
  let magic := JNum <$> MAGIC in
  let version := [JNum 0; JNum 1] in
  let bytes := bytes ++ magic in
  let bytes := bytes ++ version in
  if JS.gt boxSize (JNum 255) || JS.gt (Size.width size) (JNum 255)
     || JS.gt (Size.height size) (JNum 255)
  then ProcessExit too_large_message
  else
    let bytes := bytes ++ [boxSize] in
    let bytes := bytes ++ [Size.width size] in
    let bytes := bytes ++ [Size.height size] in
    let length := JNum (Z.of_nat (length data)) in
    let dataLength :=
      [ JS.shr (JS.and length (JS.shl (JNum 255) 16)) 16;
        JS.shr (JS.and length (JS.shl (JNum 255) 8)) 8;
        JS.and length (JNum 255) ] in
    let bytes := bytes ++ dataLength in
    let bytes := fold_left push_box data bytes in
    Normal (JS.ToUint8 <$> bytes).

(** [magic.every((item, index) => MAGIC[index] == item)] *)
Definition magic_every (magic : list Z) : bool :=
  forallb (fun '(index, item) => JS.eq (JS.get JNum MAGIC (JNum (Z.of_nat index))) (JNum item))
          (imap pair magic).

(** The body of the loop over [i]: the box decoded from record [i]. *)
Definition read_box (rest : list Z) (boxSize boxBytesSize : value) (i : value)
  : PackedBox.t :=
  let index := JS.mul boxBytesSize i in
  let boxBytes := JS.slice rest index (JS.add index boxBytesSize) in
  let pixelBytes := JS.slice_from boxBytes (JNum 8) in
  let pixels :=
    y ← JS.upto boxSize;
    x ← JS.upto boxSize;
    let index := JS.add (JS.mul y boxSize) x in
    [PackedPixel.make x y (JS.get JNum pixelBytes index)] in
  PackedBox.make
    (JS.get JNum boxBytes (JNum 0))
    (JS.get JNum boxBytes (JNum 1))
    (Color.make (JS.get JNum boxBytes (JNum 2)) (JS.get JNum boxBytes (JNum 3))
                (JS.get JNum boxBytes (JNum 4)))
    (Color.make (JS.get JNum boxBytes (JNum 5)) (JS.get JNum boxBytes (JNum 6))
                (JS.get JNum boxBytes (JNum 7)))
    pixels.

Definition deserialiseIntoPacked (bytes : list Z) : completion PackedImage.t :=
  let header := JS.slice bytes (JNum 0) (JNum 16) in
  let magic := JS.slice header (JNum 0) (JNum 8) in
  if negb (magic_every magic) then ProcessExit incorrect_filetype_message
  else
    let boxSize := JS.get JNum header (JNum 10) in
    let size := Size.make (JS.get JNum header (JNum 11)) (JS.get JNum header (JNum 12)) in
    let dataLength :=
      JS.or (JS.or (JS.shl (JS.get JNum header (JNum 13)) 16)
                   (JS.shl (JS.get JNum header (JNum 14)) 8))
            (JS.get JNum header (JNum 15)) in
    let rest := JS.slice_from bytes (JNum 16) in
    let boxBytesSize :=
      JS.add (JS.add (JS.add (JNum 2) (JNum 3)) (JNum 3)) (JS.mul boxSize boxSize) in
    let data := read_box rest boxSize boxBytesSize <$> JS.upto dataLength in
    Normal (PackedImage.make size boxSize data).


(** ** Unpacker *)

(** [new Array(n)]: [n] empty slots, or a [RangeError] when [n] is not an
    integer of [0 .. 2^32 - 1].  This is the limit of the language: below
    it an engine allocates the array if it has the memory, and the process
    ends if it has not. *)
Definition new_Array (n : value) : completion (list value) :=
  match n with
  | JNum z => if (0 <=? z) && (z <? 2^32) then Normal (replicate (Z.to_nat z) JUndefined)
              else RangeError
  | _ => RangeError
  end.

(** [a.fill(0).map((_, index) => index % 4 == 3 ? 255 : 0)] *)
Definition full_alpha (a : list value) : list value :=
  imap (fun index _ => if Z.of_nat index mod 4 =? 3 then JNum 255 else JNum 0)
       ((fun _ => JNum 0) <$> a).

(** The body of the loop over [box.data]. *)
Definition write_pixel (width boxSize : value) (box : PackedBox.t)
    (imageData : list value) (pixel : PackedPixel.t) : list value :=
  let x := JS.add (JS.mul (PackedBox.x box) boxSize) (PackedPixel.x pixel) in
  let y := JS.add (JS.mul (PackedBox.y box) boxSize) (PackedPixel.y pixel) in
  let realY := JS.mul width y in
  let index := JS.mul (JS.add realY x) (JNum 4) in
  let color := if JS.eq (PackedPixel.index pixel) (JNum 0)
               then PackedBox.dark box else PackedBox.light box in
  let imageData := JS.set imageData index (Color.r color) in
  let imageData := JS.set imageData (JS.add index (JNum 1)) (Color.g color) in
  let imageData := JS.set imageData (JS.add index (JNum 2)) (Color.b color) in
  JS.set imageData (JS.add index (JNum 3)) (JNum 255).

Definition write_box (width boxSize : value) (imageData : list value)
    (box : PackedBox.t) : list value :=
  fold_left (write_pixel width boxSize box) (PackedBox.data box) imageData.

Definition unpack (p : PackedImage.t) : completion Image.t :=
  let size := PackedImage.size p in
  let boxSize := PackedImage.boxSize p in
  let data := PackedImage.data p in
  let width := JS.mul (Size.width size) boxSize in
  let height := JS.mul (Size.height size) boxSize in
  match new_Array (JS.mul (JS.mul width height) (JNum 4)) with
  | Normal a =>
      let imageData := full_alpha a in
      let imageData := fold_left (write_box width boxSize) data imageData in
      Normal (Image.make width height imageData)
  | ProcessExit message => ProcessExit message
  | RangeError => RangeError
  end.

(** ** Boxifier *)

(** [for (let i = start; i < bound; i += step) body]: [fuel] bounds the
    number of iterations, [None] reports that it ran out. *)
Fixpoint for_step {St : Type} (fuel : nat) (i bound step : value)
    (body : value -> St -> option St) (s : St) : option St :=
  if JS.lt i bound then
    match fuel with
    | O => None
    | S fuel =>
        match body i s with
        | Some s => for_step fuel (JS.add i step) bound step body s
        | None => None
        end
    end
  else Some s.

(** The two innermost loops of [boxify]: the pixels of the box that starts
    at [(xStart, yStart)]. *)
Definition box_pixels (image : Image.t) (imageData : list value)
    (boxSize xStart yStart : value) : list Pixel.t :=
  y ← JS.upto boxSize;
  x ← JS.upto boxSize;
  let realY := JS.add yStart y in
  let realX := JS.add xStart x in
  let index := JS.add (JS.mul realY (Image.width image)) realX in
  [Pixel.make x y
     (Color.make (JS.get id imageData (JS.mul index (JNum 4)))
                 (JS.get id imageData (JS.add (JS.mul index (JNum 4)) (JNum 1)))
                 (JS.get id imageData (JS.add (JS.mul index (JNum 4)) (JNum 2))))].

Definition boxify (fuel : nat) (image : Image.t) (boxSize : value)
  : option BoxedImage.t :=
  let imageData := Image.data image in
  let size :=
    Size.make (JS.sub (Image.width image) (JS.rem (Image.width image) boxSize))
              (JS.sub (Image.height image) (JS.rem (Image.height image) boxSize)) in
  let data := [] in
  data ← for_step fuel (JNum 0) (Size.height size) boxSize (fun yStart data =>
            for_step fuel (JNum 0) (Size.width size) boxSize (fun xStart data =>
              let box := Box.make (JS.div xStart boxSize) (JS.div yStart boxSize)
                                  (box_pixels image imageData boxSize xStart yStart) in
              Some (data ++ [box])) data) data;
  Some (BoxedImage.make
          (Size.make (JS.div (Size.width size) boxSize) (JS.div (Size.height size) boxSize))
          boxSize data).

(** ** Packer *)

(** The binary64 number nearest to the integer [z]. *)
Definition Z2F (z : Z) : float := SF2Prim (binary_normalize prec emax z 0 false).

Definition ToNumber (v : value) : float :=
  match v with
  | JNum z => Z2F z
  | _ => nan
  end.

(** The literals [0.241], [0.691] and [0.068] denote the binary64 numbers
    nearest to them, written here in hexadecimal. *)
Definition getLuminance (color : Color.t) : float :=
  let r := ToNumber (Color.r color) in
  let g := ToNumber (Color.g color) in
  let b := ToNumber (Color.b color) in
  (sqrt ((0x1.ed916872b020cp-3 * r * r) + (0x1.61cac083126e9p-1 * g * g)
         + (0x1.16872b020c49cp-4 * b * b)) / 255)%float.

Module Totals.
Record t : Type := make { r : value; g : value; b : value; n : value }.
Definition zero : t := make (JNum 0) (JNum 0) (JNum 0) (JNum 0).
(** [n++; r += color.r; g += color.g; b += color.b] *)
Definition add (totals : t) (color : Color.t) : t :=
  make (JS.add (r totals) (Color.r color)) (JS.add (g totals) (Color.g color))
       (JS.add (b totals) (Color.b color)) (JS.add (n totals) (JNum 1)).
End Totals.

(** [Math.floor(a / n)] for a sum [a] of colour channels and a count [n]:
    the quotient of the integers rounded down, and [NaN] for [0 / 0].  (When
    [n] is [0] nothing was added to [a], lemma [totals_empty] below; on sums
    below 2^53 the binary64 quotient has the same integer part as the exact
    one.) *)
Definition floor_div (a n : value) : value :=
  match a, n with
  | JNum x, JNum y => if y =? 0 then JNaN else JNum (x / y)
  | _, _ => JNaN
  end.

Definition averageLuminance (data : list Pixel.t) : float :=
  let totalLuminance :=
    fold_left (fun accumulator current =>
                 (accumulator + getLuminance (Pixel.color current))%float) data 0%float in
  (totalLuminance / Z2F (Z.of_nat (length data)))%float.

(** [luminance >= averageLuminance] *)
Definition is_light (averageLuminance : float) (pixel : Pixel.t) : bool :=
  let luminance := getLuminance (Pixel.color pixel) in
  (averageLuminance <=? luminance)%float.

(** The loop that adds every pixel to the totals of its partition: the pair
    is [(totals.light, totals.dark)]. *)
Definition partition_totals (averageLuminance : float) (data : list Pixel.t)
  : Totals.t * Totals.t :=
  fold_left (fun totals pixel =>
               if is_light averageLuminance pixel
               then (Totals.add (fst totals) (Pixel.color pixel), snd totals)
               else (fst totals, Totals.add (snd totals) (Pixel.color pixel)))
            data (Totals.zero, Totals.zero).

Definition mean_color (t : Totals.t) : Color.t :=
  Color.make (floor_div (Totals.r t) (Totals.n t)) (floor_div (Totals.g t) (Totals.n t))
             (floor_div (Totals.b t) (Totals.n t)).

(** The body of the loop over the boxes. *)
Definition pack_box (box : Box.t) : PackedBox.t :=
  let averageLuminance := averageLuminance (Box.data box) in
  let totals := partition_totals averageLuminance (Box.data box) in
  let light := mean_color (fst totals) in
  let dark := mean_color (snd totals) in
  let data :=
    fold_left (fun data pixel =>
                 data ++ [PackedPixel.make (Pixel.x pixel) (Pixel.y pixel)
                            (if is_light averageLuminance pixel then JNum 1 else JNum 0)])
              (Box.data box) [] in
  PackedBox.make (Box.x box) (Box.y box) light dark data.

Definition pack (boxed : BoxedImage.t) : PackedImage.t :=
  let boxes := fold_left (fun boxes box => boxes ++ [pack_box box])
                         (BoxedImage.data boxed) [] in
  PackedImage.make (BoxedImage.size boxed) (BoxedImage.boxSize boxed) boxes.

(** ** The two commands, without their file input and output

    [compress] is given the decoded [image] and returns the bytes of the
    [.qimg] file it writes; [decompress] is given the bytes of the file and
    returns the bitmap it hands to the encoder. *)
Definition compress (fuel : nat) (image : Image.t) (boxSize : value)
  : option (completion (list Z)) :=
  if JS.not boxSize then Some (ProcessExit no_box_size_message)
  else
    boxes ← boxify fuel image boxSize;
    let packed := pack boxes in
    Some (serialiseFromPacked packed).

Definition decompress (bytes : list Z) : completion Image.t :=
  match deserialiseIntoPacked bytes with
  | Normal packed => unpack packed
  | ProcessExit message => ProcessExit message
  | RangeError => RangeError
  end.
(** ** The arrays of the engine

    An array is a list of any length above.  An engine holds a limited
    number of elements in an array, its [capacity]: a [push] that would go
    beyond it throws [RangeError: Invalid array length].  The language puts
    the limit at 2^32 - 1 elements; V8, the engine of Node, stops the array
    that [push] grows below 2^27 elements.  The serializer builds its output
    with [push], and [Bounded.serialiseFromPacked] is the serializer with a
    capacity; where the output fits, it returns what [serialiseFromPacked]
    returns (lemma [bounded_serialise] below). *)

#[global] Instance completion_bind : MBind completion :=
  fun A B f c =>
    match c with
    | Normal a => f a
    | ProcessExit message => ProcessExit message
    | RangeError => RangeError
    end.

Module Bounded.

(** [bytes.push(...items)] *)
Definition push (capacity : Z) (bytes items : list value) : completion (list value) :=
  if Z.of_nat (length bytes + length items) <=? capacity then Normal (bytes ++ items)
  else RangeError.

(** [for (let a of l) body] *)
Fixpoint for_of {A St : Type} (l : list A) (body : St -> A -> completion St) (s : St)
  : completion St :=
  match l with
  | [] => Normal s
  | a :: l => s ← body s a; for_of l body s
  end.

(** The body of the loop over [data]. *)
Definition push_box (capacity : Z) (bytes : list value) (box : PackedBox.t)
  : completion (list value) :=
  bytes ← push capacity bytes [PackedBox.x box];
  bytes ← push capacity bytes [PackedBox.y box];
  bytes ← push capacity bytes [Color.r (PackedBox.light box)];
  bytes ← push capacity bytes [Color.g (PackedBox.light box)];
  bytes ← push capacity bytes [Color.b (PackedBox.light box)];
  bytes ← push capacity bytes [Color.r (PackedBox.dark box)];
  bytes ← push capacity bytes [Color.g (PackedBox.dark box)];
  bytes ← push capacity bytes [Color.b (PackedBox.dark box)];
  for_of (PackedBox.data box)
         (fun bytes pixel => push capacity bytes [PackedPixel.index pixel]) bytes.

Definition serialiseFromPacked (capacity : Z) (p : PackedImage.t) : completion (list Z) :=
  let size := PackedImage.size p in
  let boxSize := PackedImage.boxSize p in
  let data := PackedImage.data p in
  let bytes := [] in
  let magic := JNum <$> MAGIC in
  let version := [JNum 0; JNum 1] in
  bytes ← push capacity bytes magic;
  bytes ← push capacity bytes version;
  if JS.gt boxSize (JNum 255) || JS.gt (Size.width size) (JNum 255)
     || JS.gt (Size.height size) (JNum 255)
  then ProcessExit too_large_message
  else
    bytes ← push capacity bytes [boxSize];
    bytes ← push capacity bytes [Size.width size];
    bytes ← push capacity bytes [Size.height size];
    let length := JNum (Z.of_nat (length data)) in
    let dataLength :=
      [ JS.shr (JS.and length (JS.shl (JNum 255) 16)) 16;
        JS.shr (JS.and length (JS.shl (JNum 255) 8)) 8;
        JS.and length (JNum 255) ] in
    bytes ← push capacity bytes dataLength;
    bytes ← for_of data (push_box capacity) bytes;
    Normal (JS.ToUint8 <$> (bytes : list value)).

End Bounded.


(** ** Vocabulary of the statements *)

(** A value that is an integer of [0 .. 255]. *)
Definition is_byte (v : value) : Prop :=
  match v with
  | JNum z => 0 <= z < 256
  | _ => False
  end.

Definition rgb (r g b : Z) : Color.t := Color.make (JNum r) (JNum g) (JNum b).

Definition byte_color (c : Color.t) : Prop :=
  is_byte (Color.r c) /\ is_byte (Color.g c) /\ is_byte (Color.b c).

Definition byte_pixel (pixel : Pixel.t) : Prop := byte_color (Pixel.color pixel).

(** The local coordinates of a box of edge [n], row by row. *)
Definition row_major (n : Z) : list (value * value) :=
  y ← seqZ 0 n; x ← seqZ 0 n; [(JNum x, JNum y)].

(** The coordinates of a grid of [w] columns and [h] rows, row by row. *)
Definition grid (w h : Z) : list (value * value) :=
  y ← seqZ 0 h; x ← seqZ 0 w; [(JNum x, JNum y)].

(** *** The serializer and the deserializer *)

(** The guard of [serialiseFromPacked]. *)
Definition too_large (p : PackedImage.t) : bool :=
  JS.gt (PackedImage.boxSize p) (JNum 255)
  || JS.gt (Size.width (PackedImage.size p)) (JNum 255)
  || JS.gt (Size.height (PackedImage.size p)) (JNum 255).

(** The values one box contributes to the byte array, in order, and the
    bytes they become. *)
Definition box_record (box : PackedBox.t) : list value :=
  [ PackedBox.x box; PackedBox.y box;
    Color.r (PackedBox.light box); Color.g (PackedBox.light box);
    Color.b (PackedBox.light box);
    Color.r (PackedBox.dark box); Color.g (PackedBox.dark box);
    Color.b (PackedBox.dark box) ]
  ++ (PackedPixel.index <$> PackedBox.data box).

Definition record_bytes (box : PackedBox.t) : list Z := JS.ToUint8 <$> box_record box.

(** The 16 header bytes for given field values and a box count [n]. *)
Definition header_bytes (boxSize width height n : Z) : list Z :=
  MAGIC ++ [0; 1] ++ [boxSize; width; height]
        ++ [n / 2^16 mod 256; n / 2^8 mod 256; n mod 256].

(** The box [read_box] builds from the bytes [boxBytes] of one record. *)
Definition decode_record (boxSize : value) (boxBytes : list Z) : PackedBox.t :=
  let pixelBytes := JS.slice_from boxBytes (JNum 8) in
  PackedBox.make
    (JS.get JNum boxBytes (JNum 0))
    (JS.get JNum boxBytes (JNum 1))
    (Color.make (JS.get JNum boxBytes (JNum 2)) (JS.get JNum boxBytes (JNum 3))
                (JS.get JNum boxBytes (JNum 4)))
    (Color.make (JS.get JNum boxBytes (JNum 5)) (JS.get JNum boxBytes (JNum 6))
                (JS.get JNum boxBytes (JNum 7)))
    (y ← JS.upto boxSize;
     x ← JS.upto boxSize;
     [PackedPixel.make x y (JS.get JNum pixelBytes (JS.add (JS.mul y boxSize) x))]).


Definition pixel_at (pixel : PackedPixel.t) : value * value :=
  (PackedPixel.x pixel, PackedPixel.y pixel).


Definition byte_coordinates (box : PackedBox.t) : Prop :=
  is_byte (PackedBox.x box) /\ is_byte (PackedBox.y box).


(** *** The boxifier *)

(** The box of [boxify] at column [x] and row [y] of the grid. *)
Definition box_at (image : Image.t) (boxSize x y : Z) : Box.t :=
  Box.make (JNum x) (JNum y)
    (box_pixels image (Image.data image) (JNum boxSize)
                (JNum (x * boxSize)) (JNum (y * boxSize))).

(** *** The unpacker *)

(** The entries of a packed image: every pixel with its box, in the order
    [unpack] visits them. *)
Definition entries (data : list PackedBox.t) : list (PackedBox.t * PackedPixel.t) :=
  box ← data; pixel ← PackedBox.data box; [(box, pixel)].

(** One iteration of the inner loop of [unpack], on an entry. *)
Definition write_entry (width boxSize : value) (imageData : list value)
    (e : PackedBox.t * PackedPixel.t) : list value :=
  write_pixel width boxSize (fst e) imageData (snd e).

(** The absolute position of an entry and its offset in the pixel buffer. *)
Definition absolute_x (boxSize : value) (e : PackedBox.t * PackedPixel.t) : value :=
  JS.add (JS.mul (PackedBox.x (fst e)) boxSize) (PackedPixel.x (snd e)).
Definition absolute_y (boxSize : value) (e : PackedBox.t * PackedPixel.t) : value :=
  JS.add (JS.mul (PackedBox.y (fst e)) boxSize) (PackedPixel.y (snd e)).
Definition target (width boxSize : value) (e : PackedBox.t * PackedPixel.t) : value :=
  JS.mul (JS.add (JS.mul width (absolute_y boxSize e)) (absolute_x boxSize e)) (JNum 4).

(** The colour of an entry: [dark] for the index 0, [light] otherwise. *)
Definition entry_color (e : PackedBox.t * PackedPixel.t) : Color.t :=
  if JS.eq (PackedPixel.index (snd e)) (JNum 0)
  then PackedBox.dark (fst e) else PackedBox.light (fst e).

(** The last entry, in the order of the list, whose offset is [o]. *)
Definition last_entry (width boxSize : value) (data : list PackedBox.t) (o : Z)
  : option (PackedBox.t * PackedPixel.t) :=
  last (filter (fun e => target width boxSize e = JNum o) (entries data)).

(** The four channels of the pixel at offset [o] of a buffer, and the four
    channels of a colour with full alpha. *)
Definition pixel_read (imageData : list value) (o : Z) : list value :=
  [ JS.get id imageData (JNum o); JS.get id imageData (JNum (o + 1));
    JS.get id imageData (JNum (o + 2)); JS.get id imageData (JNum (o + 3)) ].

Definition opaque (c : Color.t) : list value :=
  [Color.r c; Color.g c; Color.b c; JNum 255].

(** The length an array has at least after the write of an entry: four
    past its offset, when the offset is an array index. *)
Definition reach (width boxSize : value) (e : PackedBox.t * PackedPixel.t) : nat :=
  match target width boxSize e with
  | JNum o => if o <? 0 then 0%nat else (Z.to_nat o + 4)%nat
  | _ => 0%nat
  end.

(** *** The packer *)

(** A binary64 number, as [SpecFloat] describes it, that is neither [NaN]
    nor negative; one that is finite and positive. *)
Definition SFnonneg (x : spec_float) : Prop :=
  match x with
  | S754_zero _ => True
  | S754_infinity s | S754_finite s _ _ => s = false
  | S754_nan => False
  end.

Definition SFpositive (x : spec_float) : Prop :=
  match x with
  | S754_finite false _ _ => True
  | _ => False
  end.

(** A primitive binary64 number that is neither [NaN] nor negative. *)
Definition nonneg (x : float) : Prop := (0 <=? x)%float = true.

(** The formula of [getLuminance] on three numbers. *)
Definition luminance (r g b : float) : float :=
  (sqrt ((0x1.ed916872b020cp-3 * r * r) + (0x1.61cac083126e9p-1 * g * g)
         + (0x1.16872b020c49cp-4 * b * b)) / 255)%float.

(** [l] never decreases from one element to the next. *)
Fixpoint nondecreasing (l : list float) : bool :=
  match l with
  | x :: (y :: _) as l' => (x <=? y)%float && nondecreasing l'
  | _ => true
  end.

(** The binary64 numbers of the 256 values of a channel. *)
Definition byte_floats : list float := Z2F <$> seqZ 0 256.

(** The luminance never decreases along one channel, for every value of the
    two others taken in [byte]: on [byte_floats], a check of all 256^3
    colours. *)
Definition luminance_checks (byte : list float) : bool :=
  forallb (fun u => forallb (fun v =>
    nondecreasing ((fun r => luminance r u v) <$> byte)
    && nondecreasing ((fun g => luminance u g v) <$> byte)
    && nondecreasing ((fun b => luminance u v b) <$> byte)) byte) byte.

(** *** Sample data *)

(** A 1 x 1 and a 2 x 2 bitmap. *)
Definition one_pixel : Image.t :=
  Image.make (JNum 1) (JNum 1) [JNum 10; JNum 10; JNum 10; JNum 255].

Definition four_pixels : Image.t :=
  Image.make (JNum 2) (JNum 2)
    (JNum <$> [10; 10; 10; 255; 200; 200; 200; 255; 10; 10; 10; 255; 250; 250; 250; 255]).

(** A box of one pixel, a 2 x 2 box of two dark and two light pixels, and a
    3 x 3 box of one grey. *)
Definition single_pixel_box : Box.t :=
  Box.make (JNum 0) (JNum 0) [Pixel.make (JNum 0) (JNum 0) (rgb 10 10 10)].

Definition two_tone_box : Box.t :=
  Box.make (JNum 0) (JNum 0)
    [ Pixel.make (JNum 0) (JNum 0) (rgb 10 10 10);
      Pixel.make (JNum 1) (JNum 0) (rgb 200 200 200);
      Pixel.make (JNum 0) (JNum 1) (rgb 10 10 10);
      Pixel.make (JNum 1) (JNum 1) (rgb 250 250 250) ].

Definition grey_box : Box.t :=
  Box.make (JNum 0) (JNum 0)
    (y ← JS.upto (JNum 3); x ← JS.upto (JNum 3); [Pixel.make x y (rgb 11 11 11)]).

(** A packed image of one 2 x 2 box. *)
Definition one_box : PackedImage.t :=
  PackedImage.make (Size.make (JNum 1) (JNum 1)) (JNum 2)
    [PackedBox.make (JNum 0) (JNum 0) (rgb 225 225 225) (rgb 10 10 10)
       [PackedPixel.make (JNum 0) (JNum 0) (JNum 0);
        PackedPixel.make (JNum 1) (JNum 0) (JNum 1);
        PackedPixel.make (JNum 0) (JNum 1) (JNum 0);
        PackedPixel.make (JNum 1) (JNum 1) (JNum 1)]].


(** A packed image of [2^24] boxes without pixels. *)
Definition empty_box : PackedBox.t :=
  PackedBox.make (JNum 0) (JNum 0) (rgb 0 0 0) (rgb 0 0 0) [].

Definition many_boxes : PackedImage.t :=
  PackedImage.make (Size.make (JNum 0) (JNum 0)) (JNum 0)
                   (replicate (Z.to_nat (2^24)) empty_box).

(** A packed image of 255 x 255 boxes of edge 255, without any box. *)
Definition huge_image : PackedImage.t :=
  PackedImage.make (Size.make (JNum 255) (JNum 255)) (JNum 255) [].


(** *** The serializer and the capacity of an array *)

(** The number of elements the serializer pushes: 16 for the header, and
    for every box 8 and one for each of its entries. *)
Definition serialised_length (p : PackedImage.t) : Z :=
  16 + Z.of_nat (length (mjoin (box_record <$> PackedImage.data p))).

(** An array of the elements [bytes], where it fits the capacity. *)
Definition within (capacity : Z) (bytes : list value) : completion (list value) :=
  if Z.of_nat (length bytes) <=? capacity then Normal bytes else RangeError.

(** A packed image of [2^24 - 1] boxes of one pixel: [boxSize],
    [size.width], [size.height] and the box count are in range. *)
Definition pixel_box : PackedBox.t :=
  PackedBox.make (JNum 0) (JNum 0) (rgb 0 0 0) (rgb 0 0 0)
                 [PackedPixel.make (JNum 0) (JNum 0) (JNum 1)].

Definition full_count : PackedImage.t :=
  PackedImage.make (Size.make (JNum 255) (JNum 255)) (JNum 1)
                   (replicate (Z.to_nat (2^24 - 1)) pixel_box).


(** *** The packer and the mean of a box *)

(** The luminances of the pixels of a box, in the order of the pixels. *)
Definition luminances (data : list Pixel.t) : list float :=
  (fun pixel => getLuminance (Pixel.color pixel)) <$> data.

(** The mean of a list of numbers as binary64 arithmetic gives it: the
    numbers are added from left to right, starting from 0, and the sum is
    divided by their number; each addition and the division round. *)
Definition binary64_mean (ls : list float) : float :=
  (fold_left PrimFloat.add ls 0 / Z2F (Z.of_nat (length ls)))%float.

(** A finite binary64 number as an integer, in units of [2^-1074]; every
    finite binary64 number is a multiple of this unit. *)
Definition scaled (f : float) : Z :=
  match Prim2SF f with
  | S754_finite s m e => (if s then -1 else 1) * (Z.pos m * 2 ^ (e + 1074))
  | _ => 0
  end.

(** [l] is at least the arithmetic mean of the finite numbers [ls], without
    rounding: the sum of [ls] is at most [length ls] times [l]. *)
Definition at_least_exact_mean (ls : list float) (l : float) : bool :=
  foldr Z.add 0 (scaled <$> ls) <=? Z.of_nat (length ls) * scaled l.

(** A boxed image of the one box [two_tone_box], and one of [grey_box]. *)
Definition two_tone_image : BoxedImage.t :=
  BoxedImage.make (Size.make (JNum 1) (JNum 1)) (JNum 2) [two_tone_box].

Definition grey_image : BoxedImage.t :=
  BoxedImage.make (Size.make (JNum 1) (JNum 1)) (JNum 3) [grey_box].
(** ** Vocabulary of the properties of the commands *)

(** *** Streams *)

(** The bytes the magic check looks at, the first eight or all of them when
    the stream is shorter, are the first bytes of [MAGIC]. *)
Definition accepted_magic (bytes : list Z) : Prop :=
  take 8 bytes = take (length bytes) MAGIC.

(** What the byte array keeps of a value: its residue modulo 256, and 0 of
    [NaN] and [undefined]. *)
Definition stored (v : value) : value := JNum (JS.ToUint8 v).

Definition stored_color (c : Color.t) : Color.t :=
  Color.make (stored (Color.r c)) (stored (Color.g c)) (stored (Color.b c)).

Definition stored_pixel (pixel : PackedPixel.t) : PackedPixel.t :=
  PackedPixel.make (PackedPixel.x pixel) (PackedPixel.y pixel)
                   (stored (PackedPixel.index pixel)).

Definition stored_box (box : PackedBox.t) : PackedBox.t :=
  PackedBox.make (stored (PackedBox.x box)) (stored (PackedBox.y box))
                 (stored_color (PackedBox.light box)) (stored_color (PackedBox.dark box))
                 (stored_pixel <$> PackedBox.data box).

(** A box of edge [boxSize] none of whose bytes is in the stream. *)
Definition missing_box (boxSize : Z) : PackedBox.t :=
  PackedBox.make JUndefined JUndefined
    (Color.make JUndefined JUndefined JUndefined)
    (Color.make JUndefined JUndefined JUndefined)
    ((fun at_ => PackedPixel.make (fst at_) (snd at_) JUndefined) <$> row_major boxSize).

(** *** Bitmaps *)

(** A decoded bitmap of [width] by [height] pixels: four bytes per pixel. *)
Definition bitmap (image : Image.t) (width height : Z) : Prop :=
  Image.width image = JNum width /\ Image.height image = JNum height
  /\ 0 <= width /\ 0 <= height
  /\ exists bytes, Image.data image = JNum <$> bytes
                   /\ Forall (fun b => 0 <= b < 256) bytes
                   /\ Z.of_nat (length bytes) = width * height * 4.

(** The red, green and blue channels of the pixel at column [px] and row
    [py] of a buffer of rows of [width] pixels. *)
Definition source_color (imageData : list value) (width px py : Z) : Color.t :=
  let index := py * width + px in
  Color.make (JS.get id imageData (JNum (index * 4)))
             (JS.get id imageData (JNum (index * 4 + 1)))
             (JS.get id imageData (JNum (index * 4 + 2))).

(** *** Partitions *)

(** The pixels of a box that [pack] counts as light, and those it counts
    as dark. *)
Definition light_pixels (box : Box.t) : list Pixel.t :=
  List.filter (is_light (averageLuminance (Box.data box))) (Box.data box).

Definition dark_pixels (box : Box.t) : list Pixel.t :=
  List.filter (fun pixel => negb (is_light (averageLuminance (Box.data box)) pixel))
              (Box.data box).

(** The sum of one channel over a list of pixels, and the colour whose
    channels are the means over the list, rounded down. *)
Definition channel_sum (channel : Color.t -> value) (pixels : list Pixel.t) : Z :=
  foldr (fun pixel total => JS.ToInteger (channel (Pixel.color pixel)) + total) 0 pixels.

(** The totals of a partition that holds [pixels]. *)
Definition totals_of (pixels : list Pixel.t) : Totals.t :=
  Totals.make (JNum (channel_sum Color.r pixels)) (JNum (channel_sum Color.g pixels))
              (JNum (channel_sum Color.b pixels)) (JNum (Z.of_nat (length pixels))).

Definition mean_of (pixels : list Pixel.t) : Color.t :=
  let n := Z.of_nat (length pixels) in
  rgb (channel_sum Color.r pixels / n) (channel_sum Color.g pixels / n)
      (channel_sum Color.b pixels / n).

(** The average of a box of one pixel, the pixel's luminance added to 0 and
    divided by 1, is not above that luminance, for every colour with channels
    in [byte]: on [byte_floats], a check of all 256^3 colours. *)
Definition single_checks (byte : list float) : bool :=
  forallb (fun r => forallb (fun g => forallb (fun b =>
    ((0 + luminance r g b) / 1 <=? luminance r g b)%float) byte) byte) byte.

(** *** The pipeline *)

(** The colour the pipeline gives the pixel at column [px] and row [py]:
    the [light] or the [dark] colour of the box the pixel lies in, by the
    luminance of the pixel against the average of the box. *)
Definition quantised (image : Image.t) (width boxSize px py : Z) : Color.t :=
  let box := box_at image boxSize (px / boxSize) (py / boxSize) in
  let packed := pack_box box in
  let color := source_color (Image.data image) width px py in
  if (averageLuminance (Box.data box) <=? getLuminance color)%float
  then PackedBox.light packed else PackedBox.dark packed.

(** The entry of the packed image for the pixel of local coordinates
    [(x, y)] in the box at column [X] and row [Y] of the grid. *)
Definition entry_at (image : Image.t) (width boxSize X Y x y : Z)
  : PackedBox.t * PackedPixel.t :=
  let box := box_at image boxSize X Y in
  let pixel := Pixel.make (JNum x) (JNum y)
                 (source_color (Image.data image) width
                               (X * boxSize + x) (Y * boxSize + y)) in
  (pack_box box,
   PackedPixel.make (JNum x) (JNum y)
     (if is_light (averageLuminance (Box.data box)) pixel then JNum 1 else JNum 0)).

(** *** The warning of [compress] *)

(** The test [image.width % boxSize != 0 || image.height % boxSize != 0]
    under which [compress] warns that "some cropping will occur". *)
Definition crops (image : Image.t) (boxSize : value) : bool :=
  negb (JS.eq (JS.rem (Image.width image) boxSize) (JNum 0))
  || negb (JS.eq (JS.rem (Image.height image) boxSize) (JNum 0)).

(** ** Integers as 32-bit operands *)

Section Bits.

Lemma wrap32_small z : - 2^31 <= z < 2^31 -> JS.wrap32 z = z.
Proof. intros H. unfold JS.wrap32. rewrite Z.mod_small; lia. Qed.

Lemma wrap32_mod z : JS.wrap32 z mod 2^32 = z mod 2^32.
Proof.
  unfold JS.wrap32.
  rewrite Zminus_mod, Z.mod_mod, <- Zminus_mod by lia.
  f_equal. lia.
Qed.

Lemma land_low_mask x m : 0 <= m < 2^32 -> Z.land x m = Z.land (x mod 2^32) m.
Proof.
  intros Hm.
  assert (Z.land m (Z.ones 32) = m) as Hm' by (rewrite Z.land_ones, Z.mod_small; lia).
  rewrite <- (Z.land_ones x) by lia. rewrite <- Hm' at 1.
  by rewrite (Z.land_comm m), Z.land_assoc.
Qed.

Lemma land_wrap32 z m : 0 <= m < 2^32 -> Z.land (JS.wrap32 z) m = Z.land z m.
Proof.
  intros Hm. rewrite (land_low_mask (JS.wrap32 z)), (land_low_mask z) by done.
  by rewrite wrap32_mod.
Qed.

Lemma land_mask_bound n m : 0 <= m < 2^31 -> 0 <= Z.land n m < 2^31.
Proof.
  intros Hm.
  assert (Z.land m (Z.ones 31) = m) as Hm' by (rewrite Z.land_ones, Z.mod_small; lia).
  rewrite <- Hm', Z.land_assoc, Z.land_ones by lia.
  apply Z.mod_pos_bound. lia.
Qed.

(** One base-256 digit of [n] taken with a mask and a shift. *)
Lemma masked_digit n k :
  0 <= k -> Z.shiftr (Z.land n (Z.shiftl 255 k)) k = (n / 2^k) mod 256.
Proof.
  intros Hk.
  rewrite Z.shiftr_land, Z.shiftr_shiftl_l, Z.sub_diag, Z.shiftl_0_r by done.
  change 255 with (Z.ones 8). rewrite Z.land_ones by lia.
  by rewrite Z.shiftr_div_pow2.
Qed.

Lemma shiftl_land_low a b k : 0 <= k -> 0 <= a < 2^k -> Z.land (Z.shiftl b k) a = 0.
Proof.
  intros Hk Ha.
  rewrite <- (Z.mod_small a (2^k)) by lia.
  rewrite <- Z.land_ones, (Z.land_comm a), Z.land_assoc, Z.land_ones by done.
  rewrite Z.shiftl_mul_pow2, Z.mod_mul by lia. done.
Qed.

Lemma shiftl_lor_low a b k : 0 <= k -> 0 <= a < 2^k -> Z.lor (Z.shiftl b k) a = b * 2^k + a.
Proof.
  intros Hk Ha.
  pose proof (Z.add_lor_land (Z.shiftl b k) a) as H.
  rewrite shiftl_land_low in H by done.
  rewrite Z.shiftl_mul_pow2 in * by done. lia.
Qed.

(** The three count bytes of the header, as [serialiseFromPacked] computes them. *)
Lemma count_bytes n k :
  0 <= n -> k = 8 \/ k = 16 ->
  JS.shr (JS.and (JNum n) (JS.shl (JNum 255) k)) k = JNum ((n / 2^k) mod 256).
Proof.
  intros Hn Hk. unfold JS.shr, JS.and, JS.shl. f_equal.
  assert (JS.ToInt32 (JNum (JS.wrap32 (Z.shiftl (JS.ToInt32 (JNum 255)) k)))
          = Z.shiftl 255 k /\ 0 <= Z.shiftl 255 k < 2^31 /\ 0 <= k) as (-> & Hr & Hk').
  { destruct Hk as [->| ->]; vm_compute; intuition congruence. }
  cbn [JS.ToInt32]. rewrite land_wrap32 by lia.
  rewrite (wrap32_small (Z.land _ _)).
  - by apply masked_digit.
  - pose proof (land_mask_bound n (Z.shiftl 255 k) Hr). lia.
Qed.

Lemma count_low_byte n : 0 <= n -> JS.and (JNum n) (JNum 255) = JNum (n mod 256).
Proof.
  intros Hn. unfold JS.and. f_equal. cbn [JS.ToInt32].
  rewrite (wrap32_small 255), land_wrap32 by lia.
  change 255 with (Z.ones 8). by rewrite Z.land_ones.
Qed.

(** The count [deserialiseIntoPacked] reads back from three bytes. *)
Lemma count_of_bytes d2 d1 d0 :
  0 <= d2 < 256 -> 0 <= d1 < 256 -> 0 <= d0 < 256 ->
  JS.or (JS.or (JS.shl (JNum d2) 16) (JS.shl (JNum d1) 8)) (JNum d0)
  = JNum (d2 * 65536 + d1 * 256 + d0).
Proof.
  intros H2 H1 H0. unfold JS.or, JS.shl. cbn [JS.ToInt32]. f_equal.
  rewrite (wrap32_small d2), (wrap32_small d1), (wrap32_small d0) by lia.
  assert (Z.shiftl d2 16 = d2 * 65536) as E2 by (rewrite Z.shiftl_mul_pow2; lia).
  assert (Z.shiftl d1 8 = d1 * 256) as E1 by (rewrite Z.shiftl_mul_pow2; lia).
  rewrite E2, E1.
  rewrite !(wrap32_small (d2 * 65536)), !(wrap32_small (d1 * 256)) by lia.
  assert (Z.lor (d2 * 65536) (d1 * 256) = d2 * 65536 + d1 * 256) as ->.
  { rewrite <- E2, shiftl_lor_low by lia. lia. }
  rewrite wrap32_small by lia.
  replace (d2 * 65536 + d1 * 256) with (Z.shiftl (d2 * 256 + d1) 8)
    by (rewrite Z.shiftl_mul_pow2; lia).
  rewrite shiftl_lor_low by lia. rewrite Z.shiftl_mul_pow2; lia.
Qed.

End Bits.

(** ** Lists cut into records of one size *)

Section Chunks.
Context {A : Type}.
Implicit Types (l : list A) (ls : list (list A)).

Lemma chunk_mjoin ls k i l :
  Forall (fun l => length l = k) ls -> ls !! i = Some l ->
  take k (drop (k * i) (mjoin ls)) = l.
Proof.
  intros Hall. revert i. induction Hall as [|l0 ls Hl0 _ IH]; intros i Hi; [done|].
  change (mjoin (l0 :: ls)) with (l0 ++ mjoin ls).
  destruct i as [|i]; cbn in Hi.
  - injection Hi as ->. rewrite Nat.mul_0_r. cbn [drop].
    by apply take_app_length'.
  - replace (k * S i)%nat with (k + k * i)%nat by lia.
    rewrite drop_app_add' by done. by apply IH.
Qed.


End Chunks.

(** ** Two nested counting loops as one *)

Section Grid.
Context {A : Type}.

Lemma grid_flat (F : Z -> Z -> A) (w h : Z) :
  0 <= w -> 0 <= h ->
  (y ← seqZ 0 h; x ← seqZ 0 w; [F x y])
  = (fun n => F (n mod w) (n / w)) <$> seqZ 0 (h * w).
Proof.
  intros Hw Hh. rewrite <- (Z2Nat.id h) by done.
  induction (Z.to_nat h) as [|k IH]; [done|].
  rewrite seqZ_S, bind_app, IH, bind_singleton, Z.add_0_l.
  replace (Z.of_nat (S k) * w) with (Z.of_nat k * w + w) by lia.
  rewrite seqZ_app, fmap_app by lia. f_equal.
  rewrite Z.add_0_l, <- (Z.add_0_r (Z.of_nat k * w)) at 1.
  rewrite <- fmap_add_seqZ, <- list_fmap_compose. clear IH.
  assert (Forall (fun x => 0 <= x < w) (seqZ 0 w)) as Hall.
  { apply Forall_seqZ. lia. }
  revert Hall. generalize (seqZ 0 w) as l.
  induction l as [|x l IHl]; intros Hall; [done|].
  inversion Hall as [|? ? Hx Hl]; subst.
  rewrite bind_cons, fmap_cons, IHl by done. cbn [app compose]. f_equal.
  rewrite (Z.add_comm (_ * _)), Z_mod_plus_full, Z.mod_small, Z.div_add,
    Z.div_small by lia. done.
Qed.

End Grid.

(** ** The serializer *)

Section Serialise.

Lemma fold_left_push {A B} (f : A -> B) (l : list A) (acc : list B) :
  fold_left (fun acc a => acc ++ [f a]) l acc = acc ++ (f <$> l).
Proof.
  revert acc. induction l as [|a l IH]; intros acc; cbn.
  - by rewrite app_nil_r.
  - by rewrite IH, <- (assoc_L (++)).
Qed.

Lemma push_box_record bytes box : push_box bytes box = bytes ++ box_record box.
Proof.
  unfold push_box, box_record.
  rewrite (fold_left_push PackedPixel.index), <- !(assoc_L (++)). done.
Qed.

Lemma fold_push_box data bytes :
  fold_left push_box data bytes = bytes ++ mjoin (box_record <$> data).
Proof.
  revert bytes. induction data as [|box data IH]; intros bytes; cbn.
  - by rewrite app_nil_r.
  - by rewrite IH, push_box_record, <- (assoc_L (++)).
Qed.

(** What [serialiseFromPacked] returns, in one equation. *)
Lemma serialise_unfold p :
  serialiseFromPacked p =
  if too_large p then ProcessExit too_large_message
  else
    let n := Z.of_nat (length (PackedImage.data p)) in
    Normal (JS.ToUint8 <$>
              ((JNum <$> MAGIC)
                 ++ [JNum 0; JNum 1; PackedImage.boxSize p;
                     Size.width (PackedImage.size p); Size.height (PackedImage.size p);
                     JNum (n / 2^16 mod 256); JNum (n / 2^8 mod 256); JNum (n mod 256)]
                 ++ mjoin (box_record <$> PackedImage.data p))).
Proof.
  unfold serialiseFromPacked, too_large.
  destruct (_ || _ || _); [done|]. cbn zeta.
  rewrite fold_push_box.
  rewrite !count_bytes, count_low_byte by (auto; lia).
  rewrite <- !(assoc_L (++)). done.
Qed.

Lemma ToUint8_byte v : is_byte v -> JNum (JS.ToUint8 v) = v.
Proof. destruct v as [| |z]; cbn; try done. intros Hz. by rewrite Z.mod_small. Qed.

Lemma length_mjoin_const {A} (ls : list (list A)) (k : nat) :
  Forall (fun l => length l = k) ls -> length (mjoin ls) = (length ls * k)%nat.
Proof.
  induction 1 as [|l ls Hl _ IH]; [done|].
  change (mjoin (l :: ls)) with (l ++ mjoin ls).
  rewrite length_app, IH, Hl. cbn. lia.
Qed.

End Serialise.

(** ** The serializer over arrays of a capacity *)

Section Capacity.
Context (capacity : Z).

Lemma push_within bytes items :
  Bounded.push capacity bytes items = within capacity (bytes ++ items).
Proof. unfold Bounded.push, within. by rewrite length_app. Qed.

(** A push after a push: the longer array decides. *)
Lemma within_bind {B} (l r : list value) (f : list value -> completion (list value))
    (K : list value -> completion B) :
  (forall bytes, f bytes = within capacity (bytes ++ r)) ->
  (bytes ← within capacity l; bytes' ← f bytes; K bytes')
  = (bytes' ← within capacity (l ++ r); K bytes').
Proof.
  intros Hf. unfold within at 1.
  destruct (Z.leb_spec (Z.of_nat (length l)) capacity) as [Hl|Hl];
    cbn [mbind completion_bind].
  - by rewrite Hf.
  - unfold within. rewrite length_app.
    destruct (Z.leb_spec (Z.of_nat (length l + length r)) capacity); [lia|done].
Qed.

Lemma bind_assoc {A B C} (c : completion A) (f : A -> completion B)
    (g : B -> completion C) :
  (b ← (a ← c; f a); g b) = (a ← c; b ← f a; g b).
Proof. by destruct c. Qed.

Lemma within_ret l :
  (bytes ← within capacity l; Normal bytes) = within capacity l.
Proof. unfold within. by destruct (_ <=? _). Qed.

Lemma within_indices l (pixels : list PackedPixel.t) :
  (bytes ← within capacity l;
   Bounded.for_of pixels
     (fun bytes pixel => Bounded.push capacity bytes [PackedPixel.index pixel]) bytes)
  = within capacity (l ++ (PackedPixel.index <$> pixels)).
Proof.
  revert l. induction pixels as [|pixel pixels IH]; intros l.
  - cbn [Bounded.for_of fmap list_fmap]. by rewrite app_nil_r, within_ret.
  - cbn [Bounded.for_of fmap list_fmap].
    rewrite (within_bind l [PackedPixel.index pixel]) by (intros; apply push_within).
    by rewrite IH, <- (assoc_L (++)).
Qed.

Lemma push_box_within bytes box :
  Bounded.push_box capacity bytes box = within capacity (bytes ++ box_record box).
Proof.
  unfold Bounded.push_box, box_record. rewrite push_within.
  do 7 (erewrite within_bind by (intros; apply push_within)).
  rewrite within_indices, <- !(assoc_L (++)). done.
Qed.

Lemma within_boxes l (data : list PackedBox.t) :
  (bytes ← within capacity l; Bounded.for_of data (Bounded.push_box capacity) bytes)
  = within capacity (l ++ mjoin (box_record <$> data)).
Proof.
  revert l. induction data as [|box data IH]; intros l.
  - cbn [Bounded.for_of fmap list_fmap mjoin list_join]. by rewrite app_nil_r, within_ret.
  - cbn [Bounded.for_of fmap list_fmap].
    change (mjoin (?r :: ?rs)) with (r ++ mjoin rs).
    rewrite (within_bind l (box_record box)) by (intros; apply push_box_within).
    by rewrite IH, <- (assoc_L (++)).
Qed.

Lemma length_serialised p :
  Z.of_nat (length ((JNum <$> MAGIC)
                      ++ [JNum 0; JNum 1; PackedImage.boxSize p;
                          Size.width (PackedImage.size p); Size.height (PackedImage.size p);
                          JNum (Z.of_nat (length (PackedImage.data p)) / 2^16 mod 256);
                          JNum (Z.of_nat (length (PackedImage.data p)) / 2^8 mod 256);
                          JNum (Z.of_nat (length (PackedImage.data p)) mod 256)]
                      ++ mjoin (box_record <$> PackedImage.data p)))
  = serialised_length p.
Proof. unfold serialised_length. rewrite !length_app. cbn [length fmap list_fmap MAGIC]. lia. Qed.

(** What the serializer returns over arrays of a capacity: the message of
    its guard, what [serialiseFromPacked] returns when the output fits, and
    a [RangeError] when it does not. *)
Lemma bounded_serialise p :
  10 <= capacity ->
  Bounded.serialiseFromPacked capacity p
  = if too_large p then ProcessExit too_large_message
    else if serialised_length p <=? capacity then serialiseFromPacked p
         else RangeError.
Proof.
  intros Hc. rewrite serialise_unfold. unfold Bounded.serialiseFromPacked, too_large.
  cbn zeta. rewrite push_within.
  assert (within capacity ([] ++ (JNum <$> MAGIC)) = Normal (JNum <$> MAGIC)) as ->.
  { unfold within. cbn [app length fmap list_fmap MAGIC].
    by destruct (Z.leb_spec (Z.of_nat 8) capacity); [|lia]. }
  cbn [mbind completion_bind]. rewrite push_within.
  assert (within capacity ((JNum <$> MAGIC) ++ [JNum 0; JNum 1])
          = Normal ((JNum <$> MAGIC) ++ [JNum 0; JNum 1])) as ->.
  { unfold within. cbn [app length fmap list_fmap MAGIC].
    by destruct (Z.leb_spec (Z.of_nat 10) capacity); [|lia]. }
  cbn [mbind completion_bind].
  destruct (_ || _ || _); [done|].
  rewrite push_within.
  do 3 (erewrite within_bind by (intros; apply push_within)).
  rewrite <- (bind_assoc _ (Bounded.for_of (PackedImage.data p) (Bounded.push_box capacity))).
  rewrite within_boxes.
  rewrite !count_bytes, count_low_byte by (auto; lia).
  rewrite <- !(assoc_L (++)), <- (length_serialised p).
  cbn zeta. unfold within. cbn [app].
  by destruct (_ <=? _).
Qed.

End Capacity.

Section SerialiseClaims.

Lemma digits_of_count n :
  0 <= n ->
  n / 2^16 mod 256 = n mod 2^24 / 65536
  /\ n / 2^8 mod 256 = n mod 2^24 / 256 mod 256
  /\ n mod 256 = n mod 2^24 mod 256.
Proof.
  intros Hn. change (2^16) with 65536. change (2^8) with 256.
  change (2^24) with 16777216.
  repeat split; Z.div_mod_to_equations; lia.
Qed.

Lemma serialise_returns p :
  too_large p = false -> exists bytes, serialiseFromPacked p = Normal bytes.
Proof. intros H. rewrite serialise_unfold, H. eauto. Qed.



Lemma fmap_mjoin_records (data : list PackedBox.t) :
  JS.ToUint8 <$> mjoin (box_record <$> data)
  = mjoin ((fun box => JS.ToUint8 <$> box_record box) <$> data).
Proof.
  induction data as [|box data IH]; [done|].
  cbn [fmap list_fmap]. change (mjoin (?l :: ?ls)) with (l ++ mjoin ls).
  rewrite fmap_app. f_equal. exact IH.
Qed.

(** Every box takes eight elements of the output at least. *)
Lemma serialised_length_boxes p :
  16 + 8 * Z.of_nat (length (PackedImage.data p)) <= serialised_length p.
Proof.
  unfold serialised_length.
  induction (PackedImage.data p) as [|box data IH]; [cbn; lia|].
  cbn [fmap list_fmap length]. change (mjoin (?l :: ?ls)) with (l ++ mjoin ls).
  rewrite length_app. unfold box_record at 1. rewrite length_app. cbn [length]. lia.
Qed.

Lemma serialised_length_replicate size boxSize n box :
  serialised_length (PackedImage.make size boxSize (replicate n box))
  = 16 + Z.of_nat n * (8 + Z.of_nat (length (PackedBox.data box))).
Proof.
  unfold serialised_length. cbn [PackedImage.data].
  rewrite (length_mjoin_const _ (length (box_record box))).
  - rewrite length_fmap, length_replicate. unfold box_record.
    rewrite length_app, length_fmap. cbn [length]. lia.
  - apply Forall_fmap, Forall_replicate. done.
Qed.

(** C7 (as the code has it): the serializer tests [boxSize], [size.width]
    and [size.height], and nothing else.  When one of them is above 255 it
    ends the process with its message and returns no bytes.  When none is,
    it returns the bytes if the elements it pushes, 16 and for every box 8
    and its entries, fit an array of the engine, and [bytes.push] throws
    [RangeError: Invalid array length] if they do not.  The box count is not
    tested: where the arrays hold fewer than 2^27 + 16 elements, a list of
    2^24 boxes or more is never serialised, because it does not fit. *)
Theorem serialise_overflow capacity p boxSize width height :
  PackedImage.boxSize p = JNum boxSize ->
  PackedImage.size p = Size.make (JNum width) (JNum height) ->
  10 <= capacity ->
  (255 < boxSize \/ 255 < width \/ 255 < height ->
   Bounded.serialiseFromPacked capacity p = ProcessExit too_large_message)
  /\ (boxSize <= 255 -> width <= 255 -> height <= 255 ->
      (serialised_length p <= capacity ->
       exists bytes,
         Bounded.serialiseFromPacked capacity p = Normal bytes
         /\ serialiseFromPacked p = Normal bytes
         /\ Z.of_nat (length bytes) = serialised_length p)
      /\ (capacity < serialised_length p ->
          Bounded.serialiseFromPacked capacity p = RangeError)
      /\ (capacity < 2^27 + 16 -> 2^24 <= Z.of_nat (length (PackedImage.data p)) ->
          Bounded.serialiseFromPacked capacity p = RangeError)).
Proof.
  intros HboxSize Hsize Hc.
  assert (too_large p = (255 <? boxSize) || (255 <? width) || (255 <? height)) as Hguard.
  { unfold too_large. by rewrite HboxSize, Hsize. }
  rewrite bounded_serialise, Hguard by done. split.
  - intros H.
    assert ((255 <? boxSize) || (255 <? width) || (255 <? height) = true) as ->; [|done].
    rewrite !orb_true_iff, !Z.ltb_lt. tauto.
  - intros Hb Hw Hh.
    assert ((255 <? boxSize) || (255 <? width) || (255 <? height) = false) as Hfalse.
    { rewrite !orb_false_iff, !Z.ltb_ge. tauto. }
    rewrite Hfalse. split; [|split].
    + intros Hfits.
      destruct (Z.leb_spec (serialised_length p) capacity); [|lia].
      rewrite serialise_unfold, Hguard, Hfalse. cbn zeta.
      eexists. split; [reflexivity|]. split; [reflexivity|].
      rewrite length_fmap. apply length_serialised.
    + intros Hlong. by destruct (Z.leb_spec (serialised_length p) capacity); [lia|].
    + intros Hcap Hcount. pose proof (serialised_length_boxes p).
      by destruct (Z.leb_spec (serialised_length p) capacity); [lia|].
Qed.

Lemma serialise_overflow_witness :
  Bounded.serialiseFromPacked 100
    (PackedImage.make (Size.make (JNum 256) (JNum 1)) (JNum 2) [])
  = ProcessExit too_large_message
  /\ (exists bytes, Bounded.serialiseFromPacked 100 one_box = Normal bytes
                    /\ serialiseFromPacked one_box = Normal bytes
                    /\ Z.of_nat (length bytes) = 28)
  /\ Bounded.serialiseFromPacked 27 one_box = RangeError.
Proof.
  split; [|split].
  - apply (serialise_overflow 100 _ 2 256 1); [reflexivity | reflexivity | lia | lia].
  - destruct (proj2 (serialise_overflow 100 one_box 2 1 1 eq_refl eq_refl ltac:(lia))
                ltac:(lia) ltac:(lia) ltac:(lia)) as (Hfits & _ & _).
    apply Hfits. vm_compute. discriminate.
  - destruct (proj2 (serialise_overflow 27 one_box 2 1 1 eq_refl eq_refl ltac:(lia))
                ltac:(lia) ltac:(lia) ltac:(lia)) as (_ & Hlong & _).
    apply Hlong. vm_compute. reflexivity.
Defined.

(** C7, as stated, fails: [boxSize], [size.width], [size.height] and the
    count of [2^24 - 1] boxes of one pixel are all in range, and the
    serializer does not return: its output of 150994951 elements fits no
    array of fewer than 2^27 + 16 elements. *)
Lemma serialise_refuses_in_range :
  PackedImage.boxSize full_count = JNum 1
  /\ PackedImage.size full_count = Size.make (JNum 255) (JNum 255)
  /\ Z.of_nat (length (PackedImage.data full_count)) = 2^24 - 1
  /\ serialised_length full_count = 150994951
  /\ forall capacity,
       10 <= capacity < 2^27 + 16 ->
       Bounded.serialiseFromPacked capacity full_count = RangeError.
Proof.
  assert (serialised_length full_count = 150994951) as Hlength.
  { unfold full_count. rewrite serialised_length_replicate.
    cbn [pixel_box PackedBox.data length]. rewrite Z2Nat.id by lia. lia. }
  split; [reflexivity|]. split; [reflexivity|]. split; [|split; [exact Hlength|]].
  - unfold full_count. cbn [PackedImage.data]. rewrite length_replicate, Z2Nat.id by lia.
    lia.
  - intros capacity Hc. rewrite bounded_serialise by lia.
    assert (too_large full_count = false) as -> by reflexivity.
    rewrite Hlength. by destruct (Z.leb_spec 150994951 capacity); [lia|].
Qed.

(** C10 (as the code has it): in the bytes the serializer returns, the three
    bytes at offsets 13-15 are the base-256 digits, most significant first,
    of the number of boxes modulo 2^24, and the records of all the boxes
    follow the header.  A count of 2^24 or more would lose its high bits,
    but where the arrays hold fewer than 2^27 + 16 elements it does not come
    to that: an output that fits has fewer than 2^24 boxes, so the count the
    file declares is the number of its records, and for a list of 2^24 boxes
    or more the serializer returns nothing. *)
Theorem count_field_wraps capacity p :
  10 <= capacity ->
  let boxes := Z.of_nat (length (PackedImage.data p)) in
  let declared := boxes mod 2^24 in
  (too_large p = false -> serialised_length p <= capacity ->
   exists bytes,
     Bounded.serialiseFromPacked capacity p = Normal bytes
     /\ bytes !! 13%nat = Some (declared / 65536)
     /\ bytes !! 14%nat = Some (declared / 256 mod 256)
     /\ bytes !! 15%nat = Some (declared mod 256)
     /\ drop 16 bytes
        = mjoin ((fun box => JS.ToUint8 <$> box_record box) <$> PackedImage.data p))
  /\ (capacity < 2^27 + 16 ->
      (serialised_length p <= capacity -> boxes < 2^24 /\ declared = boxes)
      /\ (2^24 <= boxes ->
          forall bytes, Bounded.serialiseFromPacked capacity p <> Normal bytes)).
Proof.
  intros Hc boxes declared. pose proof (serialised_length_boxes p) as Hlength.
  fold boxes in Hlength. split.
  - intros Hguard Hfits. rewrite bounded_serialise, Hguard by done.
    destruct (Z.leb_spec (serialised_length p) capacity); [|lia].
    rewrite serialise_unfold, Hguard. cbn zeta. fold boxes.
    eexists. split; [reflexivity|].
    destruct (digits_of_count boxes) as (H2 & H1 & H0); [lia|].
    fold declared in H2, H1, H0.
    cbn -[Z.div Z.modulo Z.pow].
    rewrite !Z.mod_mod by lia. rewrite H2, H1, H0.
    repeat split. apply fmap_mjoin_records.
  - intros Hcap. split.
    + intros Hfits. assert (boxes < 2^24) as Hboxes by lia.
      split; [done|]. subst declared. apply Z.mod_small. lia.
    + intros Hboxes bytes. rewrite bounded_serialise by done.
      destruct (too_large p); [done|].
      by destruct (Z.leb_spec (serialised_length p) capacity); [lia|].
Qed.

Lemma count_field_wraps_witness :
  exists bytes,
    Bounded.serialiseFromPacked 100 one_box = Normal bytes
    /\ take 3 (drop 13 bytes) = [0; 0; 1]
    /\ drop 16 bytes = [0; 0; 225; 225; 225; 10; 10; 10; 0; 1; 0; 1].
Proof.
  destruct (proj1 (count_field_wraps 100 one_box ltac:(lia)))
    as (bytes & Hbytes & H13 & H14 & H15 & Hrest);
    [reflexivity | vm_compute; discriminate |].
  exists bytes. split; [exact Hbytes|]. split; [|exact Hrest].
  assert (length bytes = 28%nat) as Hl.
  { pose proof (lookup_lt_Some _ _ _ H15) as Hlt.
    pose proof (f_equal length Hrest) as Hd.
    rewrite length_drop in Hd. cbn in Hd. lia. }
  do 16 (destruct bytes as [|? bytes]; [discriminate Hl|]).
  cbn in H13, H14, H15. injection H13 as ->. injection H14 as ->.
  injection H15 as ->. reflexivity.
Defined.

(** C10, as stated, fails: for the list of 2^24 boxes the count does not
    wrap in any file, since no file is written: the 2^27 + 16 elements of the
    output fit no array of fewer, and [bytes.push] throws. *)
Lemma count_never_wraps :
  2^24 - 1 < Z.of_nat (length (PackedImage.data many_boxes))
  /\ serialised_length many_boxes = 2^27 + 16
  /\ forall capacity,
       10 <= capacity < 2^27 + 16 ->
       Bounded.serialiseFromPacked capacity many_boxes = RangeError.
Proof.
  assert (serialised_length many_boxes = 2^27 + 16) as Hlength.
  { unfold many_boxes. rewrite serialised_length_replicate.
    cbn [empty_box PackedBox.data length]. rewrite Z2Nat.id by lia. lia. }
  split; [|split; [exact Hlength|]].
  - unfold many_boxes. cbn [PackedImage.data].
    rewrite length_replicate, Z2Nat.id by lia. lia.
  - intros capacity Hc. rewrite bounded_serialise by lia.
    assert (too_large many_boxes = false) as -> by reflexivity.
    rewrite Hlength. by destruct (Z.leb_spec (2^27 + 16) capacity); [lia|].
Qed.

End SerialiseClaims.

(** ** The deserializer *)

Section Deserialise.

Lemma count_of_digits n :
  0 <= n < 2^24 ->
  JS.or (JS.or (JS.shl (JNum (n / 2^16 mod 256)) 16) (JS.shl (JNum (n / 2^8 mod 256)) 8))
        (JNum (n mod 256))
  = JNum n.
Proof.
  intros Hn. change (2^24) with 16777216 in Hn.
  change (2^16) with 65536. change (2^8) with 256.
  rewrite count_of_bytes by (apply Z.mod_pos_bound; lia).
  f_equal. Z.div_mod_to_equations. lia.
Qed.

Lemma slice_prefix {A} (l k : list A) (n : Z) :
  Z.of_nat (length l) = n -> JS.slice (l ++ k) (JNum 0) (JNum n) = l.
Proof.
  intros Hn. unfold JS.slice, JS.ToInteger.
  change (Z.to_nat 0) with 0%nat. rewrite Nat.sub_0_r. cbn [drop].
  apply take_app_length'. lia.
Qed.

Lemma slice_from_suffix {A} (l k : list A) (n : Z) :
  Z.of_nat (length l) = n -> JS.slice_from (l ++ k) (JNum n) = k.
Proof.
  intros Hn. unfold JS.slice_from, JS.ToInteger. apply drop_app_length'. lia.
Qed.

Lemma deserialise_stream boxSize width height n records :
  0 <= n < 2^24 ->
  deserialiseIntoPacked (header_bytes boxSize width height n ++ records)
  = Normal (PackedImage.make (Size.make (JNum width) (JNum height)) (JNum boxSize)
              (read_box records (JNum boxSize) (JNum (8 + boxSize * boxSize))
                 <$> (JNum <$> seqZ 0 n))).
Proof.
  intros Hn. unfold deserialiseIntoPacked.
  rewrite (slice_prefix (header_bytes boxSize width height n) records 16) by done.
  rewrite (slice_from_suffix (header_bytes boxSize width height n) records 16) by done.
  rewrite (slice_prefix MAGIC _ 8 eq_refl : JS.slice (header_bytes _ _ _ _) _ _ = MAGIC).
  change (magic_every MAGIC) with true. cbn [negb].
  change (JS.get JNum (header_bytes boxSize width height n) (JNum 10)) with (JNum boxSize).
  change (JS.get JNum (header_bytes boxSize width height n) (JNum 11)) with (JNum width).
  change (JS.get JNum (header_bytes boxSize width height n) (JNum 12)) with (JNum height).
  change (JS.get JNum (header_bytes boxSize width height n) (JNum 13))
    with (JNum (n / 2^16 mod 256)).
  change (JS.get JNum (header_bytes boxSize width height n) (JNum 14))
    with (JNum (n / 2^8 mod 256)).
  change (JS.get JNum (header_bytes boxSize width height n) (JNum 15))
    with (JNum (n mod 256)).
  rewrite count_of_digits by done. done.
Qed.

Lemma read_box_decode rest boxSize i :
  0 <= boxSize -> 0 <= i ->
  read_box rest (JNum boxSize) (JNum (8 + boxSize * boxSize)) (JNum i)
  = decode_record (JNum boxSize)
      (take (Z.to_nat (8 + boxSize * boxSize))
            (drop (Z.to_nat (8 + boxSize * boxSize) * Z.to_nat i) rest)).
Proof.
  intros Hb Hi. unfold read_box, decode_record.
  assert (JS.slice rest (JS.mul (JNum (8 + boxSize * boxSize)) (JNum i))
            (JS.add (JS.mul (JNum (8 + boxSize * boxSize)) (JNum i))
                    (JNum (8 + boxSize * boxSize)))
          = take (Z.to_nat (8 + boxSize * boxSize))
                 (drop (Z.to_nat (8 + boxSize * boxSize) * Z.to_nat i) rest)) as ->; [|done].
  unfold JS.slice. cbn [JS.mul JS.add JS.arith JS.ToInteger]. f_equal; [nia|].
  f_equal. nia.
Qed.

Lemma row_major_flat n :
  0 <= n -> row_major n = (fun k => (JNum (k mod n), JNum (k / n))) <$> seqZ 0 (n * n).
Proof. intros Hn. unfold row_major. by rewrite (grid_flat (fun x y => (JNum x, JNum y))). Qed.

Lemma length_row_major n : 0 <= n -> Z.of_nat (length (row_major n)) = n * n.
Proof. intros Hn. rewrite row_major_flat, length_fmap, length_seqZ by done. nia. Qed.

Lemma decode_pixels boxSize (pixelBytes : list Z) :
  0 <= boxSize ->
  (y ← JS.upto (JNum boxSize);
   x ← JS.upto (JNum boxSize);
   [PackedPixel.make x y (JS.get JNum pixelBytes (JS.add (JS.mul y (JNum boxSize)) x))])
  = (fun k => PackedPixel.make (JNum (k mod boxSize)) (JNum (k / boxSize))
                               (JS.get JNum pixelBytes (JNum k)))
      <$> seqZ 0 (boxSize * boxSize).
Proof.
  intros Hb. cbn [JS.upto].
  rewrite list_fmap_bind.
  erewrite list_bind_ext; [|intros y; cbn [compose]; apply list_fmap_bind|reflexivity].
  cbn [compose JS.mul JS.add JS.arith].
  rewrite (grid_flat (fun x y => PackedPixel.make (JNum x) (JNum y)
                                   (JS.get JNum pixelBytes (JNum (y * boxSize + x)))))
    by done.
  apply list_fmap_ext. intros i k Hk. apply lookup_seqZ in Hk as [-> Hlt].
  do 3 f_equal. destruct (decide (boxSize = 0)) as [->|]; [lia|].
  pose proof (Z.div_mod (0 + Z.of_nat i) boxSize). lia.
Qed.

Lemma get_lookup {A} (inj : A -> value) (l : list A) (i : nat) :
  JS.get inj l (JNum (Z.of_nat i)) = from_option inj JUndefined (l !! i).
Proof.
  unfold JS.get. destruct (Z.ltb_spec (Z.of_nat i) 0); [lia|].
  by rewrite Nat2Z.id.
Qed.




End Deserialise.

Section RoundTrip.

Lemma serialise_bytes p boxSize width height :
  PackedImage.boxSize p = JNum boxSize ->
  PackedImage.size p = Size.make (JNum width) (JNum height) ->
  0 <= boxSize < 256 -> 0 <= width < 256 -> 0 <= height < 256 ->
  serialiseFromPacked p
  = Normal (header_bytes boxSize width height (Z.of_nat (length (PackedImage.data p)))
              ++ mjoin (record_bytes <$> PackedImage.data p)).
Proof.
  intros HboxSize Hsize Hb Hw Hh.
  rewrite serialise_unfold.
  assert (too_large p = false) as ->.
  { unfold too_large. rewrite HboxSize, Hsize. cbn.
    rewrite !orb_false_iff, !Z.ltb_ge. lia. }
  cbn zeta. rewrite HboxSize, Hsize. cbn [Size.width Size.height].
  rewrite fmap_app, fmap_app, fmap_mjoin_records. unfold header_bytes.
  rewrite <- !(assoc_L (++) MAGIC). f_equal. f_equal; try done.
  cbn [fmap list_fmap JS.ToUint8 app].
  rewrite !Z.mod_mod, !(Z.mod_small boxSize), !(Z.mod_small width),
    !(Z.mod_small height) by lia. done.
Qed.







(** The version bytes are not kept: the deserializer accepts any, the
    serializer writes [0, 1]. *)
Lemma roundtrip_resets_version :
  exists p,
    deserialiseIntoPacked
      [99; 115; 113; 47; 113; 105; 109; 103; 0; 2; 1; 0; 0; 0; 0; 0] = Normal p
    /\ serialiseFromPacked p
       = Normal [99; 115; 113; 47; 113; 105; 109; 103; 0; 1; 1; 0; 0; 0; 0; 0].
Proof.
  eexists. split.
  - vm_compute. reflexivity.
  - vm_compute. reflexivity.
Qed.

End RoundTrip.

(** ** The boxifier *)

Section Boxify.

(** A loop that steps by [step > 0] from a multiple of [step] to another
    runs its body once for every multiple in between, given fuel for it. *)
Lemma for_step_multiples {St : Type} (body : value -> St -> option St)
    (f : Z -> St -> St) (step a n : Z) (fuel : nat) (s : St) :
  0 < step -> a <= n -> (Z.to_nat (n - a) <= fuel)%nat ->
  (forall j s, a <= j < n -> body (JNum (j * step)) s = Some (f j s)) ->
  for_step fuel (JNum (a * step)) (JNum (n * step)) (JNum step) body s
  = Some (fold_left (fun s j => f j s) (seqZ a (n - a)) s).
Proof.
  intros Hstep Han Hfuel Hbody.
  remember (Z.to_nat (n - a)) as m eqn:Hm.
  revert a fuel s Han Hfuel Hbody Hm.
  induction m as [|m IH]; intros a fuel s Han Hfuel Hbody Hm.
  - assert (a = n) as -> by lia. rewrite Z.sub_diag.
    destruct fuel; cbn; by rewrite Z.ltb_irrefl.
  - destruct fuel as [|fuel]; [lia|].
    cbn [for_step JS.lt].
    destruct (Z.ltb_spec (a * step) (n * step)) as [_|Hge]; [|nia].
    rewrite Hbody by lia.
    rewrite seqZ_cons by lia. cbn [fold_left JS.add JS.arith].
    replace (a * step + step) with (Z.succ a * step) by lia.
    rewrite (IH (Z.succ a) fuel); try lia.
    + by replace (Z.pred (n - a)) with (n - Z.succ a) by lia.
    + intros j s' Hj. apply Hbody. lia.
Qed.

Lemma fold_left_append {A B} (g : A -> B) (l : list A) (acc : list B) :
  fold_left (fun acc a => acc ++ [g a]) l acc = acc ++ (g <$> l).
Proof. apply fold_left_push. Qed.

Lemma fold_left_append_lists {A B} (g : A -> list B) (l : list A) (acc : list B) :
  fold_left (fun acc a => acc ++ g a) l acc = acc ++ (l ≫= g).
Proof.
  revert acc. induction l as [|a l IH]; intros acc; cbn.
  - by rewrite app_nil_r.
  - by rewrite IH, <- (assoc_L (++)).
Qed.

Lemma bind_unit_fmap {A B} (g : A -> B) (l : list A) : (a ← l; [g a]) = g <$> l.
Proof. induction l as [|a l IH]; [done|]. by rewrite fmap_cons, bind_cons, IH. Qed.

(** The dividend of every division of [boxify] is a multiple of the divisor. *)
Lemma rem_div_exact a b : b <> 0 -> (a - Z.rem a b) = b * Z.quot a b.
Proof. intros Hb. pose proof (Z.quot_rem a b Hb). lia. Qed.

(** What [boxify] returns for a positive box size, in one equation. *)
Lemma boxify_grid image width height boxSize fuel :
  Image.width image = JNum width -> Image.height image = JNum height ->
  0 <= width -> 0 <= height -> 0 < boxSize ->
  (Z.to_nat (width / boxSize) <= fuel)%nat ->
  (Z.to_nat (height / boxSize) <= fuel)%nat ->
  boxify fuel image (JNum boxSize)
  = Some (BoxedImage.make
            (Size.make (JNum (width / boxSize)) (JNum (height / boxSize)))
            (JNum boxSize)
            (y ← seqZ 0 (height / boxSize);
             x ← seqZ 0 (width / boxSize);
             [box_at image boxSize x y])).
Proof.
  intros Hwidth Hheight Hw Hh Hb Hfw Hfh.
  unfold boxify. rewrite Hwidth, Hheight.
  cbn [JS.rem JS.sub JS.arith Size.width Size.height].
  destruct (Z.eqb_spec boxSize 0) as [|_]; [lia|].
  rewrite !rem_div_exact, !Z.quot_div_nonneg by lia.
  set (W := width / boxSize). set (H := height / boxSize).
  assert (0 <= W) by (apply Z.div_pos; lia).
  assert (0 <= H) by (apply Z.div_pos; lia).
  rewrite !(Z.mul_comm boxSize).
  change (JNum 0) with (JNum (0 * boxSize)).
  erewrite (for_step_multiples _
              (fun y data => data ++ (x ← seqZ 0 W; [box_at image boxSize x y])));
    [| lia | lia | lia |].
  - cbn [mbind option_bind JS.div]. destruct (Z.eqb_spec boxSize 0) as [|_]; [lia|].
    rewrite !Z.quot_mul by lia. rewrite Z.sub_0_r.
    rewrite (fold_left_append_lists (fun y => x ← seqZ 0 W; [box_at image boxSize x y])).
    done.
  - intros y data Hy.
    erewrite (for_step_multiples _ (fun x data => data ++ [box_at image boxSize x y]));
      [| lia | lia | lia |].
    + rewrite Z.sub_0_r, (fold_left_append (fun x => box_at image boxSize x y)).
      by rewrite bind_unit_fmap.
    + intros x data' Hx. unfold box_at. cbn [JS.div].
      destruct (Z.eqb_spec boxSize 0) as [|_]; [lia|].
      by rewrite !Z.quot_mul by lia.
Qed.

Lemma fmap_bind {A B C} (f : B -> C) (g : A -> list B) (l : list A) :
  f <$> (l ≫= g) = l ≫= (fun a => f <$> g a).
Proof. induction l as [|a l IH]; [done|]. by rewrite !bind_cons, fmap_app, IH. Qed.

Lemma box_pixels_row_major image imageData boxSize xStart yStart :
  (fun pixel => (Pixel.x pixel, Pixel.y pixel))
    <$> box_pixels image imageData (JNum boxSize) xStart yStart
  = row_major boxSize.
Proof.
  unfold box_pixels, row_major. cbn [JS.upto].
  rewrite fmap_bind, list_fmap_bind.
  apply list_bind_ext; [|done]. intros y. cbn [compose].
  rewrite fmap_bind, list_fmap_bind.
  by apply list_bind_ext.
Qed.

Lemma length_grid w h : 0 <= w -> 0 <= h -> Z.of_nat (length (grid w h)) = w * h.
Proof.
  intros Hw Hh. unfold grid.
  rewrite (grid_flat (fun x y => (JNum x, JNum y))), length_fmap, length_seqZ by done.
  nia.
Qed.

(** C6: for an image of width [w] and height [h] and a positive [boxSize],
    [boxify] (given fuel for its two outer loops) returns
    [size.width = floor (w / boxSize)], [size.height = floor (h / boxSize)]
    and [size.width * size.height] boxes, whose grid coordinates run over the
    grid row by row and whose pixels run over the local coordinates of a box
    row by row. *)
Theorem boxify_dimensions image width height boxSize fuel :
  Image.width image = JNum width -> Image.height image = JNum height ->
  0 <= width -> 0 <= height -> 0 < boxSize ->
  (Z.to_nat (width / boxSize) <= fuel)%nat ->
  (Z.to_nat (height / boxSize) <= fuel)%nat ->
  exists boxed,
    boxify fuel image (JNum boxSize) = Some boxed
    /\ BoxedImage.size boxed = Size.make (JNum (width / boxSize)) (JNum (height / boxSize))
    /\ BoxedImage.boxSize boxed = JNum boxSize
    /\ Z.of_nat (length (BoxedImage.data boxed)) = (width / boxSize) * (height / boxSize)
    /\ (fun box => (Box.x box, Box.y box)) <$> BoxedImage.data boxed
       = grid (width / boxSize) (height / boxSize)
    /\ Forall (fun box => (fun pixel => (Pixel.x pixel, Pixel.y pixel)) <$> Box.data box
                          = row_major boxSize)
              (BoxedImage.data boxed).
Proof.
  intros Hwidth Hheight Hw Hh Hb Hfw Hfh.
  eexists. split; [by eapply boxify_grid|].
  cbn [BoxedImage.size BoxedImage.boxSize BoxedImage.data].
  set (W := width / boxSize). set (H := height / boxSize).
  assert (0 <= W) by (apply Z.div_pos; lia).
  assert (0 <= H) by (apply Z.div_pos; lia).
  assert ((fun box => (Box.x box, Box.y box))
            <$> (y ← seqZ 0 H; x ← seqZ 0 W; [box_at image boxSize x y])
          = grid W H) as Hgrid.
  { unfold grid. rewrite fmap_bind.
    apply list_bind_ext; [|done]. intros y.
    rewrite fmap_bind. by apply list_bind_ext. }
  split; [done|]. split; [done|]. split; [|split; [done|]].
  - rewrite <- length_grid, <- Hgrid, length_fmap by done. done.
  - apply Forall_forall. intros box Hbox.
    apply list_elem_of_bind in Hbox as (y & Hbox & _).
    apply list_elem_of_bind in Hbox as (x & Hbox & _).
    apply list_elem_of_singleton in Hbox as ->.
    apply box_pixels_row_major.
Qed.

Lemma boxify_dimensions_witness :
  exists boxed,
    boxify 2 four_pixels (JNum 1) = Some boxed
    /\ BoxedImage.size boxed = Size.make (JNum 2) (JNum 2)
    /\ length (BoxedImage.data boxed) = 4%nat.
Proof.
  destruct (boxify_dimensions four_pixels 2 2 1 2)
    as (boxed & Hboxed & Hsize & _ & Hcount & _);
    [reflexivity | reflexivity | lia | lia | lia | vm_compute; lia | vm_compute; lia |].
  exists boxed. split; [exact Hboxed|]. split; [exact Hsize|].
  change (2 / 1) with 2 in Hcount. lia.
Defined.

Lemma get_byte (bytes : list Z) k :
  Forall (fun b => 0 <= b < 256) bytes -> 0 <= k < Z.of_nat (length bytes) ->
  is_byte (JS.get id (JNum <$> bytes) (JNum k)).
Proof.
  intros Hbytes Hk. rewrite <- (Z2Nat.id k) by lia.
  rewrite get_lookup, list_lookup_fmap.
  destruct (lookup_lt_is_Some_2 bytes (Z.to_nat k) ltac:(lia)) as [b Hb].
  rewrite Hb. cbn. by eapply (Forall_lookup_1 _ _ _ _ Hbytes).
Qed.

(** The boxes of an image whose buffer holds four bytes per pixel: every
    colour component of every pixel is a byte, and every box has
    [boxSize * boxSize] pixels. *)
Lemma boxify_byte_pixels image width height boxSize fuel (bytes : list Z) :
  Image.width image = JNum width -> Image.height image = JNum height ->
  Image.data image = JNum <$> bytes ->
  Forall (fun b => 0 <= b < 256) bytes ->
  Z.of_nat (length bytes) = width * height * 4 ->
  0 <= width -> 0 <= height -> 0 < boxSize ->
  (Z.to_nat (width / boxSize) <= fuel)%nat ->
  (Z.to_nat (height / boxSize) <= fuel)%nat ->
  exists boxed,
    boxify fuel image (JNum boxSize) = Some boxed
    /\ Forall (fun box => Forall byte_pixel (Box.data box)
                          /\ Z.of_nat (length (Box.data box)) = boxSize * boxSize)
              (BoxedImage.data boxed).
Proof.
  intros Hwidth Hheight Hdata Hbytes Hlen Hw Hh Hb Hfw Hfh.
  eexists. split; [by eapply boxify_grid|]. cbn [BoxedImage.data].
  pose proof (Z.mul_div_le width boxSize Hb) as HW.
  pose proof (Z.mul_div_le height boxSize Hb) as HH.
  apply Forall_bind, Forall_seqZ. intros y Hy.
  apply Forall_bind, Forall_seqZ. intros x Hx.
  apply Forall_singleton. split.
  - unfold box_at, box_pixels. cbn [Box.data JS.upto]. rewrite Hwidth, Hdata.
    apply Forall_bind, Forall_fmap, Forall_seqZ. intros ly Hly.
    apply Forall_bind, Forall_fmap, Forall_seqZ. intros lx Hlx.
    apply Forall_singleton. unfold byte_pixel, byte_color.
    cbn [compose Pixel.color Color.r Color.g Color.b JS.add JS.mul JS.arith].
    assert (0 <= y * boxSize + ly <= height - 1) as HY by nia.
    assert (0 <= x * boxSize + lx <= width - 1) as HX by nia.
    rewrite !Z.add_0_l in *.
    generalize dependent (y * boxSize + ly). intros Y HY.
    generalize dependent (x * boxSize + lx). intros X HX.
    assert (0 <= Y * width + X <= height * width - 1) by nia.
    repeat split; apply get_byte; try done; lia.
  - pose proof (box_pixels_row_major image (Image.data image) boxSize
                  (JNum (x * boxSize)) (JNum (y * boxSize))) as Hrows.
    apply (f_equal length) in Hrows. rewrite length_fmap in Hrows.
    unfold box_at. cbn [Box.data]. rewrite Hrows. apply length_row_major. lia.
Qed.

End Boxify.

Section BoxSize.

Lemma serialise_message p message :
  serialiseFromPacked p = ProcessExit message -> message = too_large_message.
Proof.
  rewrite serialise_unfold. destruct (too_large p); [|discriminate].
  by intros [= <-].
Qed.

(** C8 (as the code has it): no function validates the sign of the box
    size.  [compress] ends the process with "no box size parameter provided"
    exactly when the box size is [0], [NaN] or missing, before [boxify] is
    called; [boxify] has no failure of its own, and for every positive box
    size and every image (given fuel for its loops) it returns a boxed
    image. *)
Theorem box_size_check fuel image boxSize :
  (compress fuel image boxSize = Some (ProcessExit no_box_size_message)
   <-> boxSize = JNum 0 \/ boxSize = JNaN \/ boxSize = JUndefined)
  /\ (forall n width height,
        boxSize = JNum n -> 0 < n ->
        Image.width image = JNum width -> Image.height image = JNum height ->
        0 <= width -> 0 <= height ->
        (Z.to_nat (width / n) <= fuel)%nat -> (Z.to_nat (height / n) <= fuel)%nat ->
        exists boxed, boxify fuel image boxSize = Some boxed).
Proof.
  split; [split|].
  - unfold compress. destruct boxSize as [| |n]; cbn [JS.not]; [by auto..|].
    destruct (Z.eqb_spec n 0) as [->|Hn]; [by auto|].
    destruct (boxify fuel image (JNum n)) as [boxes|]; [|discriminate].
    cbn [mbind option_bind]. intros [= Hexit].
    apply serialise_message in Hexit. discriminate Hexit.
  - unfold compress. by intros [->|[->| ->]].
  - intros n width height -> Hn Hwidth Hheight Hw Hh Hfw Hfh.
    eexists. by eapply boxify_grid.
Qed.

Lemma box_size_check_witness :
  compress 2 four_pixels (JNum 0) = Some (ProcessExit no_box_size_message)
  /\ exists boxed, boxify 2 four_pixels (JNum 1) = Some boxed.
Proof.
  split.
  - apply (proj1 (box_size_check 2 four_pixels (JNum 0))). by left.
  - apply (proj2 (box_size_check 2 four_pixels (JNum 1)) 1 2 2);
      [reflexivity | lia | reflexivity | reflexivity | lia | lia
      | vm_compute; lia | vm_compute; lia].
Defined.

(** C8, as stated, fails: with the box size [-2] and a 1 x 1 image, [boxify]
    returns a boxed image (an empty grid) and [compress] writes a file; the
    box size [0] makes [boxify] itself return as well. *)
Lemma negative_box_size_accepted :
  boxify 0 one_pixel (JNum (-2))
  = Some (BoxedImage.make (Size.make (JNum 0) (JNum 0)) (JNum (-2)) [])
  /\ compress 0 one_pixel (JNum (-2))
     = Some (Normal [99; 115; 113; 47; 113; 105; 109; 103; 0; 1; 254; 0; 0; 0; 0; 0])
  /\ boxify 0 one_pixel (JNum 0)
     = Some (BoxedImage.make (Size.make JNaN JNaN) (JNum 0) []).
Proof. split; [|split]; vm_compute; reflexivity. Qed.

End BoxSize.

(** ** The unpacker *)

Section ArrayWrites.

Lemma get_set_eq a i v : 0 <= i -> JS.get id (JS.set a (JNum i) v) (JNum i) = v.
Proof.
  intros Hi. unfold JS.get, JS.set.
  destruct (Z.ltb_spec i 0) as [|_]; [lia|].
  destruct (Z.ltb_spec i (Z.of_nat (length a))) as [Hlt|Hge].
  - by rewrite list_lookup_insert_eq by lia.
  - rewrite lookup_app_r by lia.
    rewrite lookup_app_r by (rewrite length_replicate; lia).
    rewrite length_replicate.
    by replace (Z.to_nat i - length a - (Z.to_nat i - length a))%nat with 0%nat by lia.
Qed.

Lemma get_set_ne a k v j : k <> JNum j -> JS.get id (JS.set a k v) (JNum j) = JS.get id a (JNum j).
Proof.
  intros Hk. unfold JS.get, JS.set.
  destruct k as [| |i]; [done..|].
  destruct (Z.ltb_spec i 0) as [|Hi]; [done|].
  destruct (Z.ltb_spec j 0) as [|Hj]; [done|].
  assert (Z.to_nat i <> Z.to_nat j) as Hne by (intros E; apply Hk; f_equal; lia).
  destruct (Z.ltb_spec i (Z.of_nat (length a))) as [Hlt|Hge].
  - by rewrite list_lookup_insert_ne.
  - destruct (decide (Z.to_nat j < length a)%nat) as [Hin|Hout].
    + by rewrite lookup_app_l.
    + rewrite lookup_app_r, (lookup_ge_None_2 a) by lia.
      destruct (decide (Z.to_nat j < Z.to_nat i)%nat).
      * rewrite lookup_app_l by (rewrite length_replicate; lia).
        by rewrite lookup_replicate_2 by lia.
      * rewrite lookup_app_r by (rewrite length_replicate; lia).
        rewrite length_replicate.
        by rewrite lookup_ge_None_2 by (cbn; lia).
Qed.

Lemma length_set a i v :
  0 <= i -> length (JS.set a (JNum i) v) = Nat.max (length a) (Z.to_nat i + 1).
Proof.
  intros Hi. unfold JS.set.
  destruct (Z.ltb_spec i 0) as [|_]; [lia|].
  destruct (Z.ltb_spec i (Z.of_nat (length a))).
  - rewrite length_insert. lia.
  - rewrite !length_app, length_replicate. cbn. lia.
Qed.

Lemma set_not_index a k v :
  (forall i, k = JNum i -> i < 0) -> JS.set a k v = a.
Proof.
  intros Hk. destruct k as [| |i]; [done..|]. cbn.
  by destruct (Z.ltb_spec i 0) as [|Hi]; [|specialize (Hk i eq_refl); lia].
Qed.

(** Two arrays of one length that read the same everywhere are equal. *)
Lemma array_eq (a b : list value) :
  length a = length b ->
  (forall j, 0 <= j -> JS.get id a (JNum j) = JS.get id b (JNum j)) -> a = b.
Proof.
  intros Hlen Hget. apply list_eq. intros i.
  specialize (Hget (Z.of_nat i) ltac:(lia)). rewrite !get_lookup in Hget.
  destruct (decide (i < length a)%nat) as [Hi|Hi].
  - destruct (lookup_lt_is_Some_2 a i Hi) as [x Hx].
    destruct (lookup_lt_is_Some_2 b i ltac:(lia)) as [y Hy].
    rewrite Hx, Hy in *. cbn in Hget. by subst.
  - by rewrite !lookup_ge_None_2 by lia.
Qed.

End ArrayWrites.

Section Unpack.
Context (width boxSize : value).

Lemma fold_boxes_entries data a :
  fold_left (write_box width boxSize) data a
  = fold_left (write_entry width boxSize) (entries data) a.
Proof.
  unfold entries. revert a. induction data as [|box data IH]; intros a; [done|].
  rewrite bind_cons, fold_left_app. cbn [fold_left]. rewrite IH. f_equal.
  unfold write_box. generalize (PackedBox.data box) as pixels. clear.
  intros pixels. revert a. induction pixels as [|pixel pixels IH]; intros a; [done|].
  rewrite bind_cons. cbn [app fold_left]. by rewrite IH.
Qed.

Lemma target_cases e :
  target width boxSize e = JNaN \/ exists m, target width boxSize e = JNum (m * 4).
Proof.
  unfold target.
  destruct (JS.add (JS.mul width (absolute_y boxSize e)) (absolute_x boxSize e));
    cbn; eauto.
Qed.

Lemma write_entry_sets a e :
  write_entry width boxSize a e
  = let o := target width boxSize e in
    let c := entry_color e in
    JS.set (JS.set (JS.set (JS.set a o (Color.r c)) (JS.add o (JNum 1)) (Color.g c))
                   (JS.add o (JNum 2)) (Color.b c))
           (JS.add o (JNum 3)) (JNum 255).
Proof. done. Qed.

(** The pixel at a non-negative offset [o], a multiple of 4, after the write
    of one entry. *)
Lemma read_after_write a e o :
  0 <= o -> o mod 4 = 0 ->
  pixel_read (write_entry width boxSize a e) o
  = if decide (target width boxSize e = JNum o) then opaque (entry_color e)
    else pixel_read a o.
Proof.
  intros Ho Hmod. rewrite write_entry_sets. cbn zeta.
  assert (exists q, o = q * 4) as [q ->].
  { exists (o / 4). pose proof (Z.div_mod o 4). lia. }
  destruct (target_cases e) as [->|[m ->]].
  - done.
  - cbn [JS.add JS.arith]. unfold pixel_read, opaque.
    destruct (decide (JNum (m * 4) = JNum (q * 4))) as [Heq|Hne].
    + assert (m = q) as -> by (injection Heq; lia).
      repeat f_equal;
        repeat (rewrite get_set_ne by (intros [=]; lia));
        apply get_set_eq; lia.
    + assert (m <> q) by (intros ->; done).
      by repeat (rewrite get_set_ne by (intros [=]; lia)).
Qed.

Lemma read_after_writes es a o :
  0 <= o -> o mod 4 = 0 ->
  pixel_read (fold_left (write_entry width boxSize) es a) o
  = match last (filter (fun e => target width boxSize e = JNum o) es) with
    | Some e => opaque (entry_color e)
    | None => pixel_read a o
    end.
Proof.
  intros Ho Hmod. revert a. induction es as [|e es IH]; intros a; [done|].
  cbn [fold_left]. rewrite IH, filter_cons, read_after_write by done.
  destruct (decide (target width boxSize e = JNum o)) as [He|He]; [|done].
  rewrite last_cons. by destruct (last _).
Qed.

Lemma length_write_entry a e :
  length (write_entry width boxSize a e) = Nat.max (length a) (reach width boxSize e).
Proof.
  rewrite write_entry_sets. cbn zeta. unfold reach.
  destruct (target_cases e) as [->|[m ->]]; [cbn; lia|].
  cbn [JS.add JS.arith].
  destruct (Z.ltb_spec (m * 4) 0) as [Hneg|Hpos].
  - rewrite !set_not_index by (intros i [=]; lia). lia.
  - rewrite !length_set by lia. lia.
Qed.

Lemma length_writes es a :
  length (fold_left (write_entry width boxSize) es a)
  = Nat.max (length a) (max_list_with (reach width boxSize) es).
Proof.
  revert a. induction es as [|e es IH]; intros a; cbn [fold_left max_list_with].
  - lia.
  - rewrite IH, length_write_entry. lia.
Qed.

End Unpack.

Section Reconstruction.

Lemma length_full_alpha a : length (full_alpha a) = length a.
Proof. unfold full_alpha. by rewrite length_imap, length_fmap. Qed.

Lemma get_full_alpha a j :
  0 <= j ->
  JS.get id (full_alpha a) (JNum j)
  = if j <? Z.of_nat (length a) then (if j mod 4 =? 3 then JNum 255 else JNum 0)
    else JUndefined.
Proof.
  intros Hj. rewrite <- (Z2Nat.id j) at 1 by done. rewrite get_lookup.
  unfold full_alpha. rewrite list_lookup_imap, list_lookup_fmap.
  destruct (Z.ltb_spec j (Z.of_nat (length a))) as [Hlt|Hge].
  - destruct (lookup_lt_is_Some_2 a (Z.to_nat j) ltac:(lia)) as [x ->].
    cbn. by rewrite Z2Nat.id.
  - by rewrite lookup_ge_None_2 by lia.
Qed.

Lemma pixel_read_full_alpha a o :
  0 <= o -> o mod 4 = 0 -> Z.of_nat (length a) mod 4 = 0 ->
  pixel_read (full_alpha a) o
  = if o <? Z.of_nat (length a) then [JNum 0; JNum 0; JNum 0; JNum 255]
    else replicate 4 JUndefined.
Proof.
  intros Ho Hmod Hlen. unfold pixel_read.
  rewrite !get_full_alpha by lia.
  pose proof (Z.div_mod o 4). pose proof (Z.div_mod (Z.of_nat (length a)) 4).
  assert ((o + 1) mod 4 = 1 /\ (o + 2) mod 4 = 2 /\ (o + 3) mod 4 = 3) as (-> & -> & ->).
  { clear -Hmod. repeat split; Z.div_mod_to_equations; lia. }
  rewrite Hmod.
  destruct (Z.ltb_spec o (Z.of_nat (length a))).
  - by rewrite !(proj2 (Z.ltb_lt _ _)) by lia.
  - by rewrite !(proj2 (Z.ltb_ge _ _)) by lia.
Qed.

Lemma filter_unique {A B} `{EqDecision B} (f : A -> B) (y : B) (l : list A) :
  NoDup (f <$> l) -> (length (filter (fun x => f x = y) l) <= 1)%nat.
Proof.
  induction l as [|x l IH]; [cbn; lia|].
  rewrite fmap_cons, NoDup_cons. intros [Hx Hl]. rewrite filter_cons.
  destruct (decide (f x = y)) as [<-|]; [|by apply IH].
  assert (filter (fun x0 => f x0 = f x) l = []) as ->; [|cbn; lia].
  destruct (filter _ l) as [|z zs] eqn:E; [done|]. exfalso. apply Hx.
  assert (z ∈ filter (fun x0 => f x0 = f x) l) as Hz by (rewrite E; left).
  apply list_elem_of_filter in Hz as [<- Hz]. by apply list_elem_of_fmap_2.
Qed.

Lemma Permutation_short {A} (l l' : list A) : l ≡ₚ l' -> (length l <= 1)%nat -> l = l'.
Proof.
  intros Hp Hl. destruct l as [|x [|? ?]]; [| |cbn in Hl; lia].
  - by apply Permutation_nil_l.
  - by apply Permutation_singleton_l.
Qed.

Lemma entries_Permutation data data' : data' ≡ₚ data -> entries data' ≡ₚ entries data.
Proof. intros Hp. unfold entries. by rewrite Hp. Qed.

(** With pairwise distinct offsets the order of the writes does not matter. *)
Lemma writes_Permutation width boxSize es es' a :
  es' ≡ₚ es -> NoDup (target width boxSize <$> es) ->
  fold_left (write_entry width boxSize) es' a = fold_left (write_entry width boxSize) es a.
Proof.
  intros Hp Hnodup. apply array_eq.
  - by rewrite !length_writes, Hp.
  - intros j Hj.
    assert (pixel_read (fold_left (write_entry width boxSize) es' a) (j / 4 * 4)
            = pixel_read (fold_left (write_entry width boxSize) es a) (j / 4 * 4)) as Hread.
    { pose proof (Z.div_mod j 4). pose proof (Z.mod_pos_bound j 4).
      rewrite !read_after_writes by (try apply Z_mod_mult; lia).
      rewrite (Permutation_short
                 (filter (fun e => target width boxSize e = JNum (j / 4 * 4)) es')
                 (filter (fun e => target width boxSize e = JNum (j / 4 * 4)) es)); [done| |].
      - by rewrite Hp.
      - rewrite Hp. by apply filter_unique. }
    unfold pixel_read in Hread. injection Hread as H0 H1 H2 H3.
    pose proof (Z.div_mod j 4). pose proof (Z.mod_pos_bound j 4).
    assert (j = j / 4 * 4 \/ j = j / 4 * 4 + 1 \/ j = j / 4 * 4 + 2 \/ j = j / 4 * 4 + 3)
      as [E|[E|[E|E]]] by lia; rewrite E; assumption.
Qed.

End Reconstruction.

Section UnpackClaims.

Lemma unpack_unfold p width height boxSize :
  PackedImage.size p = Size.make (JNum width) (JNum height) ->
  PackedImage.boxSize p = JNum boxSize ->
  0 <= width * boxSize * (height * boxSize) * 4 < 2^32 ->
  unpack p
  = Normal (Image.make (JNum (width * boxSize)) (JNum (height * boxSize))
              (fold_left (write_entry (JNum (width * boxSize)) (JNum boxSize))
                 (entries (PackedImage.data p))
                 (full_alpha (replicate
                    (Z.to_nat (width * boxSize * (height * boxSize) * 4)) JUndefined)))).
Proof.
  intros Hsize HboxSize Hn. unfold unpack. rewrite Hsize, HboxSize.
  cbn [Size.width Size.height JS.mul JS.arith new_Array].
  destruct (Z.leb_spec 0 (width * boxSize * (height * boxSize) * 4)); [|lia].
  destruct (Z.ltb_spec (width * boxSize * (height * boxSize) * 4) (2^32)); [|lia].
  cbn [andb]. by rewrite fold_boxes_entries.
Qed.

(** C3 (as the code has it): for a packed image whose [size] and [boxSize]
    are non-negative integers with a pixel buffer of
    [4 * (size.width * boxSize) * (size.height * boxSize)] elements, 2^24 at
    most, [unpack] returns an image of [size.width * boxSize] by
    [size.height * boxSize] pixels.  (Whether a longer buffer is allocated
    depends on the memory of the engine, up to 2^32 elements, where
    [new Array] throws.)  The pixel at an offset of the buffer holds the
    colour of the last entry written there, with alpha 255: the [dark]
    colour of its box if its index is 0, the [light] colour otherwise; the
    offset of an entry is four times
    [width * (box.y * boxSize + localY) + (box.x * boxSize + localX)], a
    function of the box and the pixel alone.  A pixel no entry is written to
    holds RGB = 0 and alpha 255.  The buffer has as many elements as the
    image has channels when every entry lands inside it, and when no two
    entries share an offset the result is the same for every order of the
    boxes. *)
Theorem unpack_reconstructs p width height boxSize :
  PackedImage.size p = Size.make (JNum width) (JNum height) ->
  PackedImage.boxSize p = JNum boxSize ->
  0 <= width -> 0 <= height -> 0 <= boxSize ->
  width * boxSize * (height * boxSize) * 4 <= 2^24 ->
  let W := JNum (width * boxSize) in
  let channels := width * boxSize * (height * boxSize) * 4 in
  exists imageData,
    unpack p = Normal (Image.make W (JNum (height * boxSize)) imageData)
    /\ (forall o, 0 <= o -> o mod 4 = 0 ->
        pixel_read imageData o
        = match last_entry W (JNum boxSize) (PackedImage.data p) o with
          | Some e => opaque (entry_color e)
          | None => if o <? channels then [JNum 0; JNum 0; JNum 0; JNum 255]
                    else replicate 4 JUndefined
          end)
    /\ (forall e, e ∈ entries (PackedImage.data p) ->
        target W (JNum boxSize) e
        = JS.mul (JS.add (JS.mul W (JS.add (JS.mul (PackedBox.y (fst e)) (JNum boxSize))
                                           (PackedPixel.y (snd e))))
                         (JS.add (JS.mul (PackedBox.x (fst e)) (JNum boxSize))
                                 (PackedPixel.x (snd e))))
                 (JNum 4)
        /\ (entry_color e = PackedBox.dark (fst e)
            \/ entry_color e = PackedBox.light (fst e))
        /\ (PackedPixel.index (snd e) = JNum 0 -> entry_color e = PackedBox.dark (fst e))
        /\ (PackedPixel.index (snd e) <> JNum 0 -> entry_color e = PackedBox.light (fst e)))
    /\ (Forall (fun e => forall o, target W (JNum boxSize) e = JNum o -> o < channels)
               (entries (PackedImage.data p)) ->
        Z.of_nat (length imageData) = channels)
    /\ (forall data',
        data' ≡ₚ PackedImage.data p ->
        NoDup (target W (JNum boxSize) <$> entries (PackedImage.data p)) ->
        unpack (PackedImage.make (PackedImage.size p) (PackedImage.boxSize p) data')
        = unpack p).
Proof.
  intros Hsize HboxSize Hw Hh Hb Hsmall W channels.
  assert (width * boxSize * (height * boxSize) * 4 < 2^32) as Hn by lia.
  assert (0 <= channels < 2^32) as Hchannels by (subst channels; nia).
  eexists. split; [by apply unpack_unfold|]. split; [|split; [|split]].
  - intros o Ho Hmod. unfold last_entry.
    rewrite read_after_writes by done.
    destruct (last _); [done|].
    rewrite pixel_read_full_alpha; rewrite ?length_replicate, ?Z2Nat.id; try lia.
    + done.
    + subst channels. by rewrite Z_mod_mult.
  - intros e _. split; [done|]. unfold entry_color.
    destruct (PackedPixel.index (snd e)) as [| |i]; cbn [JS.eq];
      [by repeat split; auto..|].
    destruct (Z.eqb_spec i 0) as [->|Hi]; repeat split; auto; try done.
    intros [=]. done.
  - intros Hin. rewrite length_writes, length_full_alpha, length_replicate.
    fold W channels.
    assert (max_list_with (reach W (JNum boxSize)) (entries (PackedImage.data p))
            <= Z.to_nat channels)%nat as Hmax; [|clearbody channels; lia].
    assert (channels mod 4 = 0) as Hmod by (subst channels; apply Z_mod_mult).
    clearbody channels W.
    induction Hin as [|e es He _ IH]; cbn [max_list_with]; [lia|].
    apply Nat.max_lub; [|done]. unfold reach.
    destruct (target_cases W (JNum boxSize) e) as [->|[m Hm]]; [lia|].
    rewrite Hm. specialize (He _ Hm).
    destruct (Z.ltb_spec (m * 4) 0); [lia|].
    pose proof (Z.div_mod channels 4). lia.
  - intros data' Hp Hnodup.
    rewrite (unpack_unfold _ width height boxSize), (unpack_unfold p width height boxSize)
      by done.
    cbn [PackedImage.data]. do 2 f_equal.
    apply writes_Permutation; [by apply entries_Permutation|done].
Qed.

Lemma unpack_reconstructs_witness :
  exists imageData,
    unpack one_box = Normal (Image.make (JNum 2) (JNum 2) imageData)
    /\ pixel_read imageData 4 = [JNum 225; JNum 225; JNum 225; JNum 255]
    /\ length imageData = 16%nat.
Proof.
  destruct (unpack_reconstructs one_box 1 1 2)
    as (imageData & Hunpack & Hread & _ & Hlength & _);
    [reflexivity | reflexivity | lia | lia | lia | lia |].
  exists imageData. split; [exact Hunpack|]. split.
  - exact (Hread 4 ltac:(lia) eq_refl).
  - assert (Z.of_nat (length imageData) = 16) as Hl; [|lia].
    apply Hlength. repeat constructor; intros o [= <-]; vm_compute; reflexivity.
Defined.

(** C3, as stated, fails: a packed image of 255 x 255 boxes of edge 255 has
    every field in the range of a byte, and [unpack] throws a [RangeError]
    where it allocates the pixel buffer instead of returning an image. *)
Lemma unpack_huge_image : unpack huge_image = RangeError.
Proof. vm_compute. reflexivity. Qed.

End UnpackClaims.

(** ** Binary64 numbers *)

Section SpecOrder.

Ltac order_cases :=
  repeat match goal with
  | |- context [Z.compare ?a ?b] => destruct (Z.compare_spec a b); subst
  | |- context [Pos.compare_cont Eq ?a ?b] =>
      change (Pos.compare_cont Eq a b) with (Pos.compare a b);
      destruct (Pos.compare_spec a b); subst
  end; cbn; try reflexivity; try discriminate; try lia.

Lemma SFleb_trans x y z : SFleb x y = true -> SFleb y z = true -> SFleb x z = true.
Proof.
  unfold SFleb, SFcompare.
  destruct x as [sx|sx| |sx mx ex], y as [sy|sy| |sy my ey], z as [sz|sz| |sz mz ez];
    try discriminate; try reflexivity;
    repeat match goal with s : bool |- _ => destruct s end;
    try discriminate; try reflexivity.
  all: order_cases.
Qed.

Lemma SFleb_refl_l x y : SFleb x y = true -> SFleb x x = true.
Proof.
  unfold SFleb, SFcompare.
  destruct x as [sx|sx| |sx mx ex], y as [sy|sy| |sy my ey];
    try discriminate; try reflexivity;
    repeat match goal with s : bool |- _ => destruct s end;
    try discriminate; try reflexivity.
  all: intros _; by rewrite Z.compare_refl, Pos.compare_cont_refl.
Qed.

Lemma SFleb_refl_r x y : SFleb x y = true -> SFleb y y = true.
Proof.
  unfold SFleb, SFcompare.
  destruct x as [sx|sx| |sx mx ex], y as [sy|sy| |sy my ey];
    try discriminate; try reflexivity;
    repeat match goal with s : bool |- _ => destruct s end;
    try discriminate; try reflexivity.
  all: intros _; by rewrite Z.compare_refl, Pos.compare_cont_refl.
Qed.

Lemma SFcompare_swap x y : SFcompare y x = option_map CompOpp (SFcompare x y).
Proof.
  unfold SFcompare.
  destruct x as [sx|sx| |sx mx ex], y as [sy|sy| |sy my ey];
    try reflexivity;
    repeat match goal with s : bool |- _ => destruct s end; try reflexivity; cbn.
  all: rewrite (Z.compare_antisym ey ex);
    change (Pos.compare_cont Eq ?a ?b) with (Pos.compare a b);
    rewrite (Pos.compare_antisym my mx);
    destruct (ey ?= ex); cbn; try reflexivity; destruct (my ?= mx)%positive; reflexivity.
Qed.

Lemma SFcompare_nonneg x y : SFnonneg x -> SFnonneg y -> is_Some (SFcompare x y).
Proof. destruct x, y; cbn; intros Hx Hy; by eauto. Qed.

Lemma SFleb_zero x : SFleb (S754_zero false) x = true <-> SFnonneg x.
Proof. destruct x as [s|[]| |[] m e]; cbn; intuition congruence. Qed.

(** For numbers that are not [NaN], [a <= b] fails exactly when [b < a]. *)
Lemma SFleb_SFltb x y :
  SFnonneg x -> SFnonneg y -> SFleb x y = negb (SFltb y x).
Proof.
  intros Hx Hy. unfold SFleb, SFltb. rewrite (SFcompare_swap x y).
  destruct (SFcompare_nonneg x y Hx Hy) as [[] ->]; done.
Qed.

End SpecOrder.

Section SpecRounding.
Variables prec emax : Z.

Lemma iter_pos_invariant {A} (P : A -> Prop) (f : A -> A) :
  (forall x, P x -> P (f x)) -> forall n x, P x -> P (SpecFloat.iter_pos f n x).
Proof. intros Hf. induction n as [n IH|n IH|]; intros x Hx; cbn; auto. Qed.

Lemma shr_1_nonneg mrs : 0 <= shr_m mrs -> 0 <= shr_m (shr_1 mrs).
Proof. destruct mrs as [m r s]. cbn. destruct m as [|[p|p|]|p]; cbn; lia. Qed.

Lemma shr_nonneg mrs e n : 0 <= shr_m mrs -> 0 <= shr_m (fst (shr mrs e n)).
Proof.
  intros H. unfold shr. destruct n; cbn; try done.
  apply (iter_pos_invariant (fun mrs => 0 <= shr_m mrs)); auto using shr_1_nonneg.
Qed.

Lemma shr_fexp_nonneg m e l : 0 <= m -> 0 <= shr_m (fst (shr_fexp prec emax m e l)).
Proof. intros H. unfold shr_fexp. apply shr_nonneg. destruct l as [|[]]; exact H. Qed.

Lemma round_nearest_even_nonneg m l : 0 <= m -> 0 <= round_nearest_even m l.
Proof.
  intros H. unfold round_nearest_even.
  destruct l as [|[]]; try done; try lia. destruct (Z.even m); lia.
Qed.

(** Rounding a mantissa that is not negative never gives [NaN]. *)
Lemma binary_round_aux_nonneg m e l :
  0 <= m -> SFnonneg (binary_round_aux prec emax false m e l).
Proof.
  intros H. unfold binary_round_aux.
  pose proof (shr_fexp_nonneg m e l H) as H1.
  destruct (shr_fexp prec emax m e l) as [mrs' e'] eqn:E1. cbn [fst] in H1.
  pose proof (shr_fexp_nonneg (round_nearest_even (shr_m mrs') (loc_of_shr_record mrs'))
                e' loc_Exact (round_nearest_even_nonneg _ _ H1)) as H2.
  destruct (shr_fexp prec emax _ e' loc_Exact) as [mrs'' e''] eqn:E2. cbn [fst] in H2.
  destruct (shr_m mrs'') as [|p|p]; cbn; try done; try lia.
  by destruct (e'' <=? emax - prec).
Qed.

Lemma binary_round_nonneg m e : SFnonneg (binary_round prec emax false m e).
Proof.
  unfold binary_round. destruct (shl_align _ _ _) as [mz ez].
  by apply binary_round_aux_nonneg.
Qed.

Lemma SFadd_nonneg x y : SFnonneg x -> SFnonneg y -> SFnonneg (SFadd prec emax x y).
Proof.
  destruct x as [sx|sx| |sx mx ex], y as [sy|sy| |sy my ey]; cbn; try done;
    intros Hx Hy; subst; try done.
  - by destruct sx, sy.
  - apply binary_round_nonneg.
Qed.

Lemma SFdiv_nonneg x y : SFnonneg x -> SFpositive y -> SFnonneg (SFdiv prec emax x y).
Proof.
  destruct x as [sx|sx| |sx mx ex], y as [sy|sy| |[] my ey]; cbn; try done;
    intros Hx Hy; subst; try done.
  unfold SFdiv_core_binary.
  set (m' := match _ with Z0 => _ | Z.pos _ => _ | Z.neg _ => _ end).
  assert (0 <= m') as Hm'.
  { subst m'. destruct (_ - _ - _); try lia. apply Z.shiftl_nonneg. lia. }
  pose proof (Z.div_pos m' (Z.pos my) Hm' ltac:(lia)) as Hq.
  unfold Z.div in Hq. destruct (Z.div_eucl m' (Z.pos my)) as [q r]. cbn [fst] in Hq.
  by apply binary_round_aux_nonneg.
Qed.

End SpecRounding.

Section Integers.

Lemma digits2_pos_bounds p :
  2 ^ (Z.pos (digits2_pos p) - 1) <= Z.pos p < 2 ^ Z.pos (digits2_pos p).
Proof.
  induction p as [p IH|p IH|]; cbn [digits2_pos]; [| |cbn; lia].
  all: rewrite Pos2Z.inj_succ, <- Z.add_1_r.
  all: replace (Z.pos (digits2_pos p) + 1 - 1) with (Z.succ (Z.pos (digits2_pos p) - 1)) by lia.
  all: rewrite Z.pow_succ_r, Z.pow_add_r by lia.
  all: change (2 ^ 1) with 2; lia.
Qed.

Lemma digits2_pos_shift p k :
  digits2_pos (Pos.iter xO p k) = (digits2_pos p + k)%positive.
Proof.
  induction k as [|k IH] using Pos.peano_ind.
  - cbn. lia.
  - rewrite Pos.iter_succ. cbn [digits2_pos]. rewrite IH. lia.
Qed.

(** A mantissa of 53 bits with an exponent in range is a binary64 number
    as it stands. *)
Lemma binary_round_aux_canonical m e :
  Z.pos (digits2_pos m) = 53 -> -1074 <= e <= 971 ->
  binary_round_aux prec emax false (Z.pos m) e loc_Exact = S754_finite false m e.
Proof.
  intros Hd He. unfold prec, emax.
  assert (forall l, l = loc_Exact ->
            shr_fexp 53 1024 (Z.pos m) e l
            = ({| shr_m := Z.pos m; shr_r := false; shr_s := false |}, e)) as Hshr.
  { intros l ->. unfold shr_fexp, fexp, SpecFloat.emin. cbn [Zdigits2 shr_record_of_loc].
    rewrite Hd. replace (Z.max (53 + e - 53) (3 - 1024 - 53) - e) with 0 by lia. done. }
  unfold binary_round_aux. rewrite Hshr by done.
  cbn [shr_m loc_of_shr_record round_nearest_even]. rewrite Hshr by done.
  cbn [shr_m]. by destruct (Z.leb_spec e (1024 - 53)); [|lia].
Qed.

(** The binary64 number of a positive integer below 2^53 is finite and
    positive. *)
Lemma binary_normalize_small n :
  0 < n < 2^53 ->
  exists m e, binary_normalize prec emax n 0 false = S754_finite false m e
              /\ valid_binary (S754_finite false m e) = true.
Proof.
  intros Hn. destruct n as [|p|p]; [lia| |lia]. cbn [binary_normalize].
  unfold binary_round.
  pose proof (digits2_pos_bounds p) as Hp.
  assert (Z.pos (digits2_pos p) <= 53) as Hd.
  { destruct (Z.le_gt_cases (Z.pos (digits2_pos p)) 53) as [|Hgt]; [done|].
    assert (2 ^ 53 <= 2 ^ (Z.pos (digits2_pos p) - 1)) by (apply Z.pow_le_mono_r; lia).
    lia. }
  assert (fexp prec emax (Z.pos (digits2_pos p) + 0) = Z.pos (digits2_pos p) - 53) as ->
    by (unfold fexp, SpecFloat.emin, prec, emax; lia).
  unfold shl_align. rewrite Z.sub_0_r.
  destruct (Z.pos (digits2_pos p) - 53) as [|k|k] eqn:Ek; [|lia|].
  - exists p, 0. rewrite (binary_round_aux_canonical p 0) by lia.
    split; [done|]. cbn [SpecFloat.valid_binary].
    unfold bounded, canonical_mantissa, fexp, SpecFloat.emin, prec, emax.
    replace (Z.pos (digits2_pos p)) with 53 by lia. done.
  - assert (Z.pos (digits2_pos (Pos.iter xO p k)) = 53) as Hk
      by (rewrite digits2_pos_shift; lia).
    exists (Pos.iter xO p k), (Z.neg k).
    rewrite (binary_round_aux_canonical _ (Z.neg k)) by lia.
    split; [done|]. cbn [SpecFloat.valid_binary].
    unfold bounded, canonical_mantissa, fexp, SpecFloat.emin, prec, emax.
    rewrite Hk. apply andb_true_intro. split; [apply Z.eqb_eq|apply Z.leb_le]; lia.
Qed.

Lemma Z2F_positive n : 0 < n < 2^53 -> SFpositive (Prim2SF (Z2F n)).
Proof.
  intros Hn. destruct (binary_normalize_small n Hn) as (m & e & Hne & Hvalid).
  unfold Z2F. by rewrite Hne, Prim2SF_SF2Prim.
Qed.

End Integers.

(** *** The primitive operations through their specification *)

Section Primitive.
Open Scope float_scope.

Lemma nonneg_spec x : nonneg x <-> SFnonneg (Prim2SF x).
Proof. unfold nonneg. rewrite leb_spec. apply SFleb_zero. Qed.

Lemma leb_trans x y z : (x <=? y) = true -> (y <=? z) = true -> (x <=? z) = true.
Proof. rewrite !leb_spec. apply SFleb_trans. Qed.

Lemma leb_refl_l x y : (x <=? y) = true -> (x <=? x) = true.
Proof. rewrite !leb_spec. apply SFleb_refl_l. Qed.

Lemma leb_refl_r x y : (x <=? y) = true -> (y <=? y) = true.
Proof. rewrite !leb_spec. apply SFleb_refl_r. Qed.

Lemma add_nonneg x y : nonneg x -> nonneg y -> nonneg (x + y).
Proof. rewrite !nonneg_spec, add_spec. apply SFadd_nonneg. Qed.

Lemma div_nonneg x y : nonneg x -> SFpositive (Prim2SF y) -> nonneg (x / y).
Proof. rewrite !nonneg_spec, div_spec. apply SFdiv_nonneg. Qed.

Lemma leb_ltb x y : nonneg x -> nonneg y -> (x <=? y) = negb (y <? x).
Proof. rewrite !nonneg_spec, leb_spec, ltb_spec. apply SFleb_SFltb. Qed.

End Primitive.

(** ** The luminance *)

Section Luminance.
Open Scope float_scope.

Lemma luminance_checks_hold : luminance_checks byte_floats = true.
Proof. vm_cast_no_check (eq_refl true). Qed.

Lemma luminance_checks_spec byte u v :
  luminance_checks byte = true -> In u byte -> In v byte ->
  nondecreasing ((fun r => luminance r u v) <$> byte) = true
  /\ nondecreasing ((fun g => luminance u g v) <$> byte) = true
  /\ nondecreasing ((fun b => luminance u v b) <$> byte) = true.
Proof.
  unfold luminance_checks. intros H Hu Hv.
  rewrite forallb_forall in H. specialize (H _ Hu).
  rewrite forallb_forall in H. specialize (H _ Hv).
  apply andb_prop in H as [[H1 H2]%andb_prop H3].
  split; [exact H1|split; [exact H2|exact H3]].
Qed.

Lemma nondecreasing_head x l j y :
  nondecreasing (x :: l) = true -> l !! j = Some y -> (x <=? y) = true.
Proof.
  revert x j. induction l as [|z l IH]; intros x j; [done|].
  cbn [nondecreasing]. intros [Hxz Hl]%andb_prop Hj.
  destruct j as [|j]; cbn in Hj.
  - by injection Hj as <-.
  - eapply leb_trans; [exact Hxz|]. by eapply IH.
Qed.

Lemma nondecreasing_tail x l : nondecreasing (x :: l) = true -> nondecreasing l = true.
Proof. destruct l; [done|]. cbn [nondecreasing]. by intros [_ ?]%andb_prop. Qed.

Lemma nondecreasing_lookup l i j x y :
  nondecreasing l = true -> (i < j)%nat ->
  l !! i = Some x -> l !! j = Some y -> (x <=? y) = true.
Proof.
  revert i j. induction l as [|z l IH]; intros i j Hl Hij Hi Hj; [done|].
  destruct j as [|j]; [lia|]. destruct i as [|i]; cbn in Hi, Hj.
  - injection Hi as <-. by eapply nondecreasing_head.
  - eapply (IH i j); eauto using nondecreasing_tail. lia.
Qed.

Lemma lookup_byte z : (0 <= z <= 255)%Z -> byte_floats !! Z.to_nat z = Some (Z2F z).
Proof.
  intros Hz. unfold byte_floats. rewrite list_lookup_fmap, lookup_seqZ_lt by lia.
  cbn. do 2 f_equal. lia.
Qed.

Lemma elem_of_byte z : (0 <= z <= 255)%Z -> In (Z2F z) byte_floats.
Proof.
  intros Hz. unfold byte_floats.
  apply list_elem_of_In, list_elem_of_fmap_2, elem_of_seqZ. lia.
Qed.

(** Along a list of luminances that passed the check, in any two places. *)
Lemma checked_le (f : float -> float) z z' :
  nondecreasing (f <$> byte_floats) = true ->
  (0 <= z <= z')%Z -> (z' <= 255)%Z ->
  (f (Z2F z) <=? f (Z2F z')) = true.
Proof.
  intros Hcheck Hz Hz'.
  assert (forall i j, (0 <= i < j)%Z -> (j <= 255)%Z -> (f (Z2F i) <=? f (Z2F j)) = true)
    as Hlt.
  { intros i j Hi Hj.
    eapply (nondecreasing_lookup _ (Z.to_nat i) (Z.to_nat j)); [exact Hcheck|lia|..];
      rewrite list_lookup_fmap, lookup_byte by lia; reflexivity. }
  destruct (decide (z = z')) as [<-|]; [|apply Hlt; lia].
  destruct (decide (z = 255%Z)) as [->|].
  - eapply leb_refl_r, (Hlt 254%Z 255%Z); lia.
  - eapply leb_refl_l, (Hlt z (z + 1)%Z); lia.
Qed.

Lemma checked u v :
  (0 <= u <= 255)%Z -> (0 <= v <= 255)%Z ->
  nondecreasing ((fun r => luminance r (Z2F u) (Z2F v)) <$> byte_floats) = true
  /\ nondecreasing ((fun g => luminance (Z2F u) g (Z2F v)) <$> byte_floats) = true
  /\ nondecreasing ((fun b => luminance (Z2F u) (Z2F v) b) <$> byte_floats) = true.
Proof.
  intros Hu Hv.
  exact (luminance_checks_spec byte_floats (Z2F u) (Z2F v) luminance_checks_hold
           (elem_of_byte u Hu) (elem_of_byte v Hv)).
Qed.

Lemma getLuminance_rgb r g b :
  getLuminance (rgb r g b) = luminance (Z2F r) (Z2F g) (Z2F b).
Proof. done. Qed.

Lemma luminance_le_r r r' g b :
  (0 <= r <= r')%Z -> (r' <= 255)%Z -> (0 <= g <= 255)%Z -> (0 <= b <= 255)%Z ->
  (getLuminance (rgb r g b) <=? getLuminance (rgb r' g b)) = true.
Proof.
  intros Hr Hr' Hg Hb. rewrite !getLuminance_rgb.
  destruct (checked g b Hg Hb) as (H & _ & _).
  exact (checked_le (fun r => luminance r (Z2F g) (Z2F b)) r r' H Hr Hr').
Qed.

Lemma luminance_le_g r g g' b :
  (0 <= r <= 255)%Z -> (0 <= g <= g')%Z -> (g' <= 255)%Z -> (0 <= b <= 255)%Z ->
  (getLuminance (rgb r g b) <=? getLuminance (rgb r g' b)) = true.
Proof.
  intros Hr Hg Hg' Hb. rewrite !getLuminance_rgb.
  destruct (checked r b Hr Hb) as (_ & H & _).
  exact (checked_le (fun g => luminance (Z2F r) g (Z2F b)) g g' H Hg Hg').
Qed.

Lemma luminance_le_b r g b b' :
  (0 <= r <= 255)%Z -> (0 <= g <= 255)%Z -> (0 <= b <= b')%Z -> (b' <= 255)%Z ->
  (getLuminance (rgb r g b) <=? getLuminance (rgb r g b')) = true.
Proof.
  intros Hr Hg Hb Hb'. rewrite !getLuminance_rgb.
  destruct (checked r g Hr Hg) as (_ & _ & H).
  exact (checked_le (fun b => luminance (Z2F r) (Z2F g) b) b b' H Hb Hb').
Qed.

Lemma luminance_black : getLuminance (rgb 0 0 0) = 0.
Proof. vm_compute. reflexivity. Qed.

(** C9: for colours of 8-bit channels, [getLuminance] never decreases when
    one of R, G, B grows and the two others stay; the luminance of black is
    0, and the luminance of white is the binary64 number just below 1, at a
    distance of 2^-53. *)
Theorem luminance_monotone :
  (forall r r' g b,
     (0 <= r <= r')%Z -> (r' <= 255)%Z -> (0 <= g <= 255)%Z -> (0 <= b <= 255)%Z ->
     (getLuminance (rgb r g b) <=? getLuminance (rgb r' g b)) = true)
  /\ (forall r g g' b,
        (0 <= r <= 255)%Z -> (0 <= g <= g')%Z -> (g' <= 255)%Z -> (0 <= b <= 255)%Z ->
        (getLuminance (rgb r g b) <=? getLuminance (rgb r g' b)) = true)
  /\ (forall r g b b',
        (0 <= r <= 255)%Z -> (0 <= g <= 255)%Z -> (0 <= b <= b')%Z -> (b' <= 255)%Z ->
        (getLuminance (rgb r g b) <=? getLuminance (rgb r g b')) = true)
  /\ getLuminance (rgb 0 0 0) = 0
  /\ getLuminance (rgb 255 255 255) = 0x1.fffffffffffffp-1
  /\ 1 - getLuminance (rgb 255 255 255) = 0x1p-53.
Proof.
  split; [exact luminance_le_r|]. split; [exact luminance_le_g|].
  split; [exact luminance_le_b|]. split; [exact luminance_black|].
  split; vm_compute; reflexivity.
Qed.

Lemma luminance_monotone_witness :
  (getLuminance (rgb 10 20 30) <=? getLuminance (rgb 200 20 30)) = true
  /\ (getLuminance (rgb 10 20 30) <=? getLuminance (rgb 10 20 30)) = true.
Proof.
  split; apply (proj1 luminance_monotone); lia.
Defined.

(** The luminance of a colour of 8-bit channels is neither [NaN] nor negative. *)
Lemma getLuminance_nonneg c : byte_color c -> nonneg (getLuminance c).
Proof.
  destruct c as [r g b]. intros (Hr & Hg & Hb). cbn in Hr, Hg, Hb.
  destruct r as [| |r]; [destruct Hr..|].
  destruct g as [| |g]; [destruct Hg..|].
  destruct b as [| |b]; [destruct Hb..|].
  cbn in Hr, Hg, Hb. change (Color.make (JNum r) (JNum g) (JNum b)) with (rgb r g b).
  unfold nonneg.
  eapply leb_trans; [|apply (luminance_le_b r g 0%Z b); lia].
  eapply leb_trans; [|apply (luminance_le_g r 0%Z g 0%Z); lia].
  eapply leb_trans; [|apply (luminance_le_r 0%Z r 0%Z 0%Z); lia].
  rewrite luminance_black. vm_compute. reflexivity.
Qed.

End Luminance.

(** ** The packer *)

Section Pack.
Open Scope float_scope.

Lemma pack_box_data box :
  PackedBox.data (pack_box box)
  = (fun pixel =>
       PackedPixel.make (Pixel.x pixel) (Pixel.y pixel)
         (if is_light (averageLuminance (Box.data box)) pixel then JNum 1 else JNum 0))
      <$> Box.data box.
Proof.
  unfold pack_box. cbn [PackedBox.data].
  by rewrite (fold_left_push
                (fun pixel =>
                   PackedPixel.make (Pixel.x pixel) (Pixel.y pixel)
                     (if is_light (averageLuminance (Box.data box)) pixel
                      then JNum 1 else JNum 0))).
Qed.

Lemma pack_fmap boxed :
  pack boxed
  = PackedImage.make (BoxedImage.size boxed) (BoxedImage.boxSize boxed)
                     (pack_box <$> BoxedImage.data boxed).
Proof. unfold pack. by rewrite (fold_left_push pack_box). Qed.

(** The mean [pack] compares with is the binary64 mean of the luminances. *)
Lemma averageLuminance_mean data :
  averageLuminance data = binary64_mean (luminances data).
Proof.
  unfold averageLuminance, binary64_mean, luminances.
  rewrite length_fmap. f_equal.
  generalize 0 as acc. induction data as [|pixel data IH]; intros acc; [done|].
  cbn [fold_left fmap list_fmap]. apply IH.
Qed.

(** The counters of the two partitions count the pixels of each. *)
Lemma partition_counts avg data :
  Totals.n (fst (partition_totals avg data))
  = JNum (Z.of_nat (length (List.filter (is_light avg) data)))
  /\ Totals.n (snd (partition_totals avg data))
     = JNum (Z.of_nat (length (List.filter (fun pixel => negb (is_light avg pixel)) data))).
Proof.
  unfold partition_totals.
  assert (forall (t : Totals.t * Totals.t) a b,
            Totals.n (fst t) = JNum a -> Totals.n (snd t) = JNum b ->
            let t' := fold_left
                        (fun totals pixel =>
                           if is_light avg pixel
                           then (Totals.add (fst totals) (Pixel.color pixel), snd totals)
                           else (fst totals, Totals.add (snd totals) (Pixel.color pixel)))
                        data t in
            Totals.n (fst t')
            = JNum (a + Z.of_nat (length (List.filter (is_light avg) data)))
            /\ Totals.n (snd t')
               = JNum (b + Z.of_nat (length (List.filter
                                               (fun pixel => negb (is_light avg pixel)) data))))
    as Hgen.
  { induction data as [|pixel data IH]; intros t a b Ha Hb; cbn zeta.
    - cbn. by rewrite !Z.add_0_r.
    - cbn [fold_left List.filter].
      destruct (is_light avg pixel); cbn [negb].
      + destruct (IH (Totals.add (fst t) (Pixel.color pixel), snd t) (a + 1)%Z b)
          as [-> ->]; [cbn; by rewrite Ha|done|].
        cbn [length]. split; f_equal; lia.
      + destruct (IH (fst t, Totals.add (snd t) (Pixel.color pixel)) a (b + 1)%Z)
          as [-> ->]; [done|cbn; by rewrite Hb|].
        cbn [length]. split; f_equal; lia. }
  apply (Hgen (Totals.zero, Totals.zero) 0%Z 0%Z); done.
Qed.

Lemma filter_split_length {A} (f : A -> bool) (l : list A) :
  (length (List.filter f l) + length (List.filter (fun a => negb (f a)) l))%nat = length l.
Proof.
  induction l as [|a l IH]; [done|]. cbn [List.filter].
  destruct (f a); cbn [negb length]; lia.
Qed.

(** Nothing is added to the totals of a partition without pixels. *)
Lemma totals_empty avg data :
  Forall (fun pixel => is_light avg pixel = true) data ->
  snd (partition_totals avg data) = Totals.zero.
Proof.
  unfold partition_totals. generalize (Totals.zero) at 1 as light.
  induction data as [|pixel data IH]; intros light Hall; [done|].
  inversion Hall as [|? ? Hpixel Hdata]; subst.
  cbn [fold_left]. rewrite Hpixel. cbn [fst snd]. by apply IH.
Qed.

Lemma total_nonneg data acc :
  Forall byte_pixel data -> nonneg acc ->
  nonneg (fold_left (fun accumulator current =>
                       accumulator + getLuminance (Pixel.color current)) data acc).
Proof.
  intros Hdata. revert acc. induction Hdata as [|pixel data Hpixel _ IH]; intros acc Hacc.
  - done.
  - cbn [fold_left]. apply IH. apply add_nonneg; [done|]. by apply getLuminance_nonneg.
Qed.

(** The average of a box that is not empty is neither [NaN] nor negative. *)
Lemma averageLuminance_nonneg data :
  Forall byte_pixel data -> (0 < Z.of_nat (length data) < 2^53)%Z ->
  nonneg (averageLuminance data).
Proof.
  intros Hdata Hlen. unfold averageLuminance.
  apply div_nonneg; [|by apply Z2F_positive].
  apply total_nonneg; [done|]. reflexivity.
Qed.

(** One box: [pack] keeps the position of every pixel and gives it the index
    1 exactly when its luminance is at least the average of the box, the
    index 0 exactly when it is below; the counters of the two partitions
    count the pixels of each index and add up to the number of pixels. *)
Lemma pack_box_partitions box :
  Forall byte_pixel (Box.data box) ->
  (Z.of_nat (length (Box.data box)) < 2^32)%Z ->
  let avg := averageLuminance (Box.data box) in
  let packed := pack_box box in
  let totals := partition_totals avg (Box.data box) in
  Forall2 (fun pixel packedPixel =>
             PackedPixel.x packedPixel = Pixel.x pixel
             /\ PackedPixel.y packedPixel = Pixel.y pixel
             /\ (PackedPixel.index packedPixel = JNum 1
                 \/ PackedPixel.index packedPixel = JNum 0)
             /\ (PackedPixel.index packedPixel = JNum 1
                 <-> (avg <=? getLuminance (Pixel.color pixel)) = true)
             /\ (PackedPixel.index packedPixel = JNum 0
                 <-> (getLuminance (Pixel.color pixel) <? avg) = true))
          (Box.data box) (PackedBox.data packed)
  /\ exists light dark,
       Totals.n (fst totals) = JNum light /\ Totals.n (snd totals) = JNum dark
       /\ light = Z.of_nat (length (filter (fun p => PackedPixel.index p = JNum 1)
                                           (PackedBox.data packed)))
       /\ dark = Z.of_nat (length (filter (fun p => PackedPixel.index p = JNum 0)
                                          (PackedBox.data packed)))
       /\ (light + dark)%Z = Z.of_nat (length (Box.data box))
       /\ (forall boxSize,
             (0 <= boxSize)%Z ->
             (fun pixel => (Pixel.x pixel, Pixel.y pixel)) <$> Box.data box
             = row_major boxSize ->
             (light + dark)%Z = (boxSize * boxSize)%Z).
Proof.
  intros Hbytes Hlen avg packed totals. split.
  - subst packed. rewrite pack_box_data. fold avg.
    apply Forall2_fmap_r, Forall_Forall2_diag.
    assert (Box.data box = [] \/ nonneg avg) as [Hnil|Havg].
    { subst avg. destruct (Box.data box) as [|pixel0 data0] eqn:Hdata; [by left|right].
      apply averageLuminance_nonneg; [done|]. cbn [length] in *. lia. }
    { rewrite Hnil. constructor. }
    eapply Forall_impl; [exact Hbytes|]. intros pixel Hpixel.
    unfold compose. cbn beta.
    cbn [PackedPixel.x PackedPixel.y PackedPixel.index].
    pose proof (leb_ltb avg (getLuminance (Pixel.color pixel)) Havg
                  (getLuminance_nonneg _ Hpixel)) as Hcmp.
    unfold is_light. rewrite Hcmp.
    destruct (getLuminance (Pixel.color pixel) <? avg); cbn [negb]; naive_solver.
  - destruct (partition_counts avg (Box.data box)) as [Hlight Hdark].
    pose proof (filter_split_length (is_light avg) (Box.data box)) as Hsplit.
    assert (forall l : list Pixel.t,
              length (filter (fun p => PackedPixel.index p = JNum 1)
                         ((fun pixel =>
                             PackedPixel.make (Pixel.x pixel) (Pixel.y pixel)
                               (if is_light avg pixel then JNum 1 else JNum 0)) <$> l))
              = length (List.filter (is_light avg) l)
              /\ length (filter (fun p => PackedPixel.index p = JNum 0)
                            ((fun pixel =>
                                PackedPixel.make (Pixel.x pixel) (Pixel.y pixel)
                                  (if is_light avg pixel then JNum 1 else JNum 0)) <$> l))
                 = length (List.filter (fun pixel => negb (is_light avg pixel)) l))
      as Hindex.
    { induction l as [|pixel l [IH1 IH0]]; [done|].
      rewrite fmap_cons, !filter_cons. cbn [List.filter PackedPixel.index].
      destruct (is_light avg pixel); cbn [negb].
      - rewrite decide_True, decide_False by done. cbn [length]. by rewrite IH1, IH0.
      - rewrite decide_False, decide_True by done. cbn [length]. by rewrite IH1, IH0. }
    destruct (Hindex (Box.data box)) as [H1 H0].
    eexists _, _. split; [exact Hlight|]. split; [exact Hdark|].
    subst packed. rewrite pack_box_data. fold avg. rewrite H1, H0.
    split; [done|]. split; [done|]. split; [lia|].
    intros boxSize Hb Hrows.
    pose proof (length_row_major boxSize Hb) as Hrm.
    rewrite <- Hrows, length_fmap in Hrm. lia.
Qed.

End Pack.

Section PackClaims.
Open Scope float_scope.

(** C2 (as the code has it): [pack] keeps [size] and [boxSize] and turns
    every box into one packed box, in order and with the coordinates of the
    box.  For a box of pixels with 8-bit channels (and fewer than 2^32
    pixels, as every array has), the mean of the box is the binary64 mean of
    its luminances: the luminances added from left to right and the sum
    divided by their number, each operation rounded.  Every pixel keeps its
    position and gets the index 1 exactly when its luminance is at least
    that mean, and the index 0 exactly when its luminance is below it; the
    colours of the packed box are the means of the two partitions, whose
    counters count the pixels of index 1 and of index 0 and add up to the
    number of pixels of the box, which is [boxSize * boxSize] for a box of
    edge [boxSize]. *)
Theorem pack_partitions boxed :
  Forall (fun box => Forall byte_pixel (Box.data box)
                     /\ (Z.of_nat (length (Box.data box)) < 2^32)%Z)
         (BoxedImage.data boxed) ->
  let packed := pack boxed in
  PackedImage.size packed = BoxedImage.size boxed
  /\ PackedImage.boxSize packed = BoxedImage.boxSize boxed
  /\ Forall2
       (fun box packedBox =>
          let mean := binary64_mean (luminances (Box.data box)) in
          let totals := partition_totals mean (Box.data box) in
          PackedBox.x packedBox = Box.x box /\ PackedBox.y packedBox = Box.y box
          /\ PackedBox.light packedBox = mean_color (fst totals)
          /\ PackedBox.dark packedBox = mean_color (snd totals)
          /\ Forall2 (fun pixel packedPixel =>
                        PackedPixel.x packedPixel = Pixel.x pixel
                        /\ PackedPixel.y packedPixel = Pixel.y pixel
                        /\ (PackedPixel.index packedPixel = JNum 1
                            \/ PackedPixel.index packedPixel = JNum 0)
                        /\ (PackedPixel.index packedPixel = JNum 1
                            <-> (mean <=? getLuminance (Pixel.color pixel)) = true)
                        /\ (PackedPixel.index packedPixel = JNum 0
                            <-> (getLuminance (Pixel.color pixel) <? mean) = true))
                     (Box.data box) (PackedBox.data packedBox)
          /\ exists light dark,
               Totals.n (fst totals) = JNum light /\ Totals.n (snd totals) = JNum dark
               /\ light = Z.of_nat (length (filter (fun p => PackedPixel.index p = JNum 1)
                                                   (PackedBox.data packedBox)))
               /\ dark = Z.of_nat (length (filter (fun p => PackedPixel.index p = JNum 0)
                                                  (PackedBox.data packedBox)))
               /\ (light + dark)%Z = Z.of_nat (length (Box.data box))
               /\ (forall boxSize,
                     (0 <= boxSize)%Z ->
                     (fun pixel => (Pixel.x pixel, Pixel.y pixel)) <$> Box.data box
                     = row_major boxSize ->
                     (light + dark)%Z = (boxSize * boxSize)%Z))
       (BoxedImage.data boxed) (PackedImage.data packed).
Proof.
  intros Hboxes packed. subst packed. rewrite pack_fmap.
  cbn [PackedImage.size PackedImage.boxSize PackedImage.data].
  split; [done|]. split; [done|].
  apply Forall2_fmap_r, Forall_Forall2_diag.
  eapply Forall_impl; [exact Hboxes|]. intros box [Hbytes Hlen]. cbn zeta.
  rewrite <- averageLuminance_mean.
  destruct (pack_box_partitions box Hbytes Hlen) as [Hpixels Hcounts].
  repeat split; try done.
Qed.

Lemma pack_partitions_witness :
  (fun box => PackedPixel.index <$> PackedBox.data box) <$> PackedImage.data (pack two_tone_image)
  = [[JNum 0; JNum 1; JNum 0; JNum 1]]
  /\ Forall2
       (fun box packedBox =>
          Forall2 (fun pixel packedPixel =>
                     PackedPixel.index packedPixel = JNum 1
                     <-> (binary64_mean (luminances (Box.data box))
                          <=? getLuminance (Pixel.color pixel)) = true)
                  (Box.data box) (PackedBox.data packedBox))
       (BoxedImage.data two_tone_image) (PackedImage.data (pack two_tone_image)).
Proof.
  split; [vm_compute; reflexivity|].
  destruct (pack_partitions two_tone_image) as (_ & _ & Hboxes).
  - constructor; [|constructor]. split.
    + repeat constructor; cbn; lia.
    + vm_compute. reflexivity.
  - eapply Forall2_impl; [exact Hboxes|].
    intros box packedBox (_ & _ & _ & _ & Hpixels & _).
    eapply Forall2_impl; [exact Hpixels|].
    intros pixel packedPixel (_ & _ & _ & H & _). exact H.
Defined.

(** C2, as stated, fails: the mean [pack] compares with is not the
    arithmetic mean of the luminances.  The nine pixels of [grey_box] have
    one luminance, which is their arithmetic mean, so every one of them is
    at least the mean; [pack] gives every one the index 0, since nine times
    that luminance, added up and divided in binary64, is above it. *)
Lemma uniform_box_ties :
  forallb (at_least_exact_mean (luminances (Box.data grey_box)))
          (luminances (Box.data grey_box)) = true
  /\ (fun box => PackedPixel.index <$> PackedBox.data box) <$> PackedImage.data (pack grey_image)
     = [replicate 9 (JNum 0)]
  /\ forallb (fun l => l <? binary64_mean (luminances (Box.data grey_box)))
             (luminances (Box.data grey_box)) = true.
Proof. split; [|split]; vm_compute; reflexivity. Qed.

(** C4 fails on the code: [pack] divides the totals of each partition by
    its counter without a test, so the colour of an empty partition is
    [0 / 0].  For a box of one pixel the pixel is light, no pixel is dark,
    and the three components of [dark] are [NaN]. *)
Theorem empty_partition_NaN :
  pack_box single_pixel_box
  = PackedBox.make (JNum 0) (JNum 0) (rgb 10 10 10) (Color.make JNaN JNaN JNaN)
                   [PackedPixel.make (JNum 0) (JNum 0) (JNum 1)].
Proof. vm_compute. reflexivity. Qed.

(** More generally: when every pixel of a box is light, [dark] is [NaN]. *)
Lemma all_light_dark_NaN box :
  Forall (fun pixel => is_light (averageLuminance (Box.data box)) pixel = true)
         (Box.data box) ->
  PackedBox.dark (pack_box box) = Color.make JNaN JNaN JNaN.
Proof.
  intros Hall. unfold pack_box. cbn [PackedBox.dark].
  by rewrite (totals_empty _ _ Hall).
Qed.

(** The mean is the one the program computes: the luminances added from left
    to right and the sum divided by their number, each operation rounded.
    For nine pixels of the grey 11 it lies above their common luminance, so
    all nine are dark and it is the light partition that is empty. *)
Lemma uniform_box_all_dark :
  (getLuminance (rgb 11 11 11) <? averageLuminance (Box.data grey_box)) = true
  /\ PackedPixel.index <$> PackedBox.data (pack_box grey_box) = replicate 9 (JNum 0)
  /\ PackedBox.light (pack_box grey_box) = Color.make JNaN JNaN JNaN
  /\ PackedBox.dark (pack_box grey_box) = rgb 11 11 11.
Proof. split; [|split; [|split]]; vm_compute; reflexivity. Qed.

End PackClaims.

(** ** Streams the deserializer accepts *)

Section Streams.

Lemma magic_every_offset (k : nat) (magic : list Z) :
  forallb (fun '(index, item) =>
             JS.eq (JS.get JNum MAGIC (JNum (Z.of_nat index))) (JNum item))
          (imap (fun i => pair (k + i)%nat) magic) = true
  <-> magic = take (length magic) (drop k MAGIC).
Proof.
  revert k. induction magic as [|a l IH]; intros k; [done|].
  cbn [imap forallb length]. rewrite andb_true_iff, Nat.add_0_r, get_lookup.
  rewrite (imap_ext _ (fun i => pair (S k + i)%nat)) by (intros; cbn; f_equal; lia).
  rewrite IH.
  destruct (MAGIC !! k) as [m|] eqn:Hm.
  - rewrite (drop_S _ _ _ Hm). cbn [from_option JS.eq take].
    rewrite Z.eqb_eq. split.
    + intros [-> <-]. done.
    + intros [= -> Hl]. done.
  - rewrite (drop_ge MAGIC k) by (by apply lookup_ge_None_1).
    cbn [from_option JS.eq]. split; [by intros [? _]|done].
Qed.

Lemma magic_every_accepted bytes :
  magic_every (JS.slice (JS.slice bytes (JNum 0) (JNum 16)) (JNum 0) (JNum 8)) = true
  <-> accepted_magic bytes.
Proof.
  unfold magic_every, accepted_magic, JS.slice. cbn [JS.ToInteger].
  change (Z.to_nat 8 - Z.to_nat 0)%nat with 8%nat.
  change (Z.to_nat 16 - Z.to_nat 0)%nat with 16%nat.
  change (Z.to_nat 0) with 0%nat. rewrite !drop_0, take_take.
  change (8 `min` 16)%nat with 8%nat.
  rewrite (magic_every_offset 0), drop_0, length_take.
  destruct (Nat.le_ge_cases 8 (length bytes)).
  - rewrite Nat.min_l by done. by rewrite (take_ge MAGIC (length bytes)).
  - by rewrite Nat.min_r by done.
Qed.

Lemma header_get (bytes : list Z) (i : Z) :
  0 <= i < 16 ->
  JS.get JNum (JS.slice bytes (JNum 0) (JNum 16)) (JNum i) = JS.get JNum bytes (JNum i).
Proof.
  intros Hi. unfold JS.slice. cbn [JS.ToInteger].
  rewrite <- (Z2Nat.id i) by lia.
  rewrite drop_0, !get_lookup. by rewrite lookup_take_lt by (cbn; lia).
Qed.

(** The packed image a stream with an accepted magic is read as. *)
Lemma deserialise_accepted bytes :
  accepted_magic bytes ->
  exists data,
    deserialiseIntoPacked bytes
    = Normal (PackedImage.make
                (Size.make (JS.get JNum bytes (JNum 11)) (JS.get JNum bytes (JNum 12)))
                (JS.get JNum bytes (JNum 10)) data).
Proof.
  intros Hmagic. apply magic_every_accepted in Hmagic.
  unfold deserialiseIntoPacked. rewrite Hmagic. cbn [negb].
  rewrite (header_get bytes 10), (header_get bytes 11), (header_get bytes 12) by lia.
  eauto.
Qed.

Lemma deserialise_rejected bytes :
  ~ accepted_magic bytes ->
  deserialiseIntoPacked bytes = ProcessExit incorrect_filetype_message.
Proof.
  intros Hmagic. unfold deserialiseIntoPacked.
  destruct (magic_every _) eqn:Hevery; [|done].
  by apply magic_every_accepted in Hevery.
Qed.

(** X1: [deserialiseIntoPacked] compares the magic bytes that are there and
    no more.  A stream whose first eight bytes, or whose bytes when it has
    fewer than eight, are the first bytes of "csq/qimg" is read as a packed
    image; the empty stream is one.  Every other stream ends the process
    with "incorrect filetype, expecting .qimg file". *)
Theorem magic_check bytes :
  (accepted_magic bytes -> exists p, deserialiseIntoPacked bytes = Normal p)
  /\ (~ accepted_magic bytes ->
      deserialiseIntoPacked bytes = ProcessExit incorrect_filetype_message).
Proof.
  split.
  - intros Hmagic. destruct (deserialise_accepted bytes Hmagic) as [data ->]. eauto.
  - apply deserialise_rejected.
Qed.

Lemma magic_check_witness :
  (exists p, deserialiseIntoPacked [] = Normal p)
  /\ (exists p, deserialiseIntoPacked [99; 115; 113] = Normal p)
  /\ deserialiseIntoPacked [99; 115; 113; 47; 113; 105; 109; 104; 0; 1; 2; 1; 1; 0; 0; 0]
     = ProcessExit incorrect_filetype_message.
Proof.
  split; [|split].
  - apply (proj1 (magic_check [])). reflexivity.
  - apply (proj1 (magic_check [99; 115; 113])). reflexivity.
  - apply (proj2 (magic_check [99; 115; 113; 47; 113; 105; 109; 104;
                               0; 1; 2; 1; 1; 0; 0; 0])).
    intros H. discriminate H.
Defined.

(** The result of [deserialiseIntoPacked] is a function of the bytes at
    offsets 0-7 and from offset 10 on. *)
Lemma deserialise_agree bytes bytes' :
  take 8 bytes = take 8 bytes' -> drop 10 bytes = drop 10 bytes' ->
  deserialiseIntoPacked bytes = deserialiseIntoPacked bytes'.
Proof.
  intros Hmagic Hrest.
  assert (forall i, (10 <= i)%nat -> bytes !! i = bytes' !! i) as Hlookup.
  { intros i Hi. replace i with (10 + (i - 10))%nat by lia.
    by rewrite <- !lookup_drop, Hrest. }
  assert (forall i, 10 <= i < 16 ->
            JS.get JNum (JS.slice bytes (JNum 0) (JNum 16)) (JNum i)
            = JS.get JNum (JS.slice bytes' (JNum 0) (JNum 16)) (JNum i)) as Hget.
  { intros i Hi. rewrite !header_get by lia. rewrite <- (Z2Nat.id i) by lia.
    rewrite !get_lookup. by rewrite Hlookup by lia. }
  assert (JS.slice (JS.slice bytes (JNum 0) (JNum 16)) (JNum 0) (JNum 8)
          = JS.slice (JS.slice bytes' (JNum 0) (JNum 16)) (JNum 0) (JNum 8)) as Hslice.
  { unfold JS.slice. cbn [JS.ToInteger]. rewrite !drop_0, !take_take. exact Hmagic. }
  assert (JS.slice_from bytes (JNum 16) = JS.slice_from bytes' (JNum 16)) as Hfrom.
  { unfold JS.slice_from. cbn [JS.ToInteger].
    change (Z.to_nat 16) with (10 + 6)%nat. by rewrite <- !drop_drop, Hrest. }
  unfold deserialiseIntoPacked. rewrite Hslice, Hfrom.
  rewrite (Hget 10), (Hget 11), (Hget 12), (Hget 13), (Hget 14), (Hget 15) by lia.
  done.
Qed.

(** X2: the two version bytes are printed and not read further.  Whatever
    stands at offsets 8 and 9 of a stream, [deserialiseIntoPacked] gives the
    same result. *)
Theorem version_ignored bytes major minor :
  deserialiseIntoPacked (<[8%nat := major]> (<[9%nat := minor]> bytes))
  = deserialiseIntoPacked bytes.
Proof.
  apply deserialise_agree.
  - by rewrite !take_insert_ge by lia.
  - by rewrite !drop_insert_lt by lia.
Qed.

End Streams.

(** ** Records and what is kept of them *)

Section Records.

Lemma decoded_pixel_positions boxSize (boxBytes : list Z) :
  0 <= boxSize ->
  pixel_at <$> PackedBox.data (decode_record (JNum boxSize) boxBytes) = row_major boxSize.
Proof.
  intros Hb. unfold decode_record. cbn [PackedBox.data].
  rewrite decode_pixels, row_major_flat, <- list_fmap_compose by done. done.
Qed.

Lemma decode_record_nil boxSize :
  0 <= boxSize -> decode_record (JNum boxSize) [] = missing_box boxSize.
Proof.
  intros Hb. unfold decode_record, missing_box.
  rewrite decode_pixels, row_major_flat, <- list_fmap_compose by done.
  f_equal. apply list_fmap_ext. intros i k _. cbn [compose fst snd]. f_equal.
  unfold JS.slice_from, JS.get. rewrite drop_nil.
  destruct (k <? 0); [done|]. by rewrite lookup_nil.
Qed.

(** X3: the deserializer does not compare the length of the stream with the
    box count of its header.  After a 16-byte header that declares [n] boxes
    of edge [boxSize] it returns [n] boxes of [boxSize * boxSize] pixels
    each, however many bytes follow; a box whose record starts at or past
    the end of the stream has [undefined] for its coordinates, for its
    colour components and for every index. *)
Theorem deserialise_short_stream boxSize width height n records :
  0 <= n < 2^24 -> 0 <= boxSize ->
  exists data,
    deserialiseIntoPacked (header_bytes boxSize width height n ++ records)
    = Normal (PackedImage.make (Size.make (JNum width) (JNum height)) (JNum boxSize) data)
    /\ Z.of_nat (length data) = n
    /\ (forall i box,
          data !! i = Some box ->
          pixel_at <$> PackedBox.data box = row_major boxSize
          /\ (Z.of_nat (length records) <= Z.of_nat i * (8 + boxSize * boxSize) ->
              box = missing_box boxSize)).
Proof.
  intros Hn Hb. eexists. split; [by apply deserialise_stream|]. split.
  - rewrite !length_fmap, length_seqZ. lia.
  - intros i box Hbox.
    rewrite <- list_fmap_compose, list_lookup_fmap in Hbox.
    destruct (seqZ 0 n !! i) as [k|] eqn:Hk; [|done].
    apply lookup_seqZ in Hk as [-> Hi].
    cbn [fmap option_fmap option_map compose] in Hbox. injection Hbox as <-.
    rewrite Z.add_0_l, read_box_decode, Nat2Z.id by lia. split.
    + by apply decoded_pixel_positions.
    + intros Hshort. rewrite drop_ge by nia. rewrite take_nil.
      by apply decode_record_nil.
Qed.

Lemma deserialise_short_stream_witness :
  exists data,
    deserialiseIntoPacked (header_bytes 1 1 2 2 ++ [0; 0; 9; 9; 9; 3; 3; 3; 1])
    = Normal (PackedImage.make (Size.make (JNum 1) (JNum 2)) (JNum 1) data)
    /\ Z.of_nat (length data) = 2
    /\ data !! 1%nat = Some (missing_box 1).
Proof.
  destruct (deserialise_short_stream 1 1 2 2 [0; 0; 9; 9; 9; 3; 3; 3; 1])
    as (data & Hdata & Hlen & Hboxes); [lia | lia |].
  exists data. split; [exact Hdata|]. split; [exact Hlen|].
  destruct (lookup_lt_is_Some_2 data 1) as [box Hbox]; [lia|].
  rewrite Hbox. f_equal. apply (Hboxes 1%nat box Hbox). cbn. lia.
Defined.

(** X4: bytes after the last record are not read.  A stream gives the same
    packed image as the stream cut after the [n] records its header
    declares. *)
Theorem deserialise_long_stream boxSize width height n records :
  0 <= n < 2^24 -> 0 <= boxSize ->
  deserialiseIntoPacked (header_bytes boxSize width height n ++ records)
  = deserialiseIntoPacked
      (header_bytes boxSize width height n
         ++ take (Z.to_nat (n * (8 + boxSize * boxSize))) records).
Proof.
  intros Hn Hb. rewrite !deserialise_stream by done. do 2 f_equal.
  rewrite <- !list_fmap_compose. apply list_fmap_ext. intros i k Hk.
  apply lookup_seqZ in Hk as [-> Hi]. cbn [compose].
  rewrite !read_box_decode by lia. f_equal.
  rewrite !take_drop_commute, take_take. f_equal. f_equal. nia.
Qed.

Lemma deserialise_long_stream_witness :
  deserialiseIntoPacked (header_bytes 1 1 1 1 ++ [0; 0; 9; 9; 9; 3; 3; 3; 1; 42; 42])
  = deserialiseIntoPacked (header_bytes 1 1 1 1 ++ [0; 0; 9; 9; 9; 3; 3; 3; 1]).
Proof.
  apply (deserialise_long_stream 1 1 1 1 [0; 0; 9; 9; 9; 3; 3; 3; 1; 42; 42]); lia.
Defined.

Lemma decode_record_stored boxSize box :
  0 <= boxSize ->
  pixel_at <$> PackedBox.data box = row_major boxSize ->
  decode_record (JNum boxSize) (record_bytes box) = stored_box box.
Proof.
  intros Hb Hrows.
  destruct box as [x y [lr lg lb] [dr dg db] pixels].
  cbn [PackedBox.data] in Hrows.
  unfold decode_record, record_bytes, box_record, stored_box, stored_color.
  cbn [PackedBox.x PackedBox.y PackedBox.light PackedBox.dark PackedBox.data
       Color.r Color.g Color.b].
  rewrite decode_pixels by done.
  rewrite !(get_lookup JNum _ 0), !(get_lookup JNum _ 1), !(get_lookup JNum _ 2),
    !(get_lookup JNum _ 3), !(get_lookup JNum _ 4), !(get_lookup JNum _ 5),
    !(get_lookup JNum _ 6), !(get_lookup JNum _ 7).
  cbn [fmap list_fmap app lookup list_lookup from_option].
  f_equal.
  change (JS.slice_from (?a0 :: ?a1 :: ?a2 :: ?a3 :: ?a4 :: ?a5 :: ?a6 :: ?a7 :: ?l) (JNum 8))
    with l.
  pose proof (length_row_major boxSize Hb) as Hlen.
  rewrite <- Hrows, length_fmap in Hlen.
  apply list_eq. intros i.
  rewrite !list_lookup_fmap.
  destruct (pixels !! i) as [pixel|] eqn:Hpixel.
  - pose proof (lookup_lt_Some _ _ _ Hpixel) as Hi.
    rewrite lookup_seqZ_lt by lia. cbn [fmap option_fmap option_map]. f_equal.
    rewrite Z.add_0_l, get_lookup, !list_lookup_fmap, Hpixel.
    cbn [fmap option_fmap option_map from_option].
    assert ((pixel_at <$> pixels) !! i = Some (pixel_at pixel)) as Hat
      by (by rewrite list_lookup_fmap, Hpixel).
    rewrite Hrows, row_major_flat, list_lookup_fmap, lookup_seqZ_lt in Hat by lia.
    cbn [fmap option_fmap option_map] in Hat. rewrite Z.add_0_l in Hat.
    destruct pixel as [px py pi]. unfold pixel_at in Hat. cbn in Hat.
    by injection Hat as <- <-.
  - pose proof (lookup_ge_None_1 _ _ Hpixel) as Hi.
    by rewrite lookup_seqZ_ge by lia.
Qed.

Lemma length_record_bytes boxSize box :
  0 <= boxSize ->
  pixel_at <$> PackedBox.data box = row_major boxSize ->
  length (record_bytes box) = Z.to_nat (8 + boxSize * boxSize).
Proof.
  intros Hb Hrows. unfold record_bytes, box_record.
  rewrite length_fmap, length_app, length_fmap. cbn [length].
  pose proof (length_row_major boxSize Hb) as Hlen.
  rewrite <- Hrows, length_fmap in Hlen. lia.
Qed.

(** Reading back the records that were written, whatever their fields. *)
Lemma read_stored_boxes boxSize (data : list PackedBox.t) :
  0 <= boxSize ->
  Forall (fun box => pixel_at <$> PackedBox.data box = row_major boxSize) data ->
  read_box (mjoin (record_bytes <$> data)) (JNum boxSize) (JNum (8 + boxSize * boxSize))
    <$> (JNum <$> seqZ 0 (Z.of_nat (length data)))
  = stored_box <$> data.
Proof.
  intros Hb Hdata.
  assert (Forall (fun l => length l = Z.to_nat (8 + boxSize * boxSize))
                 (record_bytes <$> data)) as Hsizes.
  { apply Forall_fmap. eapply Forall_impl; [exact Hdata|].
    intros box Hrows. by apply length_record_bytes. }
  apply list_eq. intros i. rewrite <- list_fmap_compose, !list_lookup_fmap.
  destruct (data !! i) as [box|] eqn:Hbox.
  - pose proof (lookup_lt_Some _ _ _ Hbox) as Hi.
    rewrite lookup_seqZ_lt by lia.
    cbn [fmap option_fmap option_map compose]. f_equal.
    rewrite Z.add_0_l, read_box_decode, Nat2Z.id by lia.
    rewrite (chunk_mjoin _ _ _ (record_bytes box) Hsizes)
      by (by rewrite list_lookup_fmap, Hbox).
    apply decode_record_stored; [done|].
    by apply (Forall_lookup_1 _ _ _ _ Hdata Hbox).
  - pose proof (lookup_ge_None_1 _ _ Hbox) as Hi.
    by rewrite lookup_seqZ_ge by lia.
Qed.

Lemma deserialise_records boxSize width height (data : list PackedBox.t) :
  0 <= boxSize -> Z.of_nat (length data) < 2^24 ->
  Forall (fun box => pixel_at <$> PackedBox.data box = row_major boxSize) data ->
  deserialiseIntoPacked
    (header_bytes boxSize width height (Z.of_nat (length data))
       ++ mjoin (record_bytes <$> data))
  = Normal (PackedImage.make (Size.make (JNum width) (JNum height)) (JNum boxSize)
              (stored_box <$> data)).
Proof.
  intros Hb Hcount Hdata.
  rewrite deserialise_stream by lia. by rewrite read_stored_boxes.
Qed.



End Records.

(** ** The colours of the two partitions *)

Section Partitions.

Lemma filter_byte_pixels (f : Pixel.t -> bool) (data : list Pixel.t) :
  Forall byte_pixel data -> Forall byte_pixel (List.filter f data).
Proof.
  induction 1 as [|pixel data Hpixel _ IH]; [constructor|].
  cbn [List.filter]. destruct (f pixel); [by constructor|done].
Qed.

Lemma filter_snoc {A} (f : A -> bool) (l : list A) (a : A) :
  List.filter f (l ++ [a]) = List.filter f l ++ (if f a then [a] else []).
Proof.
  induction l as [|b l IH]; [cbn; by destruct (f a)|].
  cbn [app List.filter]. rewrite IH. by destruct (f b).
Qed.

Lemma channel_sum_snoc channel pixels pixel :
  channel_sum channel (pixels ++ [pixel])
  = channel_sum channel pixels + JS.ToInteger (channel (Pixel.color pixel)).
Proof.
  unfold channel_sum. induction pixels as [|p pixels IH]; cbn [app foldr]; [lia|].
  rewrite IH. lia.
Qed.

Lemma totals_of_snoc pixels pixel :
  byte_pixel pixel ->
  totals_of (pixels ++ [pixel]) = Totals.add (totals_of pixels) (Pixel.color pixel).
Proof.
  destruct pixel as [x y [r g b]]. intros (Hr & Hg & Hb). cbn in Hr, Hg, Hb.
  destruct r as [| |r]; [destruct Hr..|].
  destruct g as [| |g]; [destruct Hg..|].
  destruct b as [| |b]; [destruct Hb..|].
  unfold totals_of, Totals.add. rewrite !channel_sum_snoc, length_app.
  cbn [Totals.r Totals.g Totals.b Totals.n Pixel.color Color.r Color.g Color.b
       JS.add JS.arith JS.ToInteger length].
  do 2 f_equal. lia.
Qed.

(** The totals of the two partitions are the sums over the light and over
    the dark pixels. *)
Lemma partition_sums avg data :
  Forall byte_pixel data ->
  partition_totals avg data
  = (totals_of (List.filter (is_light avg) data),
     totals_of (List.filter (fun pixel => negb (is_light avg pixel)) data)).
Proof.
  induction data as [|pixel data IH] using rev_ind; intros Hdata; [done|].
  apply Forall_app in Hdata as [Hdata Hpixel]. rewrite Forall_singleton in Hpixel.
  unfold partition_totals in *. rewrite fold_left_app, IH by done.
  cbn [fold_left fst snd]. rewrite !filter_snoc.
  destruct (is_light avg pixel); cbn [negb].
  - by rewrite totals_of_snoc, app_nil_r.
  - by rewrite totals_of_snoc, app_nil_r.
Qed.

Lemma channel_sum_bounds pixels :
  Forall byte_pixel pixels ->
  0 <= channel_sum Color.r pixels <= 255 * Z.of_nat (length pixels)
  /\ 0 <= channel_sum Color.g pixels <= 255 * Z.of_nat (length pixels)
  /\ 0 <= channel_sum Color.b pixels <= 255 * Z.of_nat (length pixels).
Proof.
  induction 1 as [|pixel pixels Hpixel _ IH]; [cbn; lia|].
  destruct pixel as [x y [r g b]]. destruct Hpixel as (Hr & Hg & Hb). cbn in Hr, Hg, Hb.
  destruct r as [| |r]; [destruct Hr..|].
  destruct g as [| |g]; [destruct Hg..|].
  destruct b as [| |b]; [destruct Hb..|].
  cbn in Hr, Hg, Hb. unfold channel_sum in *.
  cbn [foldr Pixel.color Color.r Color.g Color.b JS.ToInteger length]. lia.
Qed.

Lemma mean_color_totals pixels :
  mean_color (totals_of pixels)
  = match pixels with
    | [] => Color.make JNaN JNaN JNaN
    | _ => mean_of pixels
    end.
Proof.
  destruct pixels as [|pixel pixels]; [done|].
  unfold mean_color, totals_of, mean_of, rgb, floor_div.
  cbn [Totals.r Totals.g Totals.b Totals.n].
  destruct (Z.eqb_spec (Z.of_nat (length (pixel :: pixels))) 0) as [H|_]; [|done].
  cbn [length] in H. lia.
Qed.

Lemma byte_mean pixels :
  Forall byte_pixel pixels -> pixels <> [] -> byte_color (mean_of pixels).
Proof.
  intros Hbytes Hne.
  assert (0 < Z.of_nat (length pixels)) as Hn by (destruct pixels; [done|cbn; lia]).
  destruct (channel_sum_bounds pixels Hbytes) as (Hr & Hg & Hb).
  unfold mean_of, byte_color, rgb, is_byte. cbn [Color.r Color.g Color.b].
  repeat split; try (apply Z.div_pos; lia);
    apply Z.div_lt_upper_bound; lia.
Qed.

Lemma pack_box_colors box :
  Forall byte_pixel (Box.data box) ->
  PackedBox.light (pack_box box) = mean_color (totals_of (light_pixels box))
  /\ PackedBox.dark (pack_box box) = mean_color (totals_of (dark_pixels box)).
Proof.
  intros Hbytes. unfold pack_box. cbn [PackedBox.light PackedBox.dark].
  by rewrite partition_sums.
Qed.

(** The colour of the partition a pixel of the box lies in is a colour of
    8-bit channels. *)
Lemma byte_light box pixel :
  Forall byte_pixel (Box.data box) -> pixel ∈ Box.data box ->
  is_light (averageLuminance (Box.data box)) pixel = true ->
  byte_color (PackedBox.light (pack_box box)).
Proof.
  intros Hbytes Hin Hlight.
  destruct (pack_box_colors box Hbytes) as [-> _].
  assert (light_pixels box <> []) as Hne.
  { intros Hnil. apply list_elem_of_In in Hin.
    assert (In pixel (light_pixels box)) as Hp by (apply filter_In; done).
    by rewrite Hnil in Hp. }
  rewrite mean_color_totals.
  destruct (light_pixels box) eqn:Hl; [done|]. rewrite <- Hl in *.
  apply byte_mean; [|done]. by apply filter_byte_pixels.
Qed.

Lemma byte_dark box pixel :
  Forall byte_pixel (Box.data box) -> pixel ∈ Box.data box ->
  is_light (averageLuminance (Box.data box)) pixel = false ->
  byte_color (PackedBox.dark (pack_box box)).
Proof.
  intros Hbytes Hin Hdark.
  destruct (pack_box_colors box Hbytes) as [_ ->].
  assert (dark_pixels box <> []) as Hne.
  { intros Hnil. apply list_elem_of_In in Hin.
    assert (In pixel (dark_pixels box)) as Hp by (apply filter_In; by rewrite Hdark).
    by rewrite Hnil in Hp. }
  rewrite mean_color_totals.
  destruct (dark_pixels box) eqn:Hl; [done|]. rewrite <- Hl in *.
  apply byte_mean; [|done]. by apply filter_byte_pixels.
Qed.

(** X6: the two colours [pack] gives a box of pixels with 8-bit channels.
    The colour of a partition that holds a pixel is, channel by channel, the
    sum over its pixels divided by their number and rounded down, a colour
    of 8-bit channels again; the colour of a partition without pixels is
    [NaN] in its three components.  A box that is not empty has a pixel in
    one of the two partitions at least. *)
Theorem representative_colors box :
  Forall byte_pixel (Box.data box) ->
  let packed := pack_box box in
  (light_pixels box = [] -> PackedBox.light packed = Color.make JNaN JNaN JNaN)
  /\ (light_pixels box <> [] ->
      PackedBox.light packed = mean_of (light_pixels box)
      /\ byte_color (PackedBox.light packed))
  /\ (dark_pixels box = [] -> PackedBox.dark packed = Color.make JNaN JNaN JNaN)
  /\ (dark_pixels box <> [] ->
      PackedBox.dark packed = mean_of (dark_pixels box)
      /\ byte_color (PackedBox.dark packed))
  /\ (Box.data box <> [] -> light_pixels box <> [] \/ dark_pixels box <> []).
Proof.
  intros Hbytes packed. subst packed.
  destruct (pack_box_colors box Hbytes) as [-> ->].
  rewrite !mean_color_totals.
  split; [by intros ->|]. split; [|split; [by intros ->|split]].
  - intros Hne. destruct (light_pixels box) eqn:Hl; [done|]. rewrite <- Hl in *.
    split; [done|]. apply byte_mean; [|done]. by apply filter_byte_pixels.
  - intros Hne. destruct (dark_pixels box) eqn:Hl; [done|]. rewrite <- Hl in *.
    split; [done|]. apply byte_mean; [|done]. by apply filter_byte_pixels.
  - intros Hne.
    pose proof (filter_split_length (is_light (averageLuminance (Box.data box)))
                  (Box.data box)) as Hsplit.
    fold (light_pixels box) (dark_pixels box) in Hsplit.
    destruct (light_pixels box); [right|by left].
    destruct (dark_pixels box); [|done].
    cbn in Hsplit. destruct (Box.data box); [done|]. cbn in Hsplit. lia.
Qed.

Lemma representative_colors_witness :
  PackedBox.light (pack_box two_tone_box) = rgb 225 225 225
  /\ PackedBox.dark (pack_box two_tone_box) = rgb 10 10 10.
Proof.
  destruct (representative_colors two_tone_box) as (_ & Hlight & _ & Hdark & _).
  - repeat constructor; cbn; lia.
  - split.
    + destruct Hlight as [-> _]; [vm_compute; discriminate|].
      vm_compute. reflexivity.
    + destruct Hdark as [-> _]; [vm_compute; discriminate|].
      vm_compute. reflexivity.
Defined.

End Partitions.

(** ** The range of the luminance *)

Section LuminanceRange.
Open Scope float_scope.

Lemma luminance_le_white r g b :
  (0 <= r <= 255)%Z -> (0 <= g <= 255)%Z -> (0 <= b <= 255)%Z ->
  (getLuminance (rgb r g b) <=? getLuminance (rgb 255 255 255)) = true.
Proof.
  intros Hr Hg Hb.
  eapply leb_trans; [apply (luminance_le_r r 255 g b); lia|].
  eapply leb_trans; [apply (luminance_le_g 255 g 255 b); lia|].
  apply (luminance_le_b 255 255 b 255); lia.
Qed.

(** X7: the luminance of a colour of 8-bit channels is a number from 0 to
    the luminance of white, the binary64 number just below 1: it is never
    [NaN], never negative, and never reaches 1. *)
Theorem luminance_range c :
  byte_color c ->
  (0 <=? getLuminance c) = true
  /\ (getLuminance c <=? 0x1.fffffffffffffp-1) = true
  /\ (0x1.fffffffffffffp-1 <? 1) = true.
Proof.
  intros Hc. split; [by apply getLuminance_nonneg|]. split; [|reflexivity].
  destruct c as [r g b]. destruct Hc as (Hr & Hg & Hb). cbn in Hr, Hg, Hb.
  destruct r as [| |r]; [destruct Hr..|].
  destruct g as [| |g]; [destruct Hg..|].
  destruct b as [| |b]; [destruct Hb..|].
  cbn in Hr, Hg, Hb.
  change (Color.make (JNum r) (JNum g) (JNum b)) with (rgb r g b).
  change 0x1.fffffffffffffp-1 with (getLuminance (rgb 255 255 255)).
  apply luminance_le_white; lia.
Qed.

Lemma luminance_range_witness :
  (0 <=? getLuminance (rgb 12 200 255)) = true
  /\ (getLuminance (rgb 12 200 255) <=? 0x1.fffffffffffffp-1) = true.
Proof.
  destruct (luminance_range (rgb 12 200 255)) as (H0 & H1 & _).
  - unfold byte_color, rgb, is_byte. cbn [Color.r Color.g Color.b]. lia.
  - split; [exact H0|exact H1].
Defined.

End LuminanceRange.

(** ** The pixels of the boxes *)

Section Boxes.

Lemma box_pixels_flat image imageData width boxSize xStart yStart :
  Image.width image = JNum width -> 0 <= boxSize ->
  box_pixels image imageData (JNum boxSize) (JNum xStart) (JNum yStart)
  = (fun k => Pixel.make (JNum (k mod boxSize)) (JNum (k / boxSize))
                (source_color imageData width (xStart + k mod boxSize)
                              (yStart + k / boxSize)))
      <$> seqZ 0 (boxSize * boxSize).
Proof.
  intros Hwidth Hb.
  rewrite <- (grid_flat (fun x y => Pixel.make (JNum x) (JNum y)
                           (source_color imageData width (xStart + x) (yStart + y))))
    by done.
  unfold box_pixels. cbn [JS.upto]. rewrite list_fmap_bind.
  apply list_bind_ext; [|done]. intros y. cbn [compose]. rewrite list_fmap_bind.
  apply list_bind_ext; [|done]. intros x. cbn [compose]. by rewrite Hwidth.
Qed.

Lemma grid_lookup {A} (F : Z -> Z -> A) (w h x y : Z) :
  0 <= x < w -> 0 <= y < h ->
  (j ← seqZ 0 h; i ← seqZ 0 w; [F i j]) !! Z.to_nat (y * w + x) = Some (F x y).
Proof.
  intros Hx Hy. rewrite grid_flat by lia.
  rewrite list_lookup_fmap, lookup_seqZ_lt by nia.
  cbn [fmap option_fmap option_map]. rewrite Z.add_0_l, Z2Nat.id by nia.
  f_equal. f_equal.
  - rewrite Z.add_comm, Z.mod_add by lia. apply Z.mod_small. lia.
  - rewrite Z.div_add_l by lia. rewrite (Z.div_small x w) by lia. lia.
Qed.

(** X8: where [boxify] puts each pixel.  For a positive [boxSize], the box
    at column [X] and row [Y] of the grid is the element [Y * (w / boxSize) + X]
    of the list, and its element [y * boxSize + x] is the pixel of local
    coordinates [(x, y)] with the red, green and blue channels of the
    source pixel at column [X * boxSize + x] and row [Y * boxSize + y]; the
    alpha channel is not copied. *)
Theorem boxify_pixels image width height boxSize fuel X Y x y :
  Image.width image = JNum width -> Image.height image = JNum height ->
  0 <= width -> 0 <= height -> 0 < boxSize ->
  (Z.to_nat (width / boxSize) <= fuel)%nat ->
  (Z.to_nat (height / boxSize) <= fuel)%nat ->
  0 <= X < width / boxSize -> 0 <= Y < height / boxSize ->
  0 <= x < boxSize -> 0 <= y < boxSize ->
  exists boxed box,
    boxify fuel image (JNum boxSize) = Some boxed
    /\ BoxedImage.data boxed !! Z.to_nat (Y * (width / boxSize) + X) = Some box
    /\ Box.x box = JNum X /\ Box.y box = JNum Y
    /\ Box.data box !! Z.to_nat (y * boxSize + x)
       = Some (Pixel.make (JNum x) (JNum y)
                 (source_color (Image.data image) width
                               (X * boxSize + x) (Y * boxSize + y))).
Proof.
  intros Hwidth Hheight Hw Hh Hb Hfw Hfh HX HY Hx Hy.
  eexists _, (box_at image boxSize X Y). split; [by eapply boxify_grid|].
  cbn [BoxedImage.data]. split; [by apply grid_lookup|].
  split; [done|]. split; [done|].
  unfold box_at. cbn [Box.data].
  rewrite (box_pixels_flat _ _ width) by (done || lia).
  rewrite list_lookup_fmap, lookup_seqZ_lt by nia.
  cbn [fmap option_fmap option_map]. rewrite Z.add_0_l, Z2Nat.id by nia.
  assert ((y * boxSize + x) mod boxSize = x) as ->.
  { rewrite Z.add_comm, Z.mod_add by lia. apply Z.mod_small. lia. }
  assert ((y * boxSize + x) / boxSize = y) as ->; [|done].
  rewrite Z.div_add_l by lia. rewrite (Z.div_small x boxSize) by lia. lia.
Qed.

Lemma boxify_pixels_witness :
  exists boxed box,
    boxify 2 four_pixels (JNum 1) = Some boxed
    /\ BoxedImage.data boxed !! 3%nat = Some box
    /\ Box.x box = JNum 1 /\ Box.y box = JNum 1
    /\ Box.data box !! 0%nat = Some (Pixel.make (JNum 0) (JNum 0) (rgb 250 250 250)).
Proof.
  destruct (boxify_pixels four_pixels 2 2 1 2 1 1 0 0)
    as (boxed & box & Hboxed & Hbox & Hx & Hy & Hpixel);
    [reflexivity | reflexivity | lia | lia | lia | vm_compute; lia | vm_compute; lia
    | vm_compute; split; [discriminate | reflexivity]
    | vm_compute; split; [discriminate | reflexivity] | lia | lia |].
  exists boxed, box. split; [exact Hboxed|]. split; [exact Hbox|].
  split; [exact Hx|]. split; [exact Hy|]. exact Hpixel.
Defined.

Lemma box_at_agree image image' width boxSize X Y :
  Image.width image = JNum width -> Image.width image' = JNum width ->
  0 < boxSize -> 0 <= X -> 0 <= Y ->
  (forall px py,
     X * boxSize <= px < (X + 1) * boxSize -> Y * boxSize <= py < (Y + 1) * boxSize ->
     source_color (Image.data image) width px py
     = source_color (Image.data image') width px py) ->
  box_at image boxSize X Y = box_at image' boxSize X Y.
Proof.
  intros Hwidth Hwidth' Hb HX HY Hsame. unfold box_at. f_equal.
  rewrite !(box_pixels_flat _ _ width) by (done || lia).
  apply list_fmap_ext. intros i k Hk. apply lookup_seqZ in Hk as [-> Hi].
  f_equal.
  pose proof (Z.mod_pos_bound (0 + Z.of_nat i) boxSize Hb).
  assert (0 <= (0 + Z.of_nat i) / boxSize < boxSize).
  { split; [apply Z.div_pos; lia|]. apply Z.div_lt_upper_bound; nia. }
  apply Hsame; nia.
Qed.

(** X9: [boxify] and [compress] read the red, green and blue channels of
    the pixels inside the cropped area and nothing else.  Two bitmaps of the
    same width and height that agree on these channels, for every pixel
    whose column is below [(width / boxSize) * boxSize] and whose row is
    below [(height / boxSize) * boxSize], give the same boxes and the same
    file: the alpha channel and the cropped margin have no influence. *)
Theorem boxify_reads_rgb image image' width height boxSize fuel :
  Image.width image = JNum width -> Image.height image = JNum height ->
  Image.width image' = JNum width -> Image.height image' = JNum height ->
  0 <= width -> 0 <= height -> 0 < boxSize ->
  (Z.to_nat (width / boxSize) <= fuel)%nat ->
  (Z.to_nat (height / boxSize) <= fuel)%nat ->
  (forall px py,
     0 <= px < width / boxSize * boxSize -> 0 <= py < height / boxSize * boxSize ->
     source_color (Image.data image) width px py
     = source_color (Image.data image') width px py) ->
  (exists boxed, boxify fuel image (JNum boxSize) = Some boxed
                 /\ boxify fuel image' (JNum boxSize) = Some boxed)
  /\ compress fuel image (JNum boxSize) = compress fuel image' (JNum boxSize).
Proof.
  intros Hwidth Hheight Hwidth' Hheight' Hw Hh Hb Hfw Hfh Hsame.
  assert (boxify fuel image' (JNum boxSize) = boxify fuel image (JNum boxSize)) as Heq.
  { rewrite (boxify_grid image width height), (boxify_grid image' width height) by done.
    do 2 f_equal.
    assert (0 <= width / boxSize) by (apply Z.div_pos; lia).
    assert (0 <= height / boxSize) by (apply Z.div_pos; lia).
    rewrite !(grid_flat (fun x y => box_at _ boxSize x y)) by done.
    apply list_fmap_ext. intros i k Hk. apply lookup_seqZ in Hk as [-> Hi].
    destruct (decide (width / boxSize = 0)) as [Hz|Hz]; [nia|].
    pose proof (Z.mod_pos_bound (0 + Z.of_nat i) (width / boxSize) ltac:(lia)).
    assert (0 <= (0 + Z.of_nat i) / (width / boxSize) < height / boxSize).
    { split; [apply Z.div_pos; lia|]. apply Z.div_lt_upper_bound; nia. }
    symmetry. apply (box_at_agree image image' width); try done; try lia.
    intros px py Hpx Hpy. apply Hsame; nia. }
  split.
  - rewrite Heq. rewrite (boxify_grid image width height) by done. eauto.
  - unfold compress. by rewrite Heq.
Qed.

Lemma boxify_reads_rgb_witness :
  compress 1 one_pixel (JNum 1)
  = compress 1 (Image.make (JNum 1) (JNum 1) [JNum 10; JNum 10; JNum 10; JNum 0]) (JNum 1).
Proof.
  apply (boxify_reads_rgb one_pixel
           (Image.make (JNum 1) (JNum 1) [JNum 10; JNum 10; JNum 10; JNum 0]) 1 1 1 1);
    [reflexivity | reflexivity | reflexivity | reflexivity | lia | lia | lia
    | vm_compute; lia | vm_compute; lia |].
  intros px py Hpx Hpy. change (1 / 1 * 1) with 1 in Hpx, Hpy.
  assert (px = 0) as -> by lia. assert (py = 0) as -> by lia. reflexivity.
Defined.

Lemma for_step_never {St : Type} (body : value -> St -> option St)
    (fuel : nat) (i bound step : Z) (s : St) :
  step <= 0 -> i < bound ->
  for_step fuel (JNum i) (JNum bound) (JNum step) body s = None.
Proof.
  intros Hstep. revert i s. induction fuel as [|fuel IH]; intros i s Hi.
  - cbn [for_step JS.lt]. by destruct (Z.ltb_spec i bound); [|lia].
  - cbn [for_step JS.lt]. destruct (Z.ltb_spec i bound); [|lia].
    destruct (body (JNum i) s); [|done].
    cbn [JS.add JS.arith]. apply IH. lia.
Qed.

(** X10: a negative box size is not rejected and the loops of [boxify] do
    not end.  For an image at least as high as the box size is large in
    absolute value, the start of the rows stays below the bound after every
    step, so no number of iterations lets [boxify], or [compress], return. *)
Theorem negative_box_size_loops image width height boxSize fuel :
  Image.width image = JNum width -> Image.height image = JNum height ->
  boxSize < 0 -> - boxSize <= height ->
  boxify fuel image (JNum boxSize) = None
  /\ compress fuel image (JNum boxSize) = None.
Proof.
  intros Hwidth Hheight Hb Hh.
  assert (boxify fuel image (JNum boxSize) = None) as Hboxify.
  { unfold boxify. rewrite Hwidth, Hheight.
    cbn [JS.rem JS.sub JS.arith Size.width Size.height].
    destruct (Z.eqb_spec boxSize 0) as [|_]; [lia|].
    cbn [JS.sub JS.arith Size.width Size.height].
    rewrite for_step_never; [done|lia|].
    pose proof (Z.rem_bound_pos height (- boxSize) ltac:(lia) ltac:(lia)) as Hrem.
    rewrite Z.rem_opp_r in Hrem by lia. lia. }
  split; [done|].
  unfold compress. cbn [JS.not]. destruct (Z.eqb_spec boxSize 0) as [|_]; [lia|].
  by rewrite Hboxify.
Qed.

Lemma negative_box_size_loops_witness :
  boxify 1000 four_pixels (JNum (-2)) = None
  /\ compress 1000 four_pixels (JNum (-2)) = None.
Proof.
  apply (negative_box_size_loops four_pixels 2 2 (-2) 1000);
    [reflexivity | reflexivity | lia | lia].
Defined.

End Boxes.

(** ** From the bitmap to the bitmap *)

Section Pipeline.

Lemma box_at_data image width boxSize X Y :
  Image.width image = JNum width -> 0 <= boxSize ->
  Box.data (box_at image boxSize X Y)
  = (fun k => Pixel.make (JNum (k mod boxSize)) (JNum (k / boxSize))
                (source_color (Image.data image) width
                              (X * boxSize + k mod boxSize) (Y * boxSize + k / boxSize)))
      <$> seqZ 0 (boxSize * boxSize).
Proof. intros Hwidth Hb. unfold box_at. cbn [Box.data]. by apply box_pixels_flat. Qed.

Lemma packed_entries image width boxSize W H :
  Image.width image = JNum width -> 0 < boxSize -> 0 <= W -> 0 <= H ->
  entries (pack_box <$> (y ← seqZ 0 H; x ← seqZ 0 W; [box_at image boxSize x y]))
  = (fun n =>
       entry_at image width boxSize
         (n / (boxSize * boxSize) mod W) (n / (boxSize * boxSize) / W)
         (n mod (boxSize * boxSize) mod boxSize) (n mod (boxSize * boxSize) / boxSize))
      <$> seqZ 0 (H * W * (boxSize * boxSize)).
Proof.
  intros Hwidth Hb HW HH.
  rewrite (grid_flat (fun x y => box_at image boxSize x y)) by done.
  rewrite <- list_fmap_compose. unfold entries. rewrite list_fmap_bind.
  rewrite <- (grid_flat (fun k j => entry_at image width boxSize (j mod W) (j / W)
                                      (k mod boxSize) (k / boxSize))) by nia.
  apply list_bind_ext; [|done]. intros j. cbn [compose].
  rewrite pack_box_data.
  set (avg := averageLuminance _).
  rewrite (box_at_data image width) by (done || lia).
  rewrite <- list_fmap_compose, list_fmap_bind.
  apply list_bind_ext; [|done]. intros k. reflexivity.
Qed.

Lemma target_entry_at image width boxSize W X Y x y :
  target (JNum W) (JNum boxSize) (entry_at image width boxSize X Y x y)
  = JNum ((W * (Y * boxSize + y) + (X * boxSize + x)) * 4).
Proof. reflexivity. Qed.

Lemma digits_div_mod base q r :
  0 <= r < base -> (q * base + r) / base = q /\ (q * base + r) mod base = r.
Proof.
  intros Hr. split.
  - symmetry. apply (Z.div_unique _ _ _ r); lia.
  - symmetry. apply (Z.mod_unique _ _ q); lia.
Qed.

Lemma digits_unique base q r q' r' :
  0 <= r < base -> 0 <= r' < base -> q * base + r = q' * base + r' ->
  q = q' /\ r = r'.
Proof.
  intros Hr Hr' Heq.
  destruct (digits_div_mod base q r Hr) as [Hq Hm].
  destruct (digits_div_mod base q' r' Hr') as [Hq' Hm'].
  rewrite Heq in Hq, Hm. split; congruence.
Qed.

Lemma entry_color_entry_at image width boxSize X Y x y :
  0 <= x < boxSize -> 0 <= y < boxSize ->
  entry_color (entry_at image width boxSize X Y x y)
  = quantised image width boxSize (X * boxSize + x) (Y * boxSize + y).
Proof.
  intros Hx Hy. unfold quantised.
  destruct (digits_div_mod boxSize X x Hx) as [-> _].
  destruct (digits_div_mod boxSize Y y Hy) as [-> _].
  unfold entry_color, entry_at, is_light.
  cbn [fst snd PackedPixel.index Pixel.color].
  by destruct (_ <=? _)%float.
Qed.

(** The digits of the position of an entry in the list of the entries. *)
Lemma entry_digits boxSize W H n :
  0 < boxSize -> 0 <= H -> 0 <= n < H * W * (boxSize * boxSize) ->
  let j := n / (boxSize * boxSize) in
  let k := n mod (boxSize * boxSize) in
  0 <= j mod W < W /\ 0 <= j / W < H
  /\ 0 <= k mod boxSize < boxSize /\ 0 <= k / boxSize < boxSize
  /\ n = ((j / W * W + j mod W) * boxSize + k / boxSize) * boxSize + k mod boxSize.
Proof.
  intros Hb HH Hn j k.
  assert (0 < boxSize * boxSize) as Hbb by nia.
  assert (0 < H * W) as HHW by nia.
  assert (0 < W) as HW by nia.
  pose proof (Z.div_mod n (boxSize * boxSize) ltac:(lia)) as Hjk. fold j k in Hjk.
  pose proof (Z.mod_pos_bound n (boxSize * boxSize) Hbb) as Hk. fold k in Hk.
  assert (0 <= j < H * W) as Hj.
  { subst j. split; [apply Z.div_pos; lia|]. apply Z.div_lt_upper_bound; nia. }
  pose proof (Z.div_mod j W ltac:(lia)) as HXY.
  pose proof (Z.mod_pos_bound j W HW) as HX.
  pose proof (Z.div_mod k boxSize ltac:(lia)) as Hxy.
  pose proof (Z.mod_pos_bound k boxSize Hb) as Hx.
  assert (0 <= j / W < H) as HY.
  { split; [apply Z.div_pos; lia|]. apply Z.div_lt_upper_bound; nia. }
  assert (0 <= k / boxSize < boxSize) as Hy.
  { split; [apply Z.div_pos; lia|]. apply Z.div_lt_upper_bound; nia. }
  repeat split; try lia; nia.
Qed.

Lemma targets_NoDup image width boxSize W H :
  0 < boxSize -> 0 <= H ->
  NoDup (target (JNum (W * boxSize)) (JNum boxSize)
           <$> ((fun n =>
                   entry_at image width boxSize
                     (n / (boxSize * boxSize) mod W) (n / (boxSize * boxSize) / W)
                     (n mod (boxSize * boxSize) mod boxSize)
                     (n mod (boxSize * boxSize) / boxSize))
                  <$> seqZ 0 (H * W * (boxSize * boxSize)))).
Proof.
  intros Hb HH. rewrite <- list_fmap_compose.
  apply NoDup_fmap_2_strong; [|apply NoDup_seqZ].
  intros n n' Hn Hn' Heq. apply elem_of_seqZ in Hn, Hn'.
  cbn [compose] in Heq. rewrite !target_entry_at in Heq. injection Heq as Heq.
  destruct (entry_digits boxSize W H n Hb HH ltac:(lia)) as (HX & HY & Hx & Hy & ->).
  destruct (entry_digits boxSize W H n' Hb HH ltac:(lia)) as (HX' & HY' & Hx' & Hy' & ->).
  cbn zeta in *.
  generalize dependent (n / (boxSize * boxSize) mod W). intros X ? ?.
  generalize dependent (n / (boxSize * boxSize) / W). intros Y ? ?.
  generalize dependent (n mod (boxSize * boxSize) mod boxSize). intros x ? ?.
  generalize dependent (n mod (boxSize * boxSize) / boxSize). intros y ? ?.
  generalize dependent (n' / (boxSize * boxSize) mod W). intros X' ? ?.
  generalize dependent (n' / (boxSize * boxSize) / W). intros Y' ? ?.
  generalize dependent (n' mod (boxSize * boxSize) mod boxSize). intros x' ? ?.
  generalize dependent (n' mod (boxSize * boxSize) / boxSize). intros y' ? ?.
  destruct (digits_unique (W * boxSize) (Y * boxSize + y) (X * boxSize + x)
              (Y' * boxSize + y') (X' * boxSize + x')) as [HA HB]; [nia|nia|lia|].
  destruct (digits_unique boxSize Y y Y' y') as [-> ->]; [lia|lia|lia|].
  destruct (digits_unique boxSize X x X' x') as [-> ->]; [lia|lia|lia|].
  reflexivity.
Qed.

Lemma filter_singleton {A B} `{EqDecision B} (f : A -> B) (l : list A) (e : A) :
  NoDup (f <$> l) -> e ∈ l -> filter (fun a => f a = f e) l = [e].
Proof.
  intros Hnodup He.
  pose proof (filter_unique f (f e) l Hnodup) as Hlen.
  assert (e ∈ filter (fun a => f a = f e) l) as Hin by (by apply list_elem_of_filter).
  destruct (filter _ l) as [|a [|a' t]]; [by apply elem_of_nil in Hin| |cbn in Hlen; lia].
  by apply list_elem_of_singleton in Hin as ->.
Qed.

Lemma max_list_with_le {A} (f : A -> nat) (l : list A) (m : nat) :
  Forall (fun a => (f a <= m)%nat) l -> (max_list_with f l <= m)%nat.
Proof. induction 1; cbn [max_list_with]; lia. Qed.

(** The bitmap [unpack] builds from the packed boxes of a bitmap. *)
Lemma unpack_packed image width height boxSize fuel :
  Image.width image = JNum width -> Image.height image = JNum height ->
  0 <= width -> 0 <= height -> 0 < boxSize ->
  (Z.to_nat (width / boxSize) <= fuel)%nat ->
  (Z.to_nat (height / boxSize) <= fuel)%nat ->
  width / boxSize * boxSize * (height / boxSize * boxSize) * 4 < 2^32 ->
  exists boxed imageData,
    boxify fuel image (JNum boxSize) = Some boxed
    /\ unpack (pack boxed)
       = Normal (Image.make (JNum (width / boxSize * boxSize))
                            (JNum (height / boxSize * boxSize)) imageData)
    /\ Z.of_nat (length imageData)
       = width / boxSize * boxSize * (height / boxSize * boxSize) * 4
    /\ forall px py,
         0 <= px < width / boxSize * boxSize -> 0 <= py < height / boxSize * boxSize ->
         pixel_read imageData ((width / boxSize * boxSize * py + px) * 4)
         = opaque (quantised image width boxSize px py).
Proof.
  intros Hwidth Hheight Hw Hh Hb Hfw Hfh Hsize.
  assert (0 <= width / boxSize) as HW by (apply Z.div_pos; lia).
  assert (0 <= height / boxSize) as HH by (apply Z.div_pos; lia).
  set (W := width / boxSize) in *. set (H := height / boxSize) in *.
  eexists _, _. split; [by eapply boxify_grid|].
  rewrite pack_fmap. cbn [BoxedImage.size BoxedImage.boxSize BoxedImage.data].
  fold W H.
  rewrite (unpack_unfold _ W H boxSize) by (done || nia).
  cbn [PackedImage.data]. rewrite (packed_entries image width) by done.
  split; [reflexivity|].
  set (channels := W * boxSize * (H * boxSize) * 4) in *.
  split.
  - rewrite length_writes, length_full_alpha, length_replicate.
    assert (max_list_with (reach (JNum (W * boxSize)) (JNum boxSize))
              ((fun n =>
                  entry_at image width boxSize
                    (n / (boxSize * boxSize) mod W) (n / (boxSize * boxSize) / W)
                    (n mod (boxSize * boxSize) mod boxSize)
                    (n mod (boxSize * boxSize) / boxSize))
                 <$> seqZ 0 (H * W * (boxSize * boxSize)))
            <= Z.to_nat channels)%nat as Hmax; [|lia].
    apply max_list_with_le, Forall_fmap, Forall_seqZ. intros n Hn. cbn [compose].
    unfold reach. rewrite target_entry_at.
    destruct (entry_digits boxSize W H n Hb HH ltac:(lia)) as (HX & HY & Hx & Hy & _).
    cbn zeta in *.
    generalize dependent (n / (boxSize * boxSize) mod W). intros X ?.
    generalize dependent (n / (boxSize * boxSize) / W). intros Y ?.
    generalize dependent (n mod (boxSize * boxSize) mod boxSize). intros x ?.
    generalize dependent (n mod (boxSize * boxSize) / boxSize). intros y ?.
    assert (0 <= Y * boxSize + y <= H * boxSize - 1) as HA by nia.
    assert (0 <= X * boxSize + x <= W * boxSize - 1) as HB by nia.
    generalize dependent (Y * boxSize + y). intros A HA.
    generalize dependent (X * boxSize + x). intros B HB.
    assert (0 <= W * boxSize * A + B < W * boxSize * (H * boxSize)) by nia.
    destruct (Z.ltb_spec ((W * boxSize * A + B) * 4) 0); [lia|]. subst channels. lia.
  - intros px py Hpx Hpy.
    rewrite read_after_writes by (try apply Z_mod_mult; nia).
    pose proof (Z.div_mod px boxSize ltac:(lia)) as HpX.
    pose proof (Z.mod_pos_bound px boxSize Hb) as Hpx'.
    pose proof (Z.div_mod py boxSize ltac:(lia)) as HpY.
    pose proof (Z.mod_pos_bound py boxSize Hb) as Hpy'.
    assert (0 <= px / boxSize < W) as HX.
    { split; [apply Z.div_pos; lia|]. apply Z.div_lt_upper_bound; nia. }
    assert (0 <= py / boxSize < H) as HY.
    { split; [apply Z.div_pos; lia|]. apply Z.div_lt_upper_bound; nia. }
    set (e := entry_at image width boxSize (px / boxSize) (py / boxSize)
                       (px mod boxSize) (py mod boxSize)).
    assert (target (JNum (W * boxSize)) (JNum boxSize) e
            = JNum ((W * boxSize * py + px) * 4)) as Htarget.
    { subst e. rewrite target_entry_at. do 2 f_equal. lia. }
    rewrite <- Htarget.
    rewrite (filter_singleton (target (JNum (W * boxSize)) (JNum boxSize)) _ e).
    + cbn [last]. subst e. rewrite entry_color_entry_at by lia.
      do 2 f_equal; lia.
    + by apply targets_NoDup.
    + set (n := ((py / boxSize * W + px / boxSize) * boxSize + py mod boxSize) * boxSize
                + px mod boxSize).
      apply (list_elem_of_fmap_2' _ _ n).
      * apply elem_of_seqZ. subst n. nia.
      * subst e n.
        assert (0 <= py mod boxSize * boxSize + px mod boxSize < boxSize * boxSize)
          as Hk by nia.
        replace (((py / boxSize * W + px / boxSize) * boxSize + py mod boxSize) * boxSize
                 + px mod boxSize)
          with ((py / boxSize * W + px / boxSize) * (boxSize * boxSize)
                + (py mod boxSize * boxSize + px mod boxSize)) by lia.
        destruct (digits_div_mod (boxSize * boxSize) (py / boxSize * W + px / boxSize)
                    (py mod boxSize * boxSize + px mod boxSize) Hk) as [-> ->].
        destruct (digits_div_mod W (py / boxSize) (px / boxSize) HX) as [-> ->].
        destruct (digits_div_mod boxSize (py mod boxSize) (px mod boxSize) Hpx')
          as [-> ->].
        reflexivity.
Qed.

Lemma box_at_bytes image width height boxSize X Y :
  bitmap image width height -> 0 < boxSize ->
  0 <= X < width / boxSize -> 0 <= Y < height / boxSize ->
  Forall byte_pixel (Box.data (box_at image boxSize X Y)).
Proof.
  intros (Hwidth & Hheight & Hw & Hh & bytes & Hdata & Hbytes & Hlen) Hb HX HY.
  destruct (boxify_byte_pixels image width height boxSize
              (Z.to_nat (width / boxSize) `max` Z.to_nat (height / boxSize)) bytes)
    as (boxed & Hboxed & Hall); try done; try lia.
  rewrite (boxify_grid image width height) in Hboxed by (done || lia).
  injection Hboxed as <-. cbn [BoxedImage.data] in Hall.
  eapply Forall_lookup_1 in Hall;
    [|by apply (grid_lookup (fun x y => box_at image boxSize x y) _ _ X Y)].
  by destruct Hall.
Qed.




(** X12: the order of the boxes of a compressed bitmap does not matter.
    For a positive [boxSize] no two pixels of the packed image land at the
    same offset, so [unpack] returns the same result for the boxes in grid
    order and for the boxes in any other order. *)
Theorem box_order_irrelevant image width height boxSize fuel :
  Image.width image = JNum width -> Image.height image = JNum height ->
  0 <= width -> 0 <= height -> 0 < boxSize ->
  (Z.to_nat (width / boxSize) <= fuel)%nat ->
  (Z.to_nat (height / boxSize) <= fuel)%nat ->
  exists boxed,
    boxify fuel image (JNum boxSize) = Some boxed
    /\ forall data',
         data' ≡ₚ PackedImage.data (pack boxed) ->
         unpack (PackedImage.make (PackedImage.size (pack boxed))
                                  (PackedImage.boxSize (pack boxed)) data')
         = unpack (pack boxed).
Proof.
  intros Hwidth Hheight Hw Hh Hb Hfw Hfh.
  assert (0 <= width / boxSize) as HW by (apply Z.div_pos; lia).
  assert (0 <= height / boxSize) as HH by (apply Z.div_pos; lia).
  eexists. split; [by eapply boxify_grid|].
  rewrite pack_fmap. cbn [BoxedImage.size BoxedImage.boxSize BoxedImage.data
                          PackedImage.size PackedImage.boxSize PackedImage.data].
  intros data' Hperm. unfold unpack.
  cbn [PackedImage.size PackedImage.boxSize PackedImage.data Size.width Size.height
       JS.mul JS.arith].
  destruct (new_Array _) as [a| |]; [|done..]. do 2 f_equal.
  rewrite !fold_boxes_entries.
  apply writes_Permutation; [by apply entries_Permutation|].
  rewrite (packed_entries image width) by done. by apply targets_NoDup.
Qed.

Lemma box_order_irrelevant_witness :
  exists boxed,
    boxify 2 four_pixels (JNum 1) = Some boxed
    /\ unpack (PackedImage.make (PackedImage.size (pack boxed))
                                (PackedImage.boxSize (pack boxed))
                                (reverse (PackedImage.data (pack boxed))))
       = unpack (pack boxed).
Proof.
  destruct (box_order_irrelevant four_pixels 2 2 1 2)
    as (boxed & Hboxed & Horder);
    [reflexivity | reflexivity | lia | lia | lia | vm_compute; lia | vm_compute; lia |].
  exists boxed. split; [exact Hboxed|]. apply Horder, reverse_Permutation.
Defined.

End Pipeline.

(** ** The two commands *)

Section Commands.

Lemma packed_rows image boxSize X Y :
  pixel_at <$> PackedBox.data (pack_box (box_at image boxSize X Y)) = row_major boxSize.
Proof.
  rewrite pack_box_data, <- list_fmap_compose.
  unfold box_at. cbn [Box.data].
  by rewrite <- (box_pixels_row_major image (Image.data image) boxSize
                   (JNum (X * boxSize)) (JNum (Y * boxSize))).
Qed.

Lemma length_boxes image boxSize W H :
  0 <= W -> 0 <= H ->
  Z.of_nat (length (y ← seqZ 0 H; x ← seqZ 0 W; [box_at image boxSize x y])) = W * H.
Proof.
  intros HW HH.
  rewrite (grid_flat (fun x y => box_at image boxSize x y)), length_fmap, length_seqZ
    by done.
  nia.
Qed.

Lemma Forall_boxes (P : Box.t -> Prop) image boxSize W H :
  (forall X Y, 0 <= X < W -> 0 <= Y < H -> P (box_at image boxSize X Y)) ->
  Forall P (y ← seqZ 0 H; x ← seqZ 0 W; [box_at image boxSize x y]).
Proof.
  intros HP.
  apply Forall_bind, Forall_seqZ. intros y Hy.
  apply Forall_bind, Forall_seqZ. intros x Hx.
  apply Forall_singleton, HP; lia.
Qed.


(** The file [compress] writes for a box size and a grid that fit a byte. *)
Lemma compress_bytes image width height boxSize fuel :
  Image.width image = JNum width -> Image.height image = JNum height ->
  0 <= width -> 0 <= height -> 0 < boxSize ->
  (Z.to_nat (width / boxSize) <= fuel)%nat ->
  (Z.to_nat (height / boxSize) <= fuel)%nat ->
  boxSize <= 255 -> width / boxSize <= 255 -> height / boxSize <= 255 ->
  compress fuel image (JNum boxSize)
  = Some (Normal
            (header_bytes boxSize (width / boxSize) (height / boxSize)
               (Z.of_nat (length (pack_box <$> (y ← seqZ 0 (height / boxSize);
                                               x ← seqZ 0 (width / boxSize);
                                               [box_at image boxSize x y]))))
               ++ mjoin (record_bytes
                           <$> (pack_box <$> (y ← seqZ 0 (height / boxSize);
                                              x ← seqZ 0 (width / boxSize);
                                              [box_at image boxSize x y]))))).
Proof.
  intros Hwidth Hheight Hw Hh Hb Hfw Hfh Hb' HW' HH'.
  assert (0 <= width / boxSize) as HW by (apply Z.div_pos; lia).
  assert (0 <= height / boxSize) as HH by (apply Z.div_pos; lia).
  unfold compress. cbn [JS.not]. destruct (Z.eqb_spec boxSize 0) as [|_]; [lia|].
  rewrite (boxify_grid image width height) by done. cbn [mbind option_bind].
  rewrite pack_fmap. cbn [BoxedImage.size BoxedImage.boxSize BoxedImage.data].
  f_equal.
  by rewrite (serialise_bytes _ boxSize (width / boxSize) (height / boxSize))
    by (done || lia).
Qed.



Lemma rem_zero a b : 0 <= a -> 0 < b -> (Z.rem a b =? 0) = (a / b * b =? a).
Proof.
  intros Ha Hb. rewrite Z.rem_mod_nonneg by lia.
  pose proof (Z.div_mod a b ltac:(lia)).
  destruct (Z.eqb_spec (a mod b) 0), (Z.eqb_spec (a / b * b) a); lia.
Qed.

(** X14: [compress] warns of cropping exactly when pixels are dropped.  For
    a positive [boxSize] the test of the warning holds if and only if the
    boxes [boxify] returns cover fewer columns or fewer rows than the image
    has. *)
Theorem crop_warning image width height boxSize fuel :
  Image.width image = JNum width -> Image.height image = JNum height ->
  0 <= width -> 0 <= height -> 0 < boxSize ->
  (Z.to_nat (width / boxSize) <= fuel)%nat ->
  (Z.to_nat (height / boxSize) <= fuel)%nat ->
  exists boxed,
    boxify fuel image (JNum boxSize) = Some boxed
    /\ BoxedImage.size boxed = Size.make (JNum (width / boxSize)) (JNum (height / boxSize))
    /\ (crops image (JNum boxSize) = true
        <-> width / boxSize * boxSize < width \/ height / boxSize * boxSize < height)
    /\ (crops image (JNum boxSize) = false
        <-> width / boxSize * boxSize = width /\ height / boxSize * boxSize = height).
Proof.
  intros Hwidth Hheight Hw Hh Hb Hfw Hfh.
  eexists. split; [by eapply boxify_grid|]. split; [done|].
  unfold crops. rewrite Hwidth, Hheight. cbn [JS.rem].
  destruct (Z.eqb_spec boxSize 0) as [|_]; [lia|]. cbn [JS.eq].
  rewrite !rem_zero by lia.
  pose proof (Z.mul_div_le width boxSize Hb).
  pose proof (Z.mul_div_le height boxSize Hb).
  destruct (Z.eqb_spec (width / boxSize * boxSize) width),
    (Z.eqb_spec (height / boxSize * boxSize) height); cbn [negb orb];
    split; split; intros; try done; try lia.
Qed.

Lemma crop_warning_witness :
  crops four_pixels (JNum 2) = false
  /\ crops (Image.make (JNum 3) (JNum 2) []) (JNum 2) = true.
Proof.
  split.
  - destruct (crop_warning four_pixels 2 2 2 2) as (_ & _ & _ & _ & Hfalse);
      [reflexivity | reflexivity | lia | lia | lia | vm_compute; lia | vm_compute; lia |].
    apply Hfalse. split; reflexivity.
  - destruct (crop_warning (Image.make (JNum 3) (JNum 2) []) 3 2 2 2)
      as (_ & _ & _ & Htrue & _);
      [reflexivity | reflexivity | lia | lia | lia | vm_compute; lia | vm_compute; lia |].
    apply Htrue. left. reflexivity.
Defined.

Lemma stored_byte v : is_byte v -> stored v = v.
Proof. apply ToUint8_byte. Qed.

Lemma stored_byte_color c : byte_color c -> stored_color c = c.
Proof.
  destruct c as [r g b]. intros (Hr & Hg & Hb). cbn in Hr, Hg, Hb.
  unfold stored_color. cbn [Color.r Color.g Color.b]. by rewrite !stored_byte.
Qed.

(** A box the byte array keeps all that [unpack] reads of: its coordinates
    are bytes, and every pixel has the index 1 and a [light] colour of bytes,
    or the index 0 and a [dark] colour of bytes. *)
Lemma write_box_stored width boxSize box a :
  byte_coordinates box ->
  Forall (fun pixel =>
            (PackedPixel.index pixel = JNum 1 /\ byte_color (PackedBox.light box))
            \/ (PackedPixel.index pixel = JNum 0 /\ byte_color (PackedBox.dark box)))
         (PackedBox.data box) ->
  write_box width boxSize a (stored_box box) = write_box width boxSize a box.
Proof.
  intros [Hx Hy] Hpixels. unfold write_box.
  change (PackedBox.data (stored_box box)) with (stored_pixel <$> PackedBox.data box).
  revert a. induction Hpixels as [|pixel pixels Hpixel _ IH]; intros a; [done|].
  cbn [fmap list_fmap fold_left]. rewrite IH. f_equal.
  unfold write_pixel, stored_box, stored_pixel.
  cbn [PackedBox.x PackedBox.y PackedBox.light PackedBox.dark
       PackedPixel.x PackedPixel.y PackedPixel.index].
  rewrite (stored_byte _ Hx), (stored_byte _ Hy).
  destruct Hpixel as [[-> Hc]|[-> Hc]]; cbn [stored JS.ToUint8 JS.eq];
    by rewrite (stored_byte_color _ Hc).
Qed.

Lemma unpack_stored size boxSize data :
  Forall (fun box =>
            byte_coordinates box
            /\ Forall (fun pixel =>
                         (PackedPixel.index pixel = JNum 1
                          /\ byte_color (PackedBox.light box))
                         \/ (PackedPixel.index pixel = JNum 0
                             /\ byte_color (PackedBox.dark box)))
                      (PackedBox.data box)) data ->
  unpack (PackedImage.make size boxSize (stored_box <$> data))
  = unpack (PackedImage.make size boxSize data).
Proof.
  intros Hdata. unfold unpack.
  cbn [PackedImage.size PackedImage.boxSize PackedImage.data].
  destruct (new_Array _) as [a| |]; [|done..]. do 2 f_equal.
  generalize (full_alpha a) as imageData.
  induction Hdata as [|box boxes [Hxy Hpixels] _ IH]; intros imageData; [done|].
  cbn [fmap list_fmap fold_left]. rewrite IH. f_equal.
  by apply write_box_stored.
Qed.

(** The boxes [pack] makes of the boxes of a bitmap are such boxes. *)
Lemma packed_box_kept image width height boxSize X Y :
  bitmap image width height -> 0 < boxSize ->
  0 <= X < width / boxSize -> 0 <= Y < height / boxSize ->
  width / boxSize <= 256 -> height / boxSize <= 256 ->
  let box := pack_box (box_at image boxSize X Y) in
  byte_coordinates box
  /\ Forall (fun pixel =>
               (PackedPixel.index pixel = JNum 1 /\ byte_color (PackedBox.light box))
               \/ (PackedPixel.index pixel = JNum 0 /\ byte_color (PackedBox.dark box)))
            (PackedBox.data box).
Proof.
  intros Hbitmap Hb HX HY HW HH box. subst box. split.
  - unfold byte_coordinates, pack_box, box_at. cbn. lia.
  - rewrite pack_box_data. apply Forall_fmap, Forall_forall. intros pixel Hin.
    cbn [compose PackedPixel.index].
    pose proof (box_at_bytes image width height boxSize X Y Hbitmap Hb HX HY) as Hbytes.
    destruct (is_light _ pixel) eqn:Hlight.
    + left. split; [done|]. by eapply byte_light.
    + right. split; [done|]. by eapply byte_dark.
Qed.

(** The bitmap [decompress] makes of the bytes [compress] writes. *)
Lemma decompress_records image width height boxSize :
  bitmap image width height -> 0 < boxSize <= 255 ->
  width / boxSize <= 255 -> height / boxSize <= 255 ->
  let data := pack_box <$> (y ← seqZ 0 (height / boxSize);
                            x ← seqZ 0 (width / boxSize);
                            [box_at image boxSize x y]) in
  decompress (header_bytes boxSize (width / boxSize) (height / boxSize)
                (Z.of_nat (length data))
                ++ mjoin (record_bytes <$> data))
  = unpack (PackedImage.make
              (Size.make (JNum (width / boxSize)) (JNum (height / boxSize)))
              (JNum boxSize) data).
Proof.
  intros Hbitmap Hb HW' HH' data. subst data.
  pose proof Hbitmap as (Hwidth & Hheight & Hw & Hh & _).
  assert (0 <= width / boxSize) as HW by (apply Z.div_pos; lia).
  assert (0 <= height / boxSize) as HH by (apply Z.div_pos; lia).
  unfold decompress. rewrite deserialise_records.
  - apply unpack_stored, Forall_fmap, Forall_boxes. intros X Y HX HY. cbn [compose].
    by apply (packed_box_kept image width height); try done; lia.
  - lia.
  - rewrite length_fmap, length_boxes by done. nia.
  - apply Forall_fmap, Forall_boxes. intros X Y _ _. apply packed_rows.
Qed.



Lemma get_at (l : list Z) (i : Z) :
  0 <= i -> JS.get JNum l (JNum i) = from_option JNum JUndefined (l !! Z.to_nat i).
Proof. intros Hi. rewrite <- (Z2Nat.id i) at 1 by lia. apply get_lookup. Qed.

(** X16: the two ways [decompress] fails on the header of a stream.  A
    stream the magic check refuses ends the process with "incorrect filetype,
    expecting .qimg file".  A stream that passes the check and has fewer than
    13 bytes has no [size.height] and declares no box: the length of the
    pixel buffer is [NaN], and [new Array] throws a [RangeError]. *)
Theorem decompress_failures bytes :
  (~ accepted_magic bytes -> decompress bytes = ProcessExit incorrect_filetype_message)
  /\ (accepted_magic bytes -> (length bytes < 13)%nat -> decompress bytes = RangeError).
Proof.
  split.
  - intros Hmagic. unfold decompress. by rewrite deserialise_rejected.
  - intros Hmagic Hshort. unfold decompress.
    destruct (deserialise_accepted bytes Hmagic) as [data ->].
    rewrite (get_at bytes 12) by lia. change (Z.to_nat 12) with 12%nat.
    rewrite (lookup_ge_None_2 bytes 12) by lia.
    unfold unpack. cbn [PackedImage.size PackedImage.boxSize Size.width Size.height
                        from_option].
    by destruct (JS.get JNum bytes (JNum 11)), (JS.get JNum bytes (JNum 10)).
Qed.

Lemma decompress_failures_witness :
  decompress [1; 2; 3] = ProcessExit incorrect_filetype_message
  /\ decompress [99; 115; 113; 47; 113; 105; 109; 103; 0; 1; 4; 2] = RangeError.
Proof.
  split.
  - apply (proj1 (decompress_failures [1; 2; 3])).
    intros H. discriminate H.
  - apply (proj2 (decompress_failures [99; 115; 113; 47; 113; 105; 109; 103; 0; 1; 4; 2])).
    + reflexivity.
    + cbn. lia.
Defined.

End Commands.

(** ** Boxes of one pixel *)

Section OnePixel.

Lemma single_checks_hold : single_checks byte_floats = true.
Proof. vm_cast_no_check (eq_refl true). Qed.

Lemma single_checks_spec byte r g b :
  single_checks byte = true -> In r byte -> In g byte -> In b byte ->
  ((0 + luminance r g b) / 1 <=? luminance r g b)%float = true.
Proof.
  unfold single_checks. intros H Hr Hg Hb.
  rewrite forallb_forall in H. specialize (H _ Hr).
  rewrite forallb_forall in H. specialize (H _ Hg).
  rewrite forallb_forall in H. exact (H _ Hb).
Qed.

Lemma Z2F_one : Z2F 1 = 1%float.
Proof. vm_compute. reflexivity. Qed.

(** A pixel alone in its box is light. *)
Lemma single_light x y c :
  byte_color c ->
  is_light (averageLuminance [Pixel.make x y c]) (Pixel.make x y c) = true.
Proof.
  destruct c as [r g b]. intros (Hr & Hg & Hb). cbn in Hr, Hg, Hb.
  destruct r as [| |r]; [destruct Hr..|].
  destruct g as [| |g]; [destruct Hg..|].
  destruct b as [| |b]; [destruct Hb..|].
  cbn in Hr, Hg, Hb.
  unfold is_light, averageLuminance. cbn [fold_left length Pixel.color].
  change (Z.of_nat 1) with 1. rewrite Z2F_one.
  change (Color.make (JNum r) (JNum g) (JNum b)) with (rgb r g b).
  rewrite getLuminance_rgb.
  exact (single_checks_spec byte_floats (Z2F r) (Z2F g) (Z2F b) single_checks_hold
           (elem_of_byte r ltac:(lia)) (elem_of_byte g ltac:(lia))
           (elem_of_byte b ltac:(lia))).
Qed.

Lemma pack_single X Y x y c :
  byte_color c ->
  pack_box (Box.make X Y [Pixel.make x y c])
  = PackedBox.make X Y c (Color.make JNaN JNaN JNaN) [PackedPixel.make x y (JNum 1)].
Proof.
  intros Hc. unfold pack_box, partition_totals.
  cbn [Box.data Box.x Box.y fold_left Pixel.x Pixel.y app].
  rewrite (single_light x y c Hc). cbn [fst snd Pixel.color].
  destruct c as [r g b]. destruct Hc as (Hr & Hg & Hb). cbn in Hr, Hg, Hb.
  destruct r as [| |r]; [destruct Hr..|].
  destruct g as [| |g]; [destruct Hg..|].
  destruct b as [| |b]; [destruct Hb..|].
  unfold mean_color, Totals.add, Totals.zero, floor_div.
  cbn [Totals.r Totals.g Totals.b Totals.n Color.r Color.g Color.b JS.add JS.arith].
  change (0 + 1 =? 0) with false. cbn iota.
  by rewrite !Z.add_0_l, !Z.div_1_r.
Qed.

Lemma byte_source image width height px py :
  bitmap image width height -> 0 <= px < width -> 0 <= py < height ->
  byte_color (source_color (Image.data image) width px py).
Proof.
  intros (_ & _ & _ & _ & bytes & -> & Hbytes & Hlen) Hpx Hpy.
  assert (0 <= py * width + px <= height * width - 1) by nia.
  unfold source_color, byte_color. cbn [Color.r Color.g Color.b].
  repeat split; apply get_byte; try done; lia.
Qed.

Lemma box_at_one image width X Y :
  Image.width image = JNum width ->
  box_at image 1 X Y
  = Box.make (JNum X) (JNum Y)
      [Pixel.make (JNum 0) (JNum 0) (source_color (Image.data image) width X Y)].
Proof.
  intros Hwidth. unfold box_at. f_equal.
  rewrite (box_pixels_flat _ _ width) by (done || lia).
  change (seqZ 0 (1 * 1)) with [0]. cbn [fmap list_fmap].
  change (0 mod 1) with 0. change (0 / 1) with 0.
  by rewrite !Z.mul_1_r, !Z.add_0_r.
Qed.

Lemma quantised_one image width height px py :
  bitmap image width height -> 0 <= px < width -> 0 <= py < height ->
  quantised image width 1 px py = source_color (Image.data image) width px py.
Proof.
  intros Hbitmap Hpx Hpy.
  pose proof (byte_source image width height px py Hbitmap Hpx Hpy) as Hc.
  pose proof Hbitmap as (Hwidth & _).
  unfold quantised. rewrite !Z.div_1_r, (box_at_one image width) by done.
  cbn [Box.data]. rewrite pack_single by done. cbn [PackedBox.light PackedBox.dark].
  pose proof (single_light (JNum 0) (JNum 0) _ Hc) as Hlight.
  unfold is_light in Hlight. cbn [Pixel.color] in Hlight. by rewrite Hlight.
Qed.

(** X17: with the box size 1 nothing is lost but the alpha channel.  For a
    decoded bitmap of at most 255 pixels a side, [compress] with the box
    size 1 writes a file, and [decompress] of that file returns a bitmap of
    the same width and height in which every pixel has the red, green and
    blue channels of the source pixel and alpha 255. *)
Theorem box_size_one_lossless image width height fuel :
  bitmap image width height -> width <= 255 -> height <= 255 ->
  (Z.to_nat width <= fuel)%nat -> (Z.to_nat height <= fuel)%nat ->
  exists file imageData,
    compress fuel image (JNum 1) = Some (Normal file)
    /\ decompress file = Normal (Image.make (JNum width) (JNum height) imageData)
    /\ Z.of_nat (length imageData) = width * height * 4
    /\ forall px py,
         0 <= px < width -> 0 <= py < height ->
         pixel_read imageData ((width * py + px) * 4)
         = opaque (source_color (Image.data image) width px py).
Proof.
  intros Hbitmap Hw' Hh' Hfw Hfh.
  pose proof Hbitmap as (Hwidth & Hheight & Hw & Hh & _).
  destruct (unpack_packed image width height 1 fuel)
    as (boxed & imageData & Hboxed & Hunpack & Hlength & Hread);
    rewrite ?Z.div_1_r, ?Z.mul_1_r; try done; try nia.
  rewrite (boxify_grid image width height) in Hboxed
    by (rewrite ?Z.div_1_r; done || lia).
  injection Hboxed as <-. rewrite pack_fmap in Hunpack.
  cbn [BoxedImage.size BoxedImage.boxSize BoxedImage.data] in Hunpack.
  eexists _, imageData.
  split; [apply (compress_bytes image width height);
          rewrite ?Z.div_1_r; done || lia|].
  split; [|split].
  - rewrite (decompress_records image width height 1)
      by (rewrite ?Z.div_1_r; done || lia).
    rewrite Hunpack. by rewrite !Z.div_1_r, !Z.mul_1_r.
  - by rewrite !Z.div_1_r, !Z.mul_1_r in Hlength.
  - intros px py Hpx Hpy. rewrite !Z.div_1_r, !Z.mul_1_r in Hread.
    rewrite Hread by done. by rewrite (quantised_one image width height).
Qed.

Lemma box_size_one_lossless_witness :
  exists file imageData,
    compress 2 four_pixels (JNum 1) = Some (Normal file)
    /\ decompress file = Normal (Image.make (JNum 2) (JNum 2) imageData)
    /\ Z.of_nat (length imageData) = 16
    /\ pixel_read imageData 12 = [JNum 250; JNum 250; JNum 250; JNum 255].
Proof.
  destruct (box_size_one_lossless four_pixels 2 2 2)
    as (file & imageData & Hfile & Hdecompress & Hlength & Hread).
  - split; [reflexivity|]. split; [reflexivity|]. split; [lia|]. split; [lia|].
    exists [10; 10; 10; 255; 200; 200; 200; 255; 10; 10; 10; 255; 250; 250; 250; 255].
    split; [reflexivity|]. split; [|reflexivity].
    repeat constructor; lia.
  - lia.
  - lia.
  - vm_compute. lia.
  - vm_compute. lia.
  - exists file, imageData. split; [exact Hfile|]. split; [exact Hdecompress|].
    split; [exact Hlength|]. exact (Hread 1 1 ltac:(lia) ltac:(lia)).
Defined.

End OnePixel.
